(** * WordWise: the LaTeX to Markdown converter of [_example/process_latex.py]

    The converter reads one file, applies a fixed sequence of [re.sub] calls
    to its text, trims the result and writes it out.  This development
    embeds

    - the text as a list of Unicode code points;
    - the fragment of Python's regular expressions the script uses: a
      backtracking matcher with literals, greedy and lazy repetitions of one
      character class, one capture group, and the [^] and [$] anchors under
      MULTILINE;
    - the substitution loop of [re.sub] and [str.strip];
    - the two functions of the script, [clean_math_content] and
      [process_latex_file], the latter as the function from the text read to
      the text written (reading, writing and progress messages are left out).

    The properties proved are those of the specification's list, C1 to C10,
    followed by further properties of the two functions, X1 to X26, read off
    the code: what the output never holds, which texts pass unchanged, and
    what becomes of each construct the script knows in a text without other
    markup. *)

From Stdlib Require Import String Ascii NArith Bool Arith Lia List.
Import ListNotations.

(** ** Text *)

(** A Python [str] is a sequence of Unicode code points. *)
Definition char := N.
Definition text := list char.

(** The code points of an ASCII literal. *)
Definition lit (s : string) : text := map N_of_ascii (list_ascii_of_string s).

Definition NL : char := 10%N.
Definition BACKSLASH : char := 92%N.
Definition PERCENT : char := 37%N.
Definition DOLLAR : char := 36%N.
Definition LBRACE : char := 123%N.
Definition RBRACE : char := 125%N.
Definition TILDE : char := 126%N.
Definition HASH : char := 35%N.
Definition SPACE : char := 32%N.

(** [str.isspace] on one code point, which is also what [\s] matches in a
    [str] pattern. *)
Definition isspace (c : char) : bool :=
  ((9 <=? c) && (c <=? 13) || (28 <=? c) && (c <=? 32)
   || (c =? 133) || (c =? 160) || (c =? 5760)
   || (8192 <=? c) && (c <=? 8202)
   || (c =? 8232) || (c =? 8233) || (c =? 8239) || (c =? 8287)
   || (c =? 12288))%N.

(** The class [[a-zA-Z]]. *)
Definition isletter (c : char) : bool :=
  ((65 <=? c) && (c <=? 90) || (97 <=? c) && (c <=? 122))%N.

(** A line break, as an ASCII literal. *)
Definition nl : string := String "010"%char "".

(** ** Regular expressions *)

(** The character classes of the script's patterns: [.] without and with
    DOTALL, [\s], [[a-zA-Z]] and the negated singletons [[^$]] and [[^}]]. *)
Inductive cls : Type :=
| Dot
| DotAll
| Space
| Letter
| NotCh (c : char).

Definition in_cls (k : cls) (c : char) : bool :=
  match k with
  | Dot => negb (c =? NL)%N
  | DotAll => true
  | Space => isspace c
  | Letter => isletter c
  | NotCh d => negb (c =? d)%N
  end.

(** A pattern is a sequence of atoms.  Every repetition in the script is a
    repetition of one character class, and every capture group wraps exactly
    one such repetition, so [Rep k greedy lo grp] stands for [k*] ([lo = 0]) or
    [k+] ([lo = 1]), lazy when [greedy] is false, captured when [grp] is true.
    [Bol] and [Eol] are [^] and [$] under MULTILINE. *)
Inductive atom : Type :=
| Lit (c : char)
| Rep (k : cls) (greedy : bool) (lo : nat) (grp : bool)
| Bol
| Eol.

Definition pattern := list atom.

Definition lits (s : string) : pattern := map Lit (lit s).

(** A successful match: how many characters it consumed, and its groups. *)
Definition result := (nat * list text)%type.

(** The match [r] of the rest, after one more character [c] taken by the
    current atom; with [grp], [c] goes in front of the first group. *)
Definition advance (grp : bool) (c : char) (r : option result) : option result :=
  match r with
  | Some (n, gs) =>
      Some (S n, if grp
                 then match gs with
                      | g :: gs' => (c :: g) :: gs'
                      | [] => [[c]]
                      end
                 else gs)
  | None => None
  end.

(** The match [r] of the rest, where a captured repetition ends: its group
    starts empty in front of the groups of the rest. *)
Definition open_group (grp : bool) (r : option result) : option result :=
  match r with
  | Some (n, gs) => Some (n, if grp then [] :: gs else gs)
  | None => None
  end.

(** [^] under MULTILINE holds at the start of the text and after a line
    break; [$] holds at the end of the text and before a line break. *)
Definition at_bol (prev : option char) : bool :=
  match prev with
  | None => true
  | Some c => (c =? NL)%N
  end.

Definition at_eol (s : text) : bool :=
  match s with
  | [] => true
  | c :: _ => (c =? NL)%N
  end.

(** The repetition of one class in front of the continuation [cont], with
    backtracking: a greedy repetition first tries to take one more character
    and falls back to stopping here, a lazy one first tries to stop. *)
Fixpoint rep (k : cls) (greedy grp : bool)
    (cont : option char -> text -> option result)
    (lo : nat) (prev : option char) (s : text) {struct s} : option result :=
  if greedy then
    match
      match s with
      | c :: s' =>
          if in_cls k c
          then advance grp c (rep k greedy grp cont (pred lo) (Some c) s')
          else None
      | [] => None
      end
    with
    | Some r => Some r
    | None =>
        match lo with
        | O => open_group grp (cont prev s)
        | S _ => None
        end
    end
  else
    match
      match lo with
      | O => open_group grp (cont prev s)
      | S _ => None
      end
    with
    | Some r => Some r
    | None =>
        match s with
        | c :: s' =>
            if in_cls k c
            then advance grp c (rep k greedy grp cont (pred lo) (Some c) s')
            else None
        | [] => None
        end
    end.

(** [match_here p prev s]: the match of [p] anchored at the start of [s],
    where [prev] is the character just before [s] in the subject. *)
Fixpoint match_here (p : pattern) (prev : option char) (s : text)
    {struct p} : option result :=
  match p with
  | [] => Some (O, [])
  | Lit c :: p' =>
      match s with
      | x :: s' =>
          if (x =? c)%N then advance false x (match_here p' (Some x) s')
          else None
      | [] => None
      end
  | Rep k greedy lo grp :: p' =>
      rep k greedy grp (match_here p') lo prev s
  | Bol :: p' => if at_bol prev then match_here p' prev s else None
  | Eol :: p' => if at_eol s then match_here p' prev s else None
  end.

(** ** [re.sub] *)

(** [sub_from p repl prev skip s] scans [s] from left to right; [skip] is the
    number of characters still covered by the last match.  At each free
    position the pattern is tried: a match emits [repl] of its groups and
    covers the characters it consumed, a failure copies one character.  An
    empty match emits the replacement and copies the character; no pattern of
    the script has one ([script_patterns_consume] below). *)
Fixpoint sub_from (p : pattern) (repl : list text -> text)
    (prev : option char) (skip : nat) (s : text) {struct s} : text :=
  match s with
  | [] =>
      match skip with
      | O => match match_here p prev [] with
             | Some (_, gs) => repl gs
             | None => []
             end
      | S _ => []
      end
  | c :: s' =>
      match skip with
      | S k => sub_from p repl (Some c) k s'
      | O =>
          match match_here p prev s with
          | Some (n, gs) =>
              repl gs ++
              match n with
              | O => c :: sub_from p repl (Some c) O s'
              | S k => sub_from p repl (Some c) k s'
              end
          | None => c :: sub_from p repl (Some c) O s'
          end
      end
  end.

(** [re.sub(pattern, repl, string)], with [repl] a function of the groups. *)
Definition re_sub (p : pattern) (repl : list text -> text) (s : text) : text :=
  sub_from p repl None O s.

(** Replacement templates: a constant, or a prefix followed by [\1]. *)
Definition group1 (gs : list text) : text := nth 0 gs [].
Definition const (t : string) : list text -> text := fun _ => lit t.
Definition with_group1 (t : string) : list text -> text :=
  fun gs => lit t ++ group1 gs.

(** [str.strip()] *)
Fixpoint lstrip (s : text) : text :=
  match s with
  | c :: s' => if isspace c then lstrip s' else s
  | [] => []
  end.

Definition rstrip (s : text) : text := rev (lstrip (rev s)).

Definition strip (s : text) : text := rstrip (lstrip s).

(** ** Pattern pieces *)

(** The lazy star of dot, bare and as group 1, and under DOTALL; the greedy
    star and plus of the space class; the greedy plus of the letter class;
    and the captured greedy star of "anything but a closing brace". *)
Definition lazy_dot : atom := Rep Dot false 0 false.
Definition lazy_dot_group : atom := Rep Dot false 0 true.
Definition lazy_dotall : atom := Rep DotAll false 0 false.
Definition spaces0 : atom := Rep Space true 0 false.
Definition spaces1 : atom := Rep Space true 1 false.
Definition letters1 : atom := Rep Letter true 1 false.
Definition arg_group : atom := Rep (NotCh RBRACE) true 0 true.

(** A command with one lazily matched brace argument (lines 44, 59, 62-65, 91). *)
Definition cmd_arg (name : string) : pattern :=
  lits name ++ [Lit LBRACE; lazy_dot; Lit RBRACE].

(** A command with a bracket option and a brace argument (lines 36, 90). *)
Definition cmd_opt_arg (name : string) : pattern :=
  lits name ++ lits "[" ++ [lazy_dot] ++ lits "]{" ++ [lazy_dot; Lit RBRACE].

(** A heading command, its title as group 1, optional spaces, and a label
    command (lines 49, 52, 55). *)
Definition heading_label (name : string) : pattern :=
  lits name ++ [Lit LBRACE; lazy_dot_group; Lit RBRACE; spaces0]
  ++ lits "\label{" ++ [lazy_dot; Lit RBRACE].

(** A heading command alone, its title as group 1 (lines 50, 53, 56). *)
Definition heading (name : string) : pattern :=
  lits name ++ [Lit LBRACE; lazy_dot_group; Lit RBRACE].

(** An environment from its begin to the first following end, across lines
    (lines 68-70, 82, 85, 86). *)
Definition environment (env : string) : pattern :=
  lits "\begin{" ++ lits env ++ lits "}" ++ [lazy_dotall]
  ++ lits "\end{" ++ lits env ++ lits "}".

(** A command whose argument, free of closing braces, is group 1
    (lines 77-79, 98, 99, 135). *)
Definition unwrap (name : string) : pattern :=
  lits name ++ [Lit LBRACE; arg_group; Lit RBRACE].

(** Any command with a captured argument (line 129), any command with a
    lazily matched argument (line 107), and any bare command (lines 108, 130). *)
Definition any_cmd_unwrap : pattern :=
  [Lit BACKSLASH; letters1; Lit LBRACE; arg_group; Lit RBRACE].
Definition any_cmd_arg : pattern :=
  [Lit BACKSLASH; letters1; Lit LBRACE; lazy_dot; Lit RBRACE].
Definition any_cmd : pattern := [Lit BACKSLASH; letters1].

Definition PLACEHOLDER : string := "<EQN HERE>".

(** ** [clean_math_content] (lines 118-137) *)

Definition clean_math_content (math_text : text) : text :=
  let math_text := re_sub any_cmd_unwrap group1 math_text in
  let math_text := re_sub any_cmd (const "") math_text in
  let math_text := re_sub (lits "\left") (const "") math_text in
  let math_text := re_sub (lits "\right") (const "") math_text in
  let math_text := re_sub (unwrap "\text") group1 math_text in
  strip math_text.

(** ** The stages of [process_latex_file] (lines 36-111) *)

(* lines 35-38: Remove LaTeX document structure *)
Definition structure_stage (content : text) : text :=
  let content := re_sub (cmd_opt_arg "\documentclass") (const "") content in
  let content := re_sub (lits "\begin{document}") (const "") content in
  re_sub (lits "\end{document}") (const "") content.

(* lines 40-41: Remove comments.  The pattern is a percent sign, the greedy
   star of dot, and the end of the line under MULTILINE. *)
Definition comment_pattern : pattern := [Lit PERCENT; Rep Dot true 0 false; Eol].
Definition comment_stage (content : text) : text :=
  re_sub comment_pattern (const "") content.

(* lines 43-46: Remove custom commands and placeholders *)
Definition custom_stage (content : text) : text :=
  let content := re_sub (cmd_arg "\myCover") (const "") content in
  let content := re_sub (lits "\myChapterCover{}") (const "") content in
  re_sub (lits "\newpage") (const "") content.

(* lines 48-56: Convert sections to markdown headers *)
Definition heading_stage (content : text) : text :=
  let content := re_sub (heading_label "\section") (with_group1 "# ") content in
  let content := re_sub (heading "\section") (with_group1 "# ") content in
  let content := re_sub (heading_label "\subsection") (with_group1 "## ") content in
  let content := re_sub (heading "\subsection") (with_group1 "## ") content in
  let content := re_sub (heading_label "\subsubsection") (with_group1 "### ") content in
  re_sub (heading "\subsubsection") (with_group1 "### ") content.

(* lines 58-59: Remove labels without section headers *)
Definition label_stage (content : text) : text :=
  re_sub (cmd_arg "\label") (const "") content.

(* lines 61-65: Remove citations *)
Definition citation_stage (content : text) : text :=
  let content := re_sub (cmd_arg "\cite") (const "") content in
  let content := re_sub (cmd_arg "~\cite") (const "") content in
  let content := re_sub (cmd_arg "\Cref") (const "") content in
  re_sub (cmd_arg "\cref") (const "") content.

(* lines 67-70: Replace equation blocks with placeholder *)
Definition equation_stage (content : text) : text :=
  let content := re_sub (environment "equation") (const PLACEHOLDER) content in
  let content := re_sub (environment "align") (const PLACEHOLDER) content in
  re_sub (environment "split") (const PLACEHOLDER) content.

(* lines 72-74: Handle inline math.  The pattern is a dollar, the lazy star
   of "anything but a dollar" as group 1, and a dollar; the replacement is a
   function of the match. *)
Definition math_pattern : pattern :=
  [Lit DOLLAR; Rep (NotCh DOLLAR) false 0 true; Lit DOLLAR].
Definition math_repl (gs : list text) : text :=
  DOLLAR :: clean_math_content (group1 gs) ++ [DOLLAR].
Definition math_stage (content : text) : text :=
  re_sub math_pattern math_repl content.

(* lines 76-79: Remove other LaTeX formatting *)
Definition formatting_stage (content : text) : text :=
  let content := re_sub (unwrap "\textit") group1 content in
  let content := re_sub (unwrap "\textbf") group1 content in
  re_sub (unwrap "\text") group1 content.

(* lines 81-86: Remove figure and table environments *)
Definition float_stage (content : text) : text :=
  let content := re_sub (environment "figure") (const "") content in
  let content := re_sub (environment "table") (const "") content in
  re_sub (environment "tabulary") (const "") content.

(* lines 88-94: Remove other LaTeX commands *)
Definition layout_stage (content : text) : text :=
  let content := re_sub (lits "\centering") (const "") content in
  let content := re_sub (cmd_opt_arg "\includegraphics") (const "") content in
  let content := re_sub (cmd_arg "\caption") (const "") content in
  let content := re_sub (lits "\toprule") (const "") content in
  let content := re_sub (lits "\midrule") (const "") content in
  re_sub (lits "\bottomrule") (const "") content.

(* lines 96-99: Remove tensor notation and other LaTeX-specific formatting *)
Definition tensor_pattern : pattern :=
  lits "\tensor[" ++ [lazy_dot] ++ lits "]{" ++ [lazy_dot] ++ lits "}{"
  ++ [lazy_dot; Lit RBRACE].
Definition notation_stage (content : text) : text :=
  let content := re_sub tensor_pattern (const "") content in
  let content := re_sub (unwrap "\mathbf") group1 content in
  re_sub (unwrap "\vec") group1 content.

(* lines 101-104: Clean up extra whitespace and empty lines *)
Definition blank_lines_pattern : pattern :=
  [Lit NL; spaces0; Lit NL; spaces0; Lit NL].
Definition leading_pattern : pattern := [Bol; spaces1].
Definition trailing_pattern : pattern := [spaces1; Eol].
Definition whitespace_stage (content : text) : text :=
  let content := re_sub blank_lines_pattern (const (nl ++ nl)) content in
  let content := re_sub leading_pattern (const "") content in
  re_sub trailing_pattern (const "") content.

(* lines 106-108: Remove any remaining LaTeX commands (catch-all) *)
Definition catch_all_stage (content : text) : text :=
  let content := re_sub any_cmd_arg (const "") content in
  re_sub any_cmd (const "") content.

(** Lines 22-114: the text written to the output file, as a function of the
    text read from the input file; line 111 is the final [strip]. *)
Definition process_latex_file (content : text) : text :=
  let content := structure_stage content in
  let content := comment_stage content in
  let content := custom_stage content in
  let content := heading_stage content in
  let content := label_stage content in
  let content := citation_stage content in
  let content := equation_stage content in
  let content := math_stage content in
  let content := formatting_stage content in
  let content := float_stage content in
  let content := layout_stage content in
  let content := notation_stage content in
  let content := whitespace_stage content in
  let content := catch_all_stage content in
  strip content.

(** * Vocabulary of the statements

    Everything from here on is about the functions above.  The definitions
    that the lemmas and theorems are stated with come first. *)

(** ** Words in a text *)

(** [w] is a prefix of [s]. *)
Fixpoint starts_with (w s : text) : bool :=
  match w, s with
  | [], _ => true
  | c :: w', x :: s' => (x =? c)%N && starts_with w' s'
  | _ :: _, [] => false
  end.

(** [w] occurs somewhere in [s]. *)
Fixpoint occurs (w s : text) : bool :=
  starts_with w s ||
  match s with
  | [] => false
  | _ :: s' => occurs w s'
  end.

(** [w] and [s] differ at a position both have. *)
Fixpoint mismatch (w s : text) : bool :=
  match w, s with
  | c :: w', x :: s' => negb (x =? c)%N || mismatch w' s'
  | _, _ => false
  end.

(** [w] cannot start at any position of [u], whatever follows [u]. *)
Fixpoint clash (w u : text) : bool :=
  match u with
  | [] => true
  | _ :: u' => mismatch w u && clash w u'
  end.

(** ** Patterns and matches *)

(** The literal characters a pattern starts with. *)
Fixpoint lit_prefix (p : pattern) : text :=
  match p with
  | Lit c :: p' => c :: lit_prefix p'
  | _ => []
  end.

(** Only [Bol] looks at the character before the match. *)
Definition no_bol (p : pattern) : bool :=
  forallb (fun a => match a with Bol => false | _ => true end) p.

(** A pattern with a literal or a repetition of at least one character. *)
Definition consumes (p : pattern) : bool :=
  existsb (fun a => match a with
                    | Lit _ | Rep _ _ (S _) _ => true
                    | _ => false
                    end) p.

(** The patterns of the script, in the order of their lines. *)
Definition script_patterns : list pattern :=
  [ cmd_opt_arg "\documentclass"; lits "\begin{document}";
    lits "\end{document}"; comment_pattern;
    cmd_arg "\myCover"; lits "\myChapterCover{}"; lits "\newpage";
    heading_label "\section"; heading "\section";
    heading_label "\subsection"; heading "\subsection";
    heading_label "\subsubsection"; heading "\subsubsection";
    cmd_arg "\label";
    cmd_arg "\cite"; cmd_arg "~\cite"; cmd_arg "\Cref"; cmd_arg "\cref";
    environment "equation"; environment "align"; environment "split";
    math_pattern;
    unwrap "\textit"; unwrap "\textbf"; unwrap "\text";
    environment "figure"; environment "table"; environment "tabulary";
    lits "\centering"; cmd_opt_arg "\includegraphics"; cmd_arg "\caption";
    lits "\toprule"; lits "\midrule"; lits "\bottomrule";
    tensor_pattern; unwrap "\mathbf"; unwrap "\vec";
    blank_lines_pattern; leading_pattern; trailing_pattern;
    any_cmd_arg; any_cmd;
    any_cmd_unwrap; lits "\left"; lits "\right" ].

(** The character before position [length m] of [m ++ s]. *)
Definition prev_after (prev : option char) (m : text) : option char :=
  fold_left (fun _ c => Some c) m prev.

(** A match that comes after [k] more characters. *)
Definition shift (k : nat) (r : option result) : option result :=
  match r with
  | Some (n, gs) => Some (k + n, gs)
  | None => None
  end.

(** The groups of a match whose first repetition took [u]. *)
Definition with_group (grp : bool) (u : text) (gs : list text) : list text :=
  if grp then u :: gs else gs.

(** A replacement that only uses characters with [P] and the groups. *)
Definition keeps (P : char -> Prop) (repl : list text -> text) : Prop :=
  forall gs, Forall (Forall P) gs -> Forall P (repl gs).

(** ** Command tokens *)

(** A command token is a backslash immediately followed by a letter. *)
Definition head_letter (s : text) : bool :=
  match s with
  | c :: _ => isletter c
  | [] => false
  end.

(** [s] holds no command token. *)
Fixpoint no_command (s : text) : bool :=
  match s with
  | c :: s' => negb ((c =? BACKSLASH)%N && head_letter s') && no_command s'
  | [] => true
  end.

(** The length of the run of letters at the start of [s]. *)
Fixpoint letter_run (s : text) : nat :=
  match s with
  | c :: s' => if isletter c then S (letter_run s') else 0
  | [] => 0
  end.

(** An atom that can only start on a letter. *)
Definition letter_gate (a : atom) : bool :=
  match a with
  | Lit d => isletter d
  | Rep Letter _ (S _) _ => true
  | _ => false
  end.

(** A pattern that starts with a backslash and then needs a letter. *)
Definition command_gate (p : pattern) : bool :=
  match p with
  | Lit c :: a :: _ => (c =? BACKSLASH)%N && letter_gate a
  | _ => false
  end.

(** A pattern whose literal prefix holds a backslash that must be followed
    by a letter: it can only match where the text has a command token. *)
Fixpoint requires_command (p : pattern) : bool :=
  match p with
  | Lit c :: p' =>
      ((c =? BACKSLASH)%N &&
       match p' with
       | a :: _ => letter_gate a
       | [] => false
       end)
      || requires_command p'
  | _ => false
  end.

(** The text of a command with one brace argument. *)
Definition command (name arg : text) : text :=
  BACKSLASH :: name ++ LBRACE :: arg ++ [RBRACE].

(** ** Lines *)

(** [s.split(NL)] and its inverse. *)
Fixpoint split_lines (s : text) : list text :=
  match s with
  | [] => [[]]
  | c :: s' =>
      if (c =? NL)%N then [] :: split_lines s'
      else match split_lines s' with
           | l :: ls => (c :: l) :: ls
           | [] => [[c]]
           end
  end.

Fixpoint join_lines (ls : list text) : text :=
  match ls with
  | [] => []
  | l :: ls' =>
      match ls' with
      | [] => l
      | _ :: _ => l ++ NL :: join_lines ls'
      end
  end.

Definition one_line (l : text) : Prop := ~ In NL l.

(** What the comment stage is said to leave of one line: the characters
    before its first percent sign. *)
Fixpoint cut_comment (l : text) : text :=
  match l with
  | c :: l' => if (c =? PERCENT)%N then [] else c :: cut_comment l'
  | [] => []
  end.

Definition not_percent (c : char) : Prop := c <> PERCENT.

Definition head_space (s : text) : bool :=
  match s with
  | c :: _ => isspace c
  | [] => false
  end.

(** No line break is followed by a whitespace character. *)
Fixpoint after_nl_ok (s : text) : bool :=
  match s with
  | c :: s' => negb ((c =? NL)%N && head_space s') && after_nl_ok s'
  | [] => true
  end.

(** No whitespace character is followed by a line break or by the end. *)
Fixpoint trail_ok (s : text) : bool :=
  match s with
  | c :: s' => negb (isspace c && at_eol s') && trail_ok s'
  | [] => true
  end.

(** No line is blank, and no line begins or ends with whitespace. *)
Definition tidy_lines (s : text) : bool :=
  negb (head_space s) && after_nl_ok s && trail_ok s.

(** ** Block math environments *)

(** The three kinds that lines 68-70 replace, in that order. *)
Inductive math_env : Type := Equation | Align | Split.

Definition env_name (k : math_env) : string :=
  match k with
  | Equation => "equation"
  | Align => "align"
  | Split => "split"
  end.

Definition env_begin (k : math_env) : text :=
  lit "\begin{" ++ lit (env_name k) ++ lit "}".

Definition env_end (k : math_env) : text :=
  lit "\end{" ++ lit (env_name k) ++ lit "}".

(** The text of one environment. *)
Definition block (k : math_env) (body : text) : text :=
  env_begin k ++ body ++ env_end k.

(** The kinds replaced by an earlier substitution of the stage. *)
Definition replaced_before (k : math_env) : list math_env :=
  match k with
  | Equation => []
  | Align => [Equation]
  | Split => [Equation; Align]
  end.

(** No environment of kind [j] begins in [t]. *)
Definition begins_none (j : math_env) (t : text) : Prop :=
  occurs (env_begin j) t = false.

(** ** Headings *)

(** The three sectioning commands of lines 49-56. *)
Inductive level : Type := Level1 | Level2 | Level3.

Definition heading_command (l : level) : string :=
  match l with
  | Level1 => "\section"
  | Level2 => "\subsection"
  | Level3 => "\subsubsection"
  end.

Definition depth (l : level) : nat :=
  match l with
  | Level1 => 1
  | Level2 => 2
  | Level3 => 3
  end.

(** The replacement text of lines 49-56 in front of the title. *)
Definition heading_marker (l : level) : string :=
  match l with
  | Level1 => "# "
  | Level2 => "## "
  | Level3 => "### "
  end.

(** The heading line of depth [depth l]: that many hash signs, a space and
    the title. *)
Definition heading_line (l : level) (title : text) : text :=
  repeat HASH (depth l) ++ SPACE :: title.

Definition braced (t : text) : text := LBRACE :: t ++ [RBRACE].

(** A sectioning command alone, and one immediately followed by a label. *)
Definition plain_heading (l : level) (title : text) : text :=
  lit (heading_command l) ++ braced title.

Definition labeled_heading (l : level) (title label : text) : text :=
  lit (heading_command l) ++ braced title ++ lit "\label" ++ braced label.

(** Titles and labels without backslash, closing brace, percent sign or
    line break. *)
Definition plain (t : text) : Prop :=
  ~ In BACKSLASH t /\ ~ In RBRACE t /\ ~ In PERCENT t /\ ~ In NL t.

(** The stages up to the heading stage (lines 36-56). *)
Definition up_to_headings (content : text) : text :=
  heading_stage (custom_stage (comment_stage (structure_stage content))).

(** ** Further vocabulary *)

(** The length of the run of characters of class [k] at the start of [s]. *)
Fixpoint class_run (k : cls) (s : text) : nat :=
  match s with
  | c :: s' => if in_cls k c then S (class_run k s') else 0
  | [] => 0
  end.

(** The characters a replacement of the script can add to a text that has
    none of them: those of the heading markers and of the placeholder. *)
Definition template_chars : text := lit "# <EQN HERE>".

(** The stages before the whitespace stage (lines 36-99). *)
Definition before_whitespace (content : text) : text :=
  notation_stage (layout_stage (float_stage (formatting_stage (math_stage
    (equation_stage (citation_stage (label_stage
      (up_to_headings content)))))))).

(** The pattern of line 104 matches at the start of [s]. *)
Definition trailing_matches (s : text) : Prop :=
  match_here trailing_pattern None s <> None.

(** A text without backslash, percent sign and dollar sign. *)
Definition markup_free (t : text) : Prop :=
  ~ In BACKSLASH t /\ ~ In PERCENT t /\ ~ In DOLLAR t.

(** ** Constructs in a text *)

Definition LBRACKET : char := 91%N.
Definition RBRACKET : char := 93%N.

Definition bracketed (t : text) : text := LBRACKET :: t ++ [RBRACKET].

(** The text of an environment named [e]. *)
Definition environment_text (e : string) (body : text) : text :=
  lit ("\begin{" ++ e ++ "}") ++ body ++ lit ("\end{" ++ e ++ "}").

(** The commands of lines 77-79, 98 and 99, replaced by their argument. *)
Definition styling_commands : list string :=
  ["\textit"%string; "\textbf"%string; "\text"%string; "\mathbf"%string;
   "\vec"%string].

(** The commands of lines 44, 59, 62, 64, 65 and 91, deleted with their
    argument. *)
Definition removed_commands : list string :=
  ["\myCover"%string; "\label"%string; "\cite"%string; "\Cref"%string;
   "\cref"%string; "\caption"%string].

(** The literal words of lines 37, 38, 45, 46, 89 and 92-94. *)
Definition bare_commands : list string :=
  ["\begin{document}"%string; "\end{document}"%string;
   "\myChapterCover{}"%string; "\newpage"%string; "\centering"%string;
   "\toprule"%string; "\midrule"%string; "\bottomrule"%string].

(** The commands of lines 36 and 90, deleted with their bracket option and
    their argument. *)
Definition option_commands : list string :=
  ["\documentclass"%string; "\includegraphics"%string].

(** The environments of lines 82, 85 and 86, deleted with their body. *)
Definition float_environments : list string :=
  ["figure"%string; "table"%string; "tabulary"%string].

(** A sectioning command, whitespace, and a label. *)
Definition spaced_labeled_heading (l : level) (title ws label : text) : text :=
  lit (heading_command l) ++ braced title ++ ws ++ lit "\label" ++ braced label.

(** The document frame of lines 36-38 around a preamble and a body. *)
Definition framed_document (opt cls preamble body : text) : text :=
  lit "\documentclass" ++ bracketed opt ++ braced cls ++ preamble
  ++ lit "\begin{document}" ++ body ++ lit "\end{document}".

(** ** Patterns that stay on one line *)

(** An atom that cannot take a line break: a literal other than the line
    break, a repetition of [.] or of letters, or an anchor. *)
Definition line_atom (a : atom) : bool :=
  match a with
  | Lit c => negb (c =? NL)%N
  | Rep Dot _ _ _ | Rep Letter _ _ _ => true
  | Rep _ _ _ _ => false
  | Bol | Eol => true
  end.

Definition line_local (p : pattern) : bool := forallb line_atom p.

(** The patterns of the script without a class that can take a line break
    (lines 36-38, 41, 44-46, 50, 53, 56, 59, 62-65, 89-94, 97, 107, 108 of
    [process_latex_file] and 130, 133, 134 of [clean_math_content]). *)
Definition line_patterns : list pattern :=
  [ cmd_opt_arg "\documentclass"; lits "\begin{document}";
    lits "\end{document}"; comment_pattern;
    cmd_arg "\myCover"; lits "\myChapterCover{}"; lits "\newpage";
    heading "\section"; heading "\subsection"; heading "\subsubsection";
    cmd_arg "\label";
    cmd_arg "\cite"; cmd_arg "~\cite"; cmd_arg "\Cref"; cmd_arg "\cref";
    lits "\centering"; cmd_opt_arg "\includegraphics"; cmd_arg "\caption";
    lits "\toprule"; lits "\midrule"; lits "\bottomrule";
    tensor_pattern;
    any_cmd_arg; any_cmd;
    lits "\left"; lits "\right" ].

(** * Facts about the matcher *)

Section MatcherFacts.

Lemma last_app_r (u v : text) d : v <> [] -> last (u ++ v) d = last v d.
Proof.
  intro Hv. induction u as [|c u IH]; [reflexivity|].
  simpl. destruct (u ++ v) eqn:E; [|exact IH].
  apply app_eq_nil in E. destruct E. congruence.
Qed.

(** The equations of [match_here]. *)
Lemma match_here_Lit c p prev x s :
  match_here (Lit c :: p) prev (x :: s)
  = if (x =? c)%N then advance false x (match_here p (Some x) s) else None.
Proof. reflexivity. Qed.

Lemma match_here_Rep k greedy lo grp p prev s :
  match_here (Rep k greedy lo grp :: p) prev s
  = rep k greedy grp (match_here p) lo prev s.
Proof. reflexivity. Qed.

Lemma match_here_Bol p prev s :
  match_here (Bol :: p) prev s = if at_bol prev then match_here p prev s else None.
Proof. reflexivity. Qed.

Lemma match_here_Eol p prev s :
  match_here (Eol :: p) prev s = if at_eol s then match_here p prev s else None.
Proof. reflexivity. Qed.

Lemma rep_nil k greedy grp cont lo prev :
  rep k greedy grp cont lo prev []
  = match lo with
    | O => open_group grp (cont prev [])
    | S _ => None
    end.
Proof.
  simpl. destruct greedy, lo; try reflexivity.
  destruct (open_group grp (cont prev [])); reflexivity.
Qed.

Lemma match_here_lit_prefix p : forall prev s,
  starts_with (lit_prefix p) s = false -> match_here p prev s = None.
Proof.
  induction p as [|a p IH]; intros prev s H; simpl in *; try discriminate.
  destruct a; simpl in H; try discriminate.
  destruct s as [|x s]; [reflexivity|].
  destruct (x =? c)%N; [|reflexivity].
  simpl in H. rewrite (IH _ _ H). reflexivity.
Qed.

(** The matcher consumes no more than the subject holds. *)
Lemma rep_length k greedy grp cont :
  (forall prev s n gs, cont prev s = Some (n, gs) -> n <= length s) ->
  forall s lo prev n gs,
    rep k greedy grp cont lo prev s = Some (n, gs) -> n <= length s.
Proof.
  intros Hc. induction s as [|c s IH]; intros lo prev n gs; simpl.
  - destruct greedy, lo; simpl; try discriminate;
      destruct (cont prev []) as [[m hs]|] eqn:E; simpl; try discriminate;
      intro H; inversion H; subst; apply (Hc _ _ _ _ E).
  - assert (Hmore : forall r, (if in_cls k c
             then advance grp c (rep k greedy grp cont (pred lo) (Some c) s)
             else None) = Some r -> fst r <= S (length s)).
    { intros r. destruct (in_cls k c); [|discriminate].
      destruct (rep k greedy grp cont (pred lo) (Some c) s) as [[m hs]|] eqn:E;
        simpl; [|discriminate].
      intro H; inversion H; subst; simpl. apply IH in E. lia. }
    assert (Hstop : forall r, match lo with
                              | O => open_group grp (cont prev (c :: s))
                              | S _ => None
                              end = Some r -> fst r <= S (length s)).
    { intros r. destruct lo; [|discriminate].
      destruct (cont prev (c :: s)) as [[m hs]|] eqn:E; simpl; [|discriminate].
      intro H; inversion H; subst; simpl. apply (Hc _ _ _ _ E). }
    destruct greedy.
    + destruct (if in_cls k c then _ else None) as [r|] eqn:E.
      * intro H; inversion H; subst. apply (Hmore _ eq_refl).
      * intro H. apply (Hstop _ H).
    + destruct (match lo with O => _ | S _ => None end) as [r|] eqn:E.
      * intro H; inversion H; subst. apply (Hstop _ eq_refl).
      * intro H. apply (Hmore _ H).
Qed.

Lemma match_here_length p : forall prev s n gs,
  match_here p prev s = Some (n, gs) -> n <= length s.
Proof.
  induction p as [|a p IH]; intros prev s n gs; simpl.
  - intro H; inversion H; lia.
  - destruct a.
    + destruct s as [|x s]; [discriminate|].
      destruct (x =? c)%N; [|discriminate].
      destruct (match_here p (Some x) s) as [[m hs]|] eqn:E; simpl; [|discriminate].
      intro H; inversion H; subst. apply IH in E. simpl. lia.
    + apply rep_length. exact IH.
    + destruct (at_bol prev); [apply IH|discriminate].
    + destruct (at_eol s); [apply IH|discriminate].
Qed.

(** A match of a pattern that [consumes] is never empty. *)
Lemma rep_consumes k greedy grp cont :
  forall s lo prev n gs,
    (lo <> 0 \/
     forall prev' s' n' gs', cont prev' s' = Some (n', gs') -> 0 < n') ->
    rep k greedy grp cont lo prev s = Some (n, gs) -> 0 < n.
Proof.
  induction s as [|c s IH]; intros lo prev n gs Hc.
  - rewrite rep_nil. destruct lo as [|lo]; [|discriminate].
    destruct Hc as [Hc|Hc]; [congruence|].
    destruct (cont prev []) as [[m hs]|] eqn:E; simpl; [|discriminate].
    intro H. inversion H; subst. apply (Hc _ _ _ _ E).
  - assert (Hmore : forall r,
      (if in_cls k c
       then advance grp c (rep k greedy grp cont (pred lo) (Some c) s)
       else None) = Some r -> 0 < fst r).
    { intros r. destruct (in_cls k c); [|discriminate].
      destruct (rep k greedy grp cont (pred lo) (Some c) s) as [[m hs]|];
        simpl; [|discriminate].
      intro H. inversion H; subst. simpl. lia. }
    assert (Hstop : forall r,
      match lo with
      | O => open_group grp (cont prev (c :: s))
      | S _ => None
      end = Some r -> 0 < fst r).
    { intros r. destruct lo as [|lo]; [|discriminate].
      destruct Hc as [Hc|Hc]; [congruence|].
      destruct (cont prev (c :: s)) as [[m hs]|] eqn:E; simpl; [|discriminate].
      intro H. inversion H; subst. simpl. apply (Hc _ _ _ _ E). }
    simpl rep. destruct greedy.
    + destruct (if in_cls k c then _ else None) as [r|] eqn:E.
      * intro H. inversion H; subst. apply (Hmore _ eq_refl).
      * intro H. apply (Hstop _ H).
    + destruct (match lo with O => _ | S _ => None end) as [r|] eqn:E.
      * intro H. inversion H; subst. apply (Hstop _ eq_refl).
      * intro H. apply (Hmore _ H).
Qed.

Lemma match_here_consumes p : forall prev s n gs,
  consumes p = true -> match_here p prev s = Some (n, gs) -> 0 < n.
Proof.
  induction p as [|a p IH]; intros prev s n gs Hp; [discriminate|].
  destruct a as [c|k g lo grp| |].
  - destruct s as [|x s]; [discriminate|].
    rewrite match_here_Lit. destruct (x =? c)%N; [|discriminate].
    destruct (match_here p (Some x) s) as [[m hs]|]; simpl; [|discriminate].
    intro H. inversion H. lia.
  - rewrite match_here_Rep. apply rep_consumes.
    destruct lo as [|lo]; [right|left; discriminate].
    intros prev' s' n' gs'. apply IH. exact Hp.
  - rewrite match_here_Bol. destruct (at_bol prev); [|discriminate].
    apply IH. exact Hp.
  - rewrite match_here_Eol. destruct (at_eol s); [|discriminate].
    apply IH. exact Hp.
Qed.

Lemma script_patterns_consume : forallb consumes script_patterns = true.
Proof. reflexivity. Qed.

Lemma rep_ext k greedy grp cont cont' :
  (forall prev prev' s, cont prev s = cont' prev' s) ->
  forall s lo prev prev',
    rep k greedy grp cont lo prev s = rep k greedy grp cont' lo prev' s.
Proof.
  intro Hc. induction s as [|c s IH]; intros lo prev prev'; simpl.
  - rewrite (Hc prev prev'). reflexivity.
  - rewrite (Hc prev prev'), (IH (pred lo) (Some c) (Some c)). reflexivity.
Qed.

Lemma match_here_prev p :
  no_bol p = true ->
  forall prev prev' s, match_here p prev s = match_here p prev' s.
Proof.
  induction p as [|a p IH]; intros Hp prev prev' s; simpl; [reflexivity|].
  simpl in Hp. apply andb_true_iff in Hp. destruct Hp as [Ha Hp].
  destruct a; try discriminate.
  - reflexivity.
  - apply rep_ext. intros. apply IH. exact Hp.
  - rewrite (IH Hp prev prev'). reflexivity.
Qed.

Lemma sub_from_prev p repl :
  no_bol p = true ->
  forall s prev prev' skip,
    sub_from p repl prev skip s = sub_from p repl prev' skip s.
Proof.
  intros Hp. induction s as [|c s IH]; intros prev prev' skip; simpl.
  - rewrite (match_here_prev p Hp prev prev'). reflexivity.
  - rewrite (match_here_prev p Hp prev prev'). reflexivity.
Qed.

Lemma sub_from_skip p repl : forall m s prev,
  sub_from p repl prev (length m) (m ++ s)
  = sub_from p repl (prev_after prev m) 0 s.
Proof.
  induction m as [|c m IH]; intros s prev; simpl.
  - destruct s; reflexivity.
  - apply IH.
Qed.

Lemma sub_from_match p repl prev m s gs :
  m <> [] ->
  match_here p prev (m ++ s) = Some (length m, gs) ->
  sub_from p repl prev 0 (m ++ s)
  = repl gs ++ sub_from p repl (prev_after prev m) 0 s.
Proof.
  intros Hm H. destruct m as [|c m]; [congruence|].
  simpl in *. rewrite H. f_equal. apply (sub_from_skip p repl m s (Some c)).
Qed.

Lemma sub_from_cons p repl prev c s :
  sub_from p repl prev 0 (c :: s)
  = match match_here p prev (c :: s) with
    | Some (n, gs) =>
        repl gs ++
        match n with
        | O => c :: sub_from p repl (Some c) O s
        | S k => sub_from p repl (Some c) k s
        end
    | None => c :: sub_from p repl (Some c) O s
    end.
Proof. reflexivity. Qed.

Lemma sub_from_cons_skip p repl prev k c s :
  sub_from p repl prev (S k) (c :: s) = sub_from p repl (Some c) k s.
Proof. reflexivity. Qed.

Lemma sub_from_cons_copy p repl prev c s :
  match_here p prev (c :: s) = None ->
  sub_from p repl prev 0 (c :: s) = c :: sub_from p repl (Some c) 0 s.
Proof. intro H. simpl. rewrite H. reflexivity. Qed.

Lemma sub_from_copy p repl : forall u v prev,
  (forall u1 u2, u = u1 ++ u2 -> u2 <> [] ->
     match_here p (prev_after prev u1) (u2 ++ v) = None) ->
  sub_from p repl prev 0 (u ++ v)
  = u ++ sub_from p repl (prev_after prev u) 0 v.
Proof.
  induction u as [|c u IH]; intros v prev H; [reflexivity|].
  change ((c :: u) ++ v) with (c :: (u ++ v)).
  rewrite sub_from_cons_copy.
  - simpl. f_equal. apply IH. intros u1 u2 E Hu2.
    apply (H (c :: u1) u2); [simpl; congruence|exact Hu2].
  - apply (H [] (c :: u)); [reflexivity|discriminate].
Qed.

Lemma sub_from_nil p repl prev :
  match_here p prev [] = None -> sub_from p repl prev 0 [] = [].
Proof. intro H. simpl. rewrite H. reflexivity. Qed.

(** [re_sub] forms of the same facts, for patterns without [Bol]. *)
Lemma re_sub_match p repl m s gs :
  no_bol p = true -> m <> [] ->
  match_here p None (m ++ s) = Some (length m, gs) ->
  re_sub p repl (m ++ s) = repl gs ++ re_sub p repl s.
Proof.
  intros Hp Hm H. unfold re_sub. rewrite (sub_from_match p repl None m s gs Hm H).
  f_equal. apply sub_from_prev. exact Hp.
Qed.

Lemma re_sub_copy p repl u v :
  no_bol p = true ->
  (forall u1 u2, u = u1 ++ u2 -> u2 <> [] -> match_here p None (u2 ++ v) = None) ->
  re_sub p repl (u ++ v) = u ++ re_sub p repl v.
Proof.
  intros Hp H. unfold re_sub. rewrite sub_from_copy.
  - f_equal. apply sub_from_prev. exact Hp.
  - intros u1 u2 E Hu2. rewrite (match_here_prev p Hp _ None). eauto.
Qed.

(** A text in which the literal prefix of the pattern does not occur is
    left unchanged. *)
Lemma starts_with_nil_r w : w <> [] -> starts_with w [] = false.
Proof. destruct w; [congruence|reflexivity]. Qed.

Lemma sub_from_no_occurrence p repl :
  lit_prefix p <> [] ->
  forall s prev, occurs (lit_prefix p) s = false -> sub_from p repl prev 0 s = s.
Proof.
  intros Hp. induction s as [|c s IH]; intros prev H.
  - apply sub_from_nil. apply match_here_lit_prefix.
    apply starts_with_nil_r. exact Hp.
  - simpl in H. apply orb_false_iff in H. destruct H as [H1 H2].
    rewrite sub_from_cons_copy.
    + f_equal. apply IH. exact H2.
    + apply match_here_lit_prefix. exact H1.
Qed.

Lemma re_sub_no_occurrence p repl s :
  lit_prefix p <> [] -> occurs (lit_prefix p) s = false -> re_sub p repl s = s.
Proof. intros. apply sub_from_no_occurrence; assumption. Qed.

End MatcherFacts.

(** * Command tokens *)

Section Commands.

Lemma letter_run_0 s : letter_run s = 0 <-> head_letter s = false.
Proof.
  destruct s as [|c s]; simpl; [tauto|].
  destruct (isletter c); split; intro; congruence.
Qed.

(** The greedy letter repetition at the end of a pattern takes the whole run. *)
Lemma rep_letters : forall s lo prev,
  rep Letter true false (match_here []) lo prev s
  = if lo <=? letter_run s then Some (letter_run s, []) else None.
Proof.
  induction s as [|c s IH]; intros lo prev; simpl.
  - destruct lo; reflexivity.
  - rewrite IH. destruct (isletter c); simpl.
    + destruct lo as [|lo]; simpl; [reflexivity|].
      destruct (lo <=? letter_run s); reflexivity.
    + destruct lo; reflexivity.
Qed.

Lemma match_any_cmd prev s :
  match_here any_cmd prev s
  = match s with
    | c :: s' =>
        if (c =? BACKSLASH)%N && head_letter s'
        then Some (S (letter_run s'), [])
        else None
    | [] => None
    end.
Proof.
  destruct s as [|c s]; [reflexivity|].
  unfold any_cmd, letters1. simpl match_here. rewrite rep_letters.
  destruct (c =? BACKSLASH)%N; [|reflexivity]. simpl.
  destruct s as [|x s]; [reflexivity|]. simpl.
  destruct (isletter x); reflexivity.
Qed.

(** Deleting the bare commands leaves no command token behind: what follows
    a deleted token is never a letter, because the letter run is maximal. *)
Lemma sub_any_cmd_inv repl : forall s skip prev,
  (forall gs, repl gs = []) ->
  skip = 0 \/ skip = letter_run s ->
  no_command (sub_from any_cmd repl prev skip s) = true /\
  (head_letter (sub_from any_cmd repl prev skip s) = true ->
   skip = 0 /\ head_letter s = true).
Proof.
  induction s as [|c s IH]; intros skip prev Hr Hs.
  - simpl. destruct skip; simpl; split; auto; discriminate.
  - destruct skip as [|k].
    + rewrite sub_from_cons, match_any_cmd.
      destruct ((c =? BACKSLASH)%N && head_letter s) eqn:E.
      * rewrite Hr. simpl app.
        destruct (IH (letter_run s) (Some c) Hr (or_intror eq_refl)) as [H1 H2].
        split; [exact H1|]. intro H. destruct (H2 H) as [H3 H4].
        apply letter_run_0 in H3. congruence.
      * destruct (IH 0 (Some c) Hr (or_introl eq_refl)) as [H1 H2].
        split.
        -- simpl. rewrite H1, andb_true_r.
           destruct (head_letter (sub_from any_cmd repl (Some c) 0 s)) eqn:F.
           ++ destruct (H2 eq_refl) as [_ H4]. rewrite H4 in E. rewrite E.
              reflexivity.
           ++ rewrite andb_false_r. reflexivity.
        -- simpl. auto.
    + destruct Hs as [Hs|Hs]; [discriminate|].
      simpl in Hs. destruct (isletter c); [|discriminate].
      injection Hs as Hs. rewrite sub_from_cons_skip.
      destruct (IH k (Some c) Hr (or_intror Hs)) as [H1 H2].
      split; [exact H1|]. intro H. destruct (H2 H) as [H3 H4].
      rewrite H3 in Hs. symmetry in Hs. apply letter_run_0 in Hs. congruence.
Qed.

Lemma no_command_any_cmd s : no_command (re_sub any_cmd (const "") s) = true.
Proof.
  apply sub_any_cmd_inv; [reflexivity|left; reflexivity].
Qed.

(** Prefixes and suffixes of a command-free text are command-free. *)
Lemma no_command_app_r u v : no_command (u ++ v) = true -> no_command v = true.
Proof.
  induction u as [|c u IH]; simpl; [auto|].
  intro H. apply andb_true_iff in H. tauto.
Qed.

Lemma no_command_app_l u v : no_command (u ++ v) = true -> no_command u = true.
Proof.
  induction u as [|c u IH]; simpl; [auto|].
  intro H. apply andb_true_iff in H. destruct H as [H1 H2].
  rewrite (IH H2), andb_true_r.
  destruct (c =? BACKSLASH)%N; [|reflexivity]. simpl in *.
  destruct u as [|x u]; [reflexivity|exact H1].
Qed.

Lemma lstrip_suffix s : exists w, s = w ++ lstrip s.
Proof.
  induction s as [|c s [w IH]]; simpl.
  - exists []. reflexivity.
  - destruct (isspace c).
    + exists (c :: w). simpl. congruence.
    + exists []. reflexivity.
Qed.

Lemma rstrip_prefix s : exists w, s = rstrip s ++ w.
Proof.
  unfold rstrip. destruct (lstrip_suffix (rev s)) as [w E].
  exists (rev w). rewrite <- rev_app_distr, <- E, rev_involutive. reflexivity.
Qed.

Lemma no_command_strip s : no_command s = true -> no_command (strip s) = true.
Proof.
  intro H. unfold strip.
  destruct (lstrip_suffix s) as [w1 E1].
  destruct (rstrip_prefix (lstrip s)) as [w2 E2].
  rewrite E1 in H. apply no_command_app_r in H.
  rewrite E2 in H. apply no_command_app_l in H. exact H.
Qed.

Lemma no_command_spec s pre c post :
  no_command s = true -> s = pre ++ BACKSLASH :: c :: post -> isletter c = false.
Proof.
  intros H E. subst s. apply no_command_app_r in H. simpl in H.
  apply andb_true_iff in H. destruct H as [H _].
  destruct (isletter c); [discriminate|reflexivity].
Qed.

End Commands.

(** * The comment stage, line by line *)

Section Comments.

Lemma split_lines_not_nil s : split_lines s <> [].
Proof.
  destruct s as [|c s]; simpl; [discriminate|].
  destruct (c =? NL)%N; [discriminate|].
  destruct (split_lines s); discriminate.
Qed.

Lemma join_split s : join_lines (split_lines s) = s.
Proof.
  induction s as [|c s IH]; [reflexivity|].
  simpl. destruct (c =? NL)%N eqn:E.
  - apply N.eqb_eq in E. subst c.
    change (join_lines ([] :: split_lines s))
      with (match split_lines s with
            | [] => []
            | _ :: _ => [] ++ NL :: join_lines (split_lines s)
            end).
    pose proof (split_lines_not_nil s) as Hn.
    destruct (split_lines s) eqn:F; [congruence|].
    simpl app. f_equal. exact IH.
  - pose proof (split_lines_not_nil s) as Hn.
    destruct (split_lines s) as [|l ls] eqn:F; [congruence|].
    rewrite <- IH. simpl. destruct ls; reflexivity.
Qed.

Lemma split_lines_one_line s : Forall one_line (split_lines s).
Proof.
  induction s as [|c s IH]; simpl.
  - constructor; [intros []|constructor].
  - destruct (c =? NL)%N eqn:E.
    + constructor; [intros []|exact IH].
    + pose proof (split_lines_not_nil s) as Hn.
      destruct (split_lines s) as [|l ls]; [congruence|].
      inversion IH; subst. constructor; [|assumption].
      intros [H|H]; [|contradiction].
      subst c. discriminate.
Qed.

(** The greedy dot repetition followed by the end-of-line anchor takes the
    rest of the line. *)
Lemma rep_dot_eol : forall l rest prev,
  one_line l -> at_eol rest = true ->
  rep Dot true false (match_here [Eol]) 0 prev (l ++ rest)
  = Some (length l, []).
Proof.
  induction l as [|c l IH]; intros rest prev Hl Hr.
  - simpl app. destruct rest as [|x rest]; simpl.
    + reflexivity.
    + simpl in Hr. apply N.eqb_eq in Hr. subst x. reflexivity.
  - simpl. assert (Hc : (c =? NL)%N = false).
    { apply N.eqb_neq. intro E. apply Hl. left. auto. }
    rewrite Hc. simpl. rewrite IH; [reflexivity| |exact Hr].
    intro H. apply Hl. right. exact H.
Qed.

Lemma match_comment prev c l rest :
  one_line l -> at_eol rest = true ->
  match_here comment_pattern prev (c :: l ++ rest)
  = if (c =? PERCENT)%N then Some (S (length l), []) else None.
Proof.
  intros Hl Hr. unfold comment_pattern. simpl match_here.
  destruct (c =? PERCENT)%N; [|reflexivity].
  rewrite rep_dot_eol; [reflexivity|exact Hl|exact Hr].
Qed.

(** One line, followed by the rest of the text or by nothing. *)
Lemma comment_line repl : forall l rest prev,
  (forall gs, repl gs = []) ->
  one_line l -> at_eol rest = true ->
  sub_from comment_pattern repl prev 0 (l ++ rest)
  = cut_comment l ++ sub_from comment_pattern repl (prev_after prev l) 0 rest.
Proof.
  induction l as [|c l IH]; intros rest prev Hr Hl He; [reflexivity|].
  assert (Hl' : one_line l) by (intro H; apply Hl; right; exact H).
  change ((c :: l) ++ rest) with (c :: l ++ rest).
  rewrite sub_from_cons, (match_comment prev c l rest Hl' He).
  simpl cut_comment. destruct (c =? PERCENT)%N.
  - rewrite Hr. simpl app. rewrite sub_from_skip. reflexivity.
  - simpl. f_equal. apply IH; assumption.
Qed.

Lemma comment_lines repl : forall ls prev,
  (forall gs, repl gs = []) ->
  Forall one_line ls -> ls <> [] ->
  sub_from comment_pattern repl prev 0 (join_lines ls)
  = join_lines (map cut_comment ls).
Proof.
  induction ls as [|l ls IH]; intros prev Hr Hls Hn; [congruence|].
  inversion Hls as [|? ? Hl Hls']; subst.
  destruct ls as [|l' ls].
  - simpl join_lines. rewrite <- (app_nil_r l) at 1.
    rewrite comment_line; [|exact Hr|exact Hl|reflexivity].
    rewrite sub_from_nil; [apply app_nil_r|reflexivity].
  - change (join_lines (l :: l' :: ls))
      with (l ++ NL :: join_lines (l' :: ls)).
    rewrite comment_line; [|exact Hr|exact Hl|reflexivity].
    rewrite sub_from_cons_copy.
    + rewrite IH; [reflexivity|exact Hr|exact Hls'|discriminate].
    + reflexivity.
Qed.

Lemma comment_stage_by_lines content :
  comment_stage content = join_lines (map cut_comment (split_lines content)).
Proof.
  unfold comment_stage, re_sub.
  rewrite <- (join_split content) at 1.
  apply comment_lines.
  - reflexivity.
  - apply split_lines_one_line.
  - apply split_lines_not_nil.
Qed.

End Comments.

(** * Repetitions in front of a continuation *)

Section Repetitions.

Variables (k : cls) (grp : bool).
Variable cont : option char -> text -> option result.

Lemma advance_with_group c n u gs :
  advance grp c (Some (n, with_group grp u gs)) = Some (S n, with_group grp (c :: u) gs).
Proof. unfold with_group. destruct grp; reflexivity. Qed.

(** A lazy repetition stops at the first position where the continuation
    succeeds. *)
Lemma rep_lazy_first : forall u v prev n gs,
  Forall (fun c => in_cls k c = true) u ->
  (forall u1 u2 prev', u = u1 ++ u2 -> u2 <> [] -> cont prev' (u2 ++ v) = None) ->
  cont (prev_after prev u) v = Some (n, gs) ->
  rep k false grp cont 0 prev (u ++ v) = Some (length u + n, with_group grp u gs).
Proof.
  induction u as [|c u IH]; intros v prev n gs Hu Hf Hc.
  - simpl in *. destruct v; simpl; rewrite Hc; reflexivity.
  - inversion Hu as [|? ? Hk Hu']; subst.
    change ((c :: u) ++ v) with (c :: (u ++ v)).
    assert (H0 : cont prev (c :: u ++ v) = None)
      by (apply (Hf [] (c :: u) prev eq_refl); discriminate).
    simpl rep. rewrite H0. simpl. rewrite Hk.
    rewrite (IH v (Some c) n gs Hu').
    + apply advance_with_group.
    + intros u1 u2 prev' E Hn. apply (Hf (c :: u1) u2 prev'); [|exact Hn].
      simpl. congruence.
    + exact Hc.
Qed.

(** A greedy repetition that can take all of [u], cannot take the next
    character, and is followed by a successful continuation, takes [u]. *)
Lemma rep_greedy_all : forall u v lo prev n gs,
  Forall (fun c => in_cls k c = true) u ->
  match v with [] => true | x :: _ => negb (in_cls k x) end = true ->
  lo <= length u ->
  cont (prev_after prev u) v = Some (n, gs) ->
  rep k true grp cont lo prev (u ++ v) = Some (length u + n, with_group grp u gs).
Proof.
  induction u as [|c u IH]; intros v lo prev n gs Hu Hv Hlo Hc.
  - simpl in *. assert (lo = 0) by lia. subst lo.
    destruct v as [|x v]; simpl.
    + rewrite Hc. reflexivity.
    + apply negb_true_iff in Hv. rewrite Hv, Hc. reflexivity.
  - inversion Hu as [|? ? Hk Hu']; subst.
    change ((c :: u) ++ v) with (c :: (u ++ v)).
    simpl rep. rewrite Hk.
    rewrite (IH v (pred lo) (Some c) n gs Hu' Hv); [| simpl in Hlo; lia | exact Hc].
    rewrite advance_with_group. reflexivity.
Qed.

(** A repetition over [u ++ v] fails when the continuation fails at every
    position inside [u] and the repetition fails on [v]. *)
Lemma rep_app_fail greedy : forall u v,
  (forall u1 u2 prev, u = u1 ++ u2 -> u2 <> [] -> cont prev (u2 ++ v) = None) ->
  (forall lo prev, rep k greedy grp cont lo prev v = None) ->
  forall lo prev, rep k greedy grp cont lo prev (u ++ v) = None.
Proof.
  induction u as [|c u IH]; intros v Hf Hv lo prev; [apply Hv|].
  change ((c :: u) ++ v) with (c :: (u ++ v)).
  assert (H0 : cont prev (c :: u ++ v) = None)
    by (apply (Hf [] (c :: u) prev eq_refl); discriminate).
  simpl rep. rewrite H0. rewrite IH.
  - simpl. destruct greedy, (in_cls k c), lo; reflexivity.
  - intros u1 u2 prev' E Hn. apply (Hf (c :: u1) u2 prev'); [|exact Hn].
    simpl. congruence.
  - exact Hv.
Qed.

End Repetitions.

(** A pattern that starts with a literal fails on a text that starts with
    another character. *)
Lemma match_here_first c p prev x s :
  x <> c -> match_here (Lit c :: p) prev (x :: s) = None.
Proof.
  intro H. simpl. apply N.eqb_neq in H. rewrite H. reflexivity.
Qed.

Lemma match_here_first_app c p prev u2 v :
  ~ In c u2 -> u2 <> [] -> match_here (Lit c :: p) prev (u2 ++ v) = None.
Proof.
  intros H Hn. destruct u2 as [|x u2]; [congruence|].
  apply match_here_first. intro E. apply H. left. exact E.
Qed.

Lemma not_in_app_r (c : char) u1 u2 : ~ In c (u1 ++ u2) -> ~ In c u2.
Proof. intros H Hin. apply H. apply in_or_app. right. exact Hin. Qed.

(** Texts free of the first literal of the pattern are copied. *)
Lemma re_sub_copy_free c p repl u v :
  no_bol (Lit c :: p) = true -> ~ In c u ->
  re_sub (Lit c :: p) repl (u ++ v) = u ++ re_sub (Lit c :: p) repl v.
Proof.
  intros Hp Hu. apply re_sub_copy; [exact Hp|].
  intros u1 u2 E Hn. apply match_here_first_app; [|exact Hn].
  subst u. apply (not_in_app_r c u1 u2 Hu).
Qed.

Lemma re_sub_free c p repl u :
  ~ In c u -> re_sub (Lit c :: p) repl u = u.
Proof.
  intros Hu. unfold re_sub. rewrite <- (app_nil_r u) at 1.
  rewrite sub_from_copy.
  - rewrite sub_from_nil; [rewrite !app_nil_r; reflexivity|reflexivity].
  - intros u1 u2 E Hn. apply match_here_first_app; [|exact Hn].
    subst u. apply (not_in_app_r c u1 u2 Hu).
Qed.

Lemma not_in_class_forall (d : char) u :
  ~ In d u -> Forall (fun c => in_cls (NotCh d) c = true) u.
Proof.
  intro H. apply Forall_forall. intros c Hc. simpl.
  apply negb_true_iff, N.eqb_neq. intro E. subst c. exact (H Hc).
Qed.

(** * The inline math stage *)

Lemma match_math prev m post :
  ~ In DOLLAR m ->
  match_here math_pattern prev (DOLLAR :: m ++ DOLLAR :: post)
  = Some (S (length m + 1), [m]).
Proof.
  intro Hm. unfold math_pattern.
  rewrite match_here_Lit, N.eqb_refl, match_here_Rep.
  rewrite (rep_lazy_first (NotCh DOLLAR) true (match_here [Lit DOLLAR])
             m (DOLLAR :: post) (Some DOLLAR) 1 []).
  - reflexivity.
  - apply not_in_class_forall. exact Hm.
  - intros u1 u2 prev' E Hn. apply match_here_first_app; [|exact Hn].
    subst m. apply (not_in_app_r DOLLAR u1 u2 Hm).
  - reflexivity.
Qed.

Lemma math_stage_span pre m post :
  ~ In DOLLAR pre -> ~ In DOLLAR m ->
  math_stage (pre ++ DOLLAR :: m ++ DOLLAR :: post)
  = pre ++ DOLLAR :: clean_math_content m ++ DOLLAR :: math_stage post.
Proof.
  intros Hpre Hm. unfold math_stage, math_pattern.
  rewrite re_sub_copy_free; [|reflexivity|exact Hpre].
  f_equal.
  replace (DOLLAR :: m ++ DOLLAR :: post)
    with ((DOLLAR :: m ++ [DOLLAR]) ++ post)
    by (simpl; rewrite <- app_assoc; reflexivity).
  rewrite (re_sub_match _ math_repl (DOLLAR :: m ++ [DOLLAR]) post [m]).
  - unfold math_repl, group1. simpl. rewrite <- app_assoc. reflexivity.
  - reflexivity.
  - discriminate.
  - simpl app. rewrite <- app_assoc. simpl app.
    pose proof (match_math None m post Hm) as H.
    unfold math_pattern in H. rewrite H.
    simpl length. rewrite length_app. simpl. reflexivity.
Qed.

Lemma math_stage_free s : ~ In DOLLAR s -> math_stage s = s.
Proof. apply re_sub_free. Qed.

(** * Texts on which a substitution finds nothing *)

Section NoMatch.

Lemma letter_gate_fail a p prev s :
  letter_gate a = true -> head_letter s = false ->
  match_here (a :: p) prev s = None.
Proof.
  intros Ha Hs. destruct a as [d|k g lo grp| |]; simpl in Ha; try discriminate.
  - destruct s as [|x s]; [reflexivity|].
    rewrite match_here_Lit. destruct (x =? d)%N eqn:E; [|reflexivity].
    apply N.eqb_eq in E. subst x. simpl in Hs. congruence.
  - destruct k; try discriminate. destruct lo as [|lo]; [discriminate|].
    rewrite match_here_Rep.
    destruct s as [|x s]; simpl.
    + destruct g; reflexivity.
    + simpl in Hs. rewrite Hs. destruct g; reflexivity.
Qed.

Lemma requires_command_fail p : forall prev s,
  requires_command p = true -> no_command s = true ->
  match_here p prev s = None.
Proof.
  induction p as [|a p IH]; intros prev s Hp Hs; [discriminate|].
  destruct a as [c| | |]; try discriminate.
  destruct s as [|x s]; [reflexivity|].
  rewrite match_here_Lit. destruct (x =? c)%N eqn:E; [|reflexivity].
  apply N.eqb_eq in E. subst x.
  simpl in Hs. apply andb_true_iff in Hs. destruct Hs as [H1 H2].
  simpl in Hp. apply orb_true_iff in Hp. destruct Hp as [Hp|Hp].
  - apply andb_true_iff in Hp. destruct Hp as [Hc Hg].
    rewrite Hc in H1. simpl in H1. apply negb_true_iff in H1.
    destruct p as [|a p]; [discriminate|].
    rewrite (letter_gate_fail a p (Some c) s Hg H1). reflexivity.
  - rewrite (IH (Some c) s Hp H2). reflexivity.
Qed.

Lemma sub_from_no_command p repl :
  requires_command p = true ->
  forall s prev, no_command s = true -> sub_from p repl prev 0 s = s.
Proof.
  intros Hp. induction s as [|c s IH]; intros prev Hs.
  - apply sub_from_nil. apply requires_command_fail; [exact Hp|reflexivity].
  - rewrite sub_from_cons_copy.
    + f_equal. apply IH. simpl in Hs. apply andb_true_iff in Hs. tauto.
    + apply requires_command_fail; assumption.
Qed.

Lemma re_sub_no_command p repl s :
  requires_command p = true -> no_command s = true -> re_sub p repl s = s.
Proof. intros. apply sub_from_no_command; assumption. Qed.

End NoMatch.

(** * What a substitution can put into the text *)

Section Preservation.

Variable P : char -> Prop.

Lemma advance_groups grp c r n gs :
  P c ->
  (forall n' gs', r = Some (n', gs') -> Forall (Forall P) gs') ->
  advance grp c r = Some (n, gs) -> Forall (Forall P) gs.
Proof.
  intros Hc Hr. destruct r as [[m hs]|]; simpl; [|discriminate].
  specialize (Hr m hs eq_refl). intro H. inversion H; subst.
  destruct grp; [|exact Hr].
  destruct hs as [|g hs'].
  - repeat constructor. exact Hc.
  - inversion Hr; subst. constructor; [constructor|]; assumption.
Qed.

Lemma open_group_groups grp r n gs :
  (forall n' gs', r = Some (n', gs') -> Forall (Forall P) gs') ->
  open_group grp r = Some (n, gs) -> Forall (Forall P) gs.
Proof.
  intros Hr. destruct r as [[m hs]|]; simpl; [|discriminate].
  specialize (Hr m hs eq_refl). intro H. inversion H; subst.
  destruct grp; [constructor; [constructor|]|]; assumption.
Qed.

Lemma rep_groups k greedy grp cont :
  (forall prev s n gs, Forall P s -> cont prev s = Some (n, gs) ->
                       Forall (Forall P) gs) ->
  forall s lo prev n gs,
    Forall P s -> rep k greedy grp cont lo prev s = Some (n, gs) ->
    Forall (Forall P) gs.
Proof.
  intros Hc. induction s as [|c s IH]; intros lo prev n gs Hs.
  - rewrite rep_nil. destruct lo; [|discriminate].
    apply open_group_groups; intros n' gs'; apply Hc; exact Hs.
  - inversion Hs as [|? ? Pc Hs']; subst.
    assert (Hmore : forall r,
      (if in_cls k c
       then advance grp c (rep k greedy grp cont (pred lo) (Some c) s)
       else None) = Some r -> Forall (Forall P) (snd r)).
    { intros [m hs]. destruct (in_cls k c); [|discriminate].
      apply advance_groups; [exact Pc|].
      intros n' gs'. apply IH. exact Hs'. }
    assert (Hstop : forall r,
      match lo with
      | O => open_group grp (cont prev (c :: s))
      | S _ => None
      end = Some r -> Forall (Forall P) (snd r)).
    { intros [m hs]. destruct lo; [|discriminate].
      apply open_group_groups. intros n' gs'. apply Hc. exact Hs. }
    simpl rep. destruct greedy.
    + destruct (if in_cls k c then _ else None) as [r|] eqn:E.
      * intro H. inversion H; subst. apply (Hmore _ eq_refl).
      * intro H. apply (Hstop _ H).
    + destruct (match lo with O => _ | S _ => None end) as [r|] eqn:E.
      * intro H. inversion H; subst. apply (Hstop _ eq_refl).
      * intro H. apply (Hmore _ H).
Qed.

(** The groups of a match are made of characters of the subject. *)
Lemma match_here_groups p : forall prev s n gs,
  Forall P s -> match_here p prev s = Some (n, gs) -> Forall (Forall P) gs.
Proof.
  induction p as [|a p IH]; intros prev s n gs Hs.
  - simpl. intro H. inversion H. constructor.
  - destruct a as [c|k g lo grp| |].
    + destruct s as [|x s]; [discriminate|].
      rewrite match_here_Lit. destruct (x =? c)%N; [|discriminate].
      inversion Hs; subst.
      apply advance_groups; [assumption|]. intros n' gs'. apply IH. assumption.
    + rewrite match_here_Rep. apply rep_groups; [exact IH|exact Hs].
    + rewrite match_here_Bol. destruct (at_bol prev); [|discriminate].
      apply IH. exact Hs.
    + rewrite match_here_Eol. destruct (at_eol s); [|discriminate].
      apply IH. exact Hs.
Qed.

Lemma sub_from_keeps p repl :
  keeps P repl ->
  forall s prev skip, Forall P s -> Forall P (sub_from p repl prev skip s).
Proof.
  intros Hr. induction s as [|c s IH]; intros prev skip Hs.
  - simpl. destruct skip; [|constructor].
    destruct (match_here p prev []) as [[n gs]|] eqn:E; [|constructor].
    apply Hr. apply (match_here_groups p prev [] n gs Hs E).
  - inversion Hs as [|? ? Pc Hs']; subst.
    destruct skip as [|skip]; [|rewrite sub_from_cons_skip; apply IH; exact Hs'].
    rewrite sub_from_cons.
    destruct (match_here p prev (c :: s)) as [[n gs]|] eqn:E.
    + apply Forall_app. split.
      * apply Hr. apply (match_here_groups p prev (c :: s) n gs Hs E).
      * destruct n; [constructor; [exact Pc|]|]; apply IH; exact Hs'.
    + constructor; [exact Pc|apply IH; exact Hs'].
Qed.

Lemma re_sub_keeps p repl s :
  keeps P repl -> Forall P s -> Forall P (re_sub p repl s).
Proof. intros. apply sub_from_keeps; assumption. Qed.

Lemma keeps_group1 : keeps P group1.
Proof.
  intros gs H. unfold group1. destruct gs as [|g gs]; simpl.
  - constructor.
  - inversion H; assumption.
Qed.

Lemma keeps_const t : Forall P (lit t) -> keeps P (const t).
Proof. intros H gs _. exact H. Qed.

Lemma keeps_with_group1 t : Forall P (lit t) -> keeps P (with_group1 t).
Proof.
  intros H gs Hgs. unfold with_group1. apply Forall_app. split; [exact H|].
  apply keeps_group1. exact Hgs.
Qed.

Lemma strip_keeps s : Forall P s -> Forall P (strip s).
Proof.
  intro H. unfold strip.
  destruct (lstrip_suffix s) as [w1 E1].
  destruct (rstrip_prefix (lstrip s)) as [w2 E2].
  rewrite E1 in H. apply Forall_app in H. destruct H as [_ H].
  rewrite E2 in H. apply Forall_app in H. tauto.
Qed.

Lemma clean_math_content_keeps s : Forall P s -> Forall P (clean_math_content s).
Proof.
  intro H. unfold clean_math_content. apply strip_keeps.
  repeat (apply re_sub_keeps;
          [first [apply keeps_group1 | apply keeps_const; constructor]|]).
  exact H.
Qed.

Lemma keeps_math_repl : P DOLLAR -> keeps P math_repl.
Proof.
  intros Hd gs Hgs. unfold math_repl. constructor; [exact Hd|].
  apply Forall_app. split.
  - apply clean_math_content_keeps, keeps_group1, Hgs.
  - constructor; [exact Hd|constructor].
Qed.

End Preservation.

(** * Texts the whitespace stage leaves alone *)

Section Whitespace.

Lemma rep_space_stuck greedy grp cont lo prev s :
  head_space s = false ->
  rep Space greedy grp cont lo prev s
  = match lo with
    | O => open_group grp (cont prev s)
    | S _ => None
    end.
Proof.
  intro H. destruct s as [|c s]; [apply rep_nil|].
  simpl in H. simpl. rewrite H. destruct greedy; [reflexivity|].
  destruct lo; [|reflexivity].
  destruct (open_group grp (cont prev (c :: s))); reflexivity.
Qed.

Lemma head_space_not_NL p prev s :
  head_space s = false -> match_here (Lit NL :: p) prev s = None.
Proof.
  intro H. destruct s as [|x s]; [reflexivity|].
  apply match_here_first. intro E. subst x. discriminate.
Qed.

Lemma match_blank_lines prev s :
  after_nl_ok s = true -> match_here blank_lines_pattern prev s = None.
Proof.
  intro H. destruct s as [|x s]; [reflexivity|].
  unfold blank_lines_pattern. rewrite match_here_Lit.
  destruct (x =? NL)%N eqn:E; [|reflexivity].
  simpl in H. rewrite E in H. simpl in H.
  apply andb_true_iff in H. destruct H as [H _]. apply negb_true_iff in H.
  unfold spaces0 at 1. rewrite match_here_Rep, (rep_space_stuck _ _ _ _ _ _ H).
  rewrite (head_space_not_NL _ _ _ H). reflexivity.
Qed.

Lemma after_nl_ok_tail c s : after_nl_ok (c :: s) = true -> after_nl_ok s = true.
Proof. simpl. intro H. apply andb_true_iff in H. tauto. Qed.

Lemma blank_lines_fixed repl : forall s prev,
  after_nl_ok s = true -> sub_from blank_lines_pattern repl prev 0 s = s.
Proof.
  induction s as [|c s IH]; intros prev H.
  - apply sub_from_nil. reflexivity.
  - rewrite sub_from_cons_copy.
    + f_equal. apply IH. apply (after_nl_ok_tail c s H).
    + apply match_blank_lines. exact H.
Qed.

Lemma match_leading prev s :
  (at_bol prev = true -> head_space s = false) ->
  match_here leading_pattern prev s = None.
Proof.
  intro H. unfold leading_pattern. rewrite match_here_Bol.
  destruct (at_bol prev); [|reflexivity].
  unfold spaces1. rewrite match_here_Rep, rep_space_stuck; auto.
Qed.

Lemma leading_fixed repl : forall s prev,
  after_nl_ok s = true -> (at_bol prev = true -> head_space s = false) ->
  sub_from leading_pattern repl prev 0 s = s.
Proof.
  induction s as [|c s IH]; intros prev H Hb.
  - apply sub_from_nil. apply match_leading. exact Hb.
  - rewrite sub_from_cons_copy; [|apply match_leading; exact Hb].
    f_equal. apply IH; [apply (after_nl_ok_tail c s H)|].
    simpl. intro E. simpl in H. rewrite E in H. simpl in H.
    apply andb_true_iff in H. destruct H as [H _].
    apply negb_true_iff in H. exact H.
Qed.

Lemma rep_space_eol_fail : forall s lo prev,
  trail_ok s = true -> (lo <> 0 \/ at_eol s = false) ->
  rep Space true false (match_here [Eol]) lo prev s = None.
Proof.
  induction s as [|c s IH]; intros lo prev H Hlo.
  - rewrite rep_nil. destruct lo; [|reflexivity].
    destruct Hlo; [congruence|discriminate].
  - simpl in H. apply andb_true_iff in H. destruct H as [H1 H2].
    assert (Hstop : match lo with
                    | O => open_group false (match_here [Eol] prev (c :: s))
                    | S _ => None
                    end = None).
    { destruct lo; [|reflexivity]. destruct Hlo as [Hlo|Hlo]; [congruence|].
      rewrite match_here_Eol, Hlo. reflexivity. }
    simpl rep. simpl in Hstop. rewrite Hstop.
    destruct (isspace c) eqn:Ec; [|reflexivity].
    simpl in H1. apply negb_true_iff in H1.
    rewrite IH; [reflexivity|exact H2|right; exact H1].
Qed.

Lemma trailing_fixed repl : forall s prev,
  trail_ok s = true -> sub_from trailing_pattern repl prev 0 s = s.
Proof.
  assert (Hm : forall s prev, trail_ok s = true ->
                 match_here trailing_pattern prev s = None).
  { intros s prev H. unfold trailing_pattern, spaces1.
    rewrite match_here_Rep. apply rep_space_eol_fail; [exact H|left; discriminate]. }
  induction s as [|c s IH]; intros prev H.
  - apply sub_from_nil. apply Hm. exact H.
  - rewrite sub_from_cons_copy; [|apply Hm; exact H].
    f_equal. apply IH. simpl in H. apply andb_true_iff in H. tauto.
Qed.

Lemma whitespace_stage_fixed s : tidy_lines s = true -> whitespace_stage s = s.
Proof.
  unfold tidy_lines. intro H.
  apply andb_true_iff in H. destruct H as [H H3].
  apply andb_true_iff in H. destruct H as [H1 H2].
  apply negb_true_iff in H1.
  unfold whitespace_stage, re_sub.
  rewrite blank_lines_fixed by exact H2.
  rewrite leading_fixed by auto.
  apply trailing_fixed. exact H3.
Qed.

Lemma lstrip_fixed s : head_space s = false -> lstrip s = s.
Proof.
  destruct s as [|c s]; [reflexivity|]. simpl. intro H. rewrite H. reflexivity.
Qed.

Lemma trail_ok_last : forall s, trail_ok s = true -> head_space (rev s) = false.
Proof.
  induction s as [|c s IH]; [reflexivity|].
  simpl. intro H. apply andb_true_iff in H. destruct H as [H1 H2].
  specialize (IH H2). destruct s as [|x s].
  - simpl in *. rewrite andb_true_r in H1. apply negb_true_iff in H1. exact H1.
  - destruct (rev (x :: s)) as [|y r] eqn:E.
    + apply (f_equal (@length char)) in E. rewrite length_rev in E. discriminate.
    + exact IH.
Qed.

Lemma strip_fixed s : tidy_lines s = true -> strip s = s.
Proof.
  unfold tidy_lines. intro H.
  apply andb_true_iff in H. destruct H as [H H3].
  apply andb_true_iff in H. destruct H as [H1 _].
  apply negb_true_iff in H1.
  unfold strip, rstrip. rewrite (lstrip_fixed s H1).
  rewrite (lstrip_fixed (rev s) (trail_ok_last s H3)).
  apply rev_involutive.
Qed.

End Whitespace.

(** * Fixed points of the conversion *)

Ltac no_command_stage u :=
  repeat (rewrite (re_sub_no_command _ _ u); [|reflexivity|assumption]).

(** A text without command tokens, percent signs and dollar signs, whose
    lines are tidy, is returned as it is. *)
Lemma process_latex_file_fixed u :
  no_command u = true -> ~ In PERCENT u -> ~ In DOLLAR u ->
  tidy_lines u = true ->
  process_latex_file u = u.
Proof.
  intros Hc Hp Hd Ht. unfold process_latex_file.
  unfold structure_stage. no_command_stage u.
  unfold comment_stage, comment_pattern. rewrite re_sub_free by exact Hp.
  unfold custom_stage, heading_stage, label_stage, citation_stage,
    equation_stage. no_command_stage u.
  rewrite math_stage_free by exact Hd.
  unfold formatting_stage, float_stage, layout_stage, notation_stage.
  no_command_stage u.
  rewrite whitespace_stage_fixed by exact Ht.
  unfold catch_all_stage. no_command_stage u.
  apply strip_fixed. exact Ht.
Qed.

(** * Percent signs do not survive the comment stage *)

Section NoPercent.

Lemma cut_comment_no_percent l : Forall not_percent (cut_comment l).
Proof.
  induction l as [|c l IH]; simpl; [constructor|].
  destruct (c =? PERCENT)%N eqn:E; [constructor|].
  constructor; [apply N.eqb_neq; exact E|exact IH].
Qed.

Lemma join_lines_keeps (P : char -> Prop) ls :
  P NL -> Forall (Forall P) ls -> Forall P (join_lines ls).
Proof.
  intros Hn. induction ls as [|l ls IH]; intro H; [constructor|].
  inversion H as [|? ? Hl Hls]; subst.
  destruct ls as [|l' ls]; [exact Hl|].
  change (join_lines (l :: l' :: ls)) with (l ++ NL :: join_lines (l' :: ls)).
  apply Forall_app. split; [exact Hl|].
  constructor; [exact Hn|apply IH; exact Hls].
Qed.

Lemma comment_stage_no_percent s : Forall not_percent (comment_stage s).
Proof.
  rewrite comment_stage_by_lines.
  apply join_lines_keeps; [discriminate|].
  apply Forall_forall. intros l Hl. apply in_map_iff in Hl.
  destruct Hl as [l0 [E _]]. subst l. apply cut_comment_no_percent.
Qed.

End NoPercent.

Ltac lit_chars :=
  vm_compute; repeat (apply Forall_cons; [discriminate|]); apply Forall_nil.

Ltac keeps_tac :=
  first [ apply keeps_group1
        | apply keeps_const; lit_chars
        | apply keeps_with_group1; lit_chars
        | apply keeps_math_repl; discriminate ].

Lemma process_latex_file_no_percent content :
  Forall not_percent (process_latex_file content).
Proof.
  unfold process_latex_file. apply strip_keeps.
  generalize (comment_stage_no_percent (structure_stage content)).
  generalize (comment_stage (structure_stage content)). intros s Hs.
  unfold catch_all_stage, whitespace_stage, notation_stage, layout_stage,
    float_stage, formatting_stage, math_stage, equation_stage,
    citation_stage, label_stage, heading_stage, custom_stage.
  repeat (apply re_sub_keeps; [keeps_tac|]).
  exact Hs.
Qed.

Lemma not_in_of_Forall (d : char) s : Forall (fun c => c <> d) s -> ~ In d s.
Proof.
  intros H Hin. rewrite Forall_forall in H. exact (H d Hin eq_refl).
Qed.

Lemma not_in_of_existsb (d : char) s : existsb (N.eqb d) s = false -> ~ In d s.
Proof.
  intros H Hin. assert (existsb (N.eqb d) s = true); [|congruence].
  apply existsb_exists. exists d. split; [exact Hin|apply N.eqb_refl].
Qed.

Lemma process_latex_file_no_command content :
  no_command (process_latex_file content) = true.
Proof.
  unfold process_latex_file, catch_all_stage.
  apply no_command_strip, no_command_any_cmd.
Qed.

(** * Literal runs and brace arguments *)

Section Literals.

Lemma advance_shift c r : advance false c r = shift 1 r.
Proof. destruct r as [[n gs]|]; reflexivity. Qed.

Lemma shift_shift a b r : shift a (shift b r) = shift (a + b) r.
Proof. destruct r as [[n gs]|]; simpl; [|reflexivity]. f_equal. f_equal. lia. Qed.

(** A run of literals in front of [p] matches itself. *)
Lemma match_lits : forall w p prev s,
  match_here (map Lit w ++ p) prev (w ++ s)
  = shift (length w) (match_here p (prev_after prev w) s).
Proof.
  induction w as [|c w IH]; intros p prev s.
  - simpl. destruct (match_here p prev s) as [[n gs]|]; reflexivity.
  - simpl map. simpl app. rewrite match_here_Lit, N.eqb_refl, IH.
    rewrite advance_shift, shift_shift. reflexivity.
Qed.

Lemma match_lits_fail : forall w p prev s,
  starts_with w s = false -> match_here (map Lit w ++ p) prev s = None.
Proof.
  induction w as [|c w IH]; intros p prev s H; [discriminate|].
  destruct s as [|x s]; [reflexivity|].
  simpl map. simpl app. rewrite match_here_Lit.
  simpl in H. destruct (x =? c)%N; [|reflexivity].
  rewrite IH by exact H. reflexivity.
Qed.

Lemma starts_with_occurs w s : starts_with w s = true -> occurs w s = true.
Proof. intro H. destruct s; simpl; rewrite H; reflexivity. Qed.

Lemma occurs_app_r w u v : occurs w v = true -> occurs w (u ++ v) = true.
Proof.
  intro H. induction u as [|c u IH]; [exact H|].
  simpl. rewrite IH. apply orb_true_r.
Qed.

(** A word whose first character does not occur in its tail cannot start
    inside [u] and run over a following occurrence of that character. *)
Lemma starts_with_inside (c : char) : forall w u rest,
  ~ In c w -> starts_with w (u ++ c :: rest) = true -> starts_with w u = true.
Proof.
  induction w as [|d w IH]; intros u rest Hc H; [reflexivity|].
  destruct u as [|x u].
  - simpl in H. apply andb_true_iff in H. destruct H as [H _].
    apply N.eqb_eq in H. exfalso. apply Hc. left. auto.
  - simpl in *. apply andb_true_iff in H. destruct H as [H1 H2].
    rewrite H1. simpl. apply (IH u rest); [|exact H2].
    intro Hin. apply Hc. right. exact Hin.
Qed.

Lemma no_occurrence_inside c w u1 u2 rest :
  ~ In c w -> occurs (c :: w) (u1 ++ u2) = false -> u2 <> [] ->
  starts_with (c :: w) (u2 ++ c :: rest) = false.
Proof.
  intros Hc Ho Hn. destruct (starts_with (c :: w) (u2 ++ c :: rest)) eqn:E;
    [|reflexivity].
  destruct u2 as [|x u2]; [congruence|].
  assert (starts_with (c :: w) (x :: u2) = true).
  { simpl in *. apply andb_true_iff in E. destruct E as [E1 E2].
    rewrite E1. simpl. apply (starts_with_inside c w u2 rest Hc E2). }
  rewrite (occurs_app_r _ u1 _ (starts_with_occurs _ _ H)) in Ho. discriminate.
Qed.

Lemma occurs_app_free c w u v :
  ~ In c u -> occurs (c :: w) (u ++ v) = occurs (c :: w) v.
Proof.
  induction u as [|x u IH]; intro H; [reflexivity|].
  change ((x :: u) ++ v) with (x :: u ++ v).
  simpl occurs at 1.
  assert ((x =? c)%N = false) as ->.
  { apply N.eqb_neq. intro E. apply H. left. auto. }
  simpl. apply IH. intro Hin. apply H. right. exact Hin.
Qed.

(** A lazy repetition closed by the literal [close]: it takes the argument
    up to the first [close]. *)
Lemma match_lazy_arg k grp close p prev arg rest n gs :
  Forall (fun c => in_cls k c = true) arg -> ~ In close arg ->
  match_here p (Some close) rest = Some (n, gs) ->
  match_here (Rep k false 0 grp :: Lit close :: p) prev (arg ++ close :: rest)
  = Some (length arg + S n, with_group grp arg gs).
Proof.
  intros Hk Hc Hp. rewrite match_here_Rep.
  apply rep_lazy_first.
  - exact Hk.
  - intros u1 u2 prev' E Hn. apply match_here_first_app; [|exact Hn].
    subst arg. apply (not_in_app_r close u1 u2 Hc).
  - rewrite match_here_Lit, N.eqb_refl, Hp. reflexivity.
Qed.

Lemma one_line_dot arg : ~ In NL arg -> Forall (fun c => in_cls Dot c = true) arg.
Proof.
  intro H. apply Forall_forall. intros c Hc. simpl.
  apply negb_true_iff, N.eqb_neq. intro E. subst c. exact (H Hc).
Qed.

End Literals.

(** * The catch-all stage *)

Section CatchAll.

Lemma command_app name arg rest :
  command name arg ++ rest = BACKSLASH :: name ++ LBRACE :: arg ++ RBRACE :: rest.
Proof.
  unfold command. simpl. f_equal. rewrite <- app_assoc. simpl. f_equal.
  f_equal. rewrite <- app_assoc. reflexivity.
Qed.

Lemma match_any_cmd_arg prev name arg rest :
  name <> [] -> Forall (fun c => isletter c = true) name ->
  ~ In RBRACE arg -> ~ In NL arg ->
  match_here any_cmd_arg prev (command name arg ++ rest)
  = Some (length (command name arg), []).
Proof.
  intros Hn Hl Hb Hnl. rewrite command_app. unfold any_cmd_arg, command.
  rewrite match_here_Lit, N.eqb_refl.
  unfold letters1. rewrite match_here_Rep.
  rewrite (rep_greedy_all Letter false _ name (LBRACE :: arg ++ RBRACE :: rest)
             1 (Some BACKSLASH) (S (length arg + 1)) []).
  - simpl. rewrite !length_app. simpl. rewrite !length_app. simpl.
    repeat f_equal; lia.
  - exact Hl.
  - reflexivity.
  - destruct name; [congruence|simpl; lia].
  - rewrite match_here_Lit, N.eqb_refl. unfold lazy_dot.
    rewrite (match_lazy_arg Dot false RBRACE [] _ arg rest 0 []).
    + reflexivity.
    + apply one_line_dot. exact Hnl.
    + exact Hb.
    + reflexivity.
Qed.

(** Such a pattern copies a text without command tokens that does not end
    with a backslash, whatever comes after it. *)
Lemma re_sub_copy_no_command p repl pre rest :
  no_bol p = true -> command_gate p = true ->
  no_command pre = true -> last pre SPACE <> BACKSLASH ->
  re_sub p repl (pre ++ rest) = pre ++ re_sub p repl rest.
Proof.
  intros Hb Hg Hc Hl. apply re_sub_copy; [exact Hb|].
  intros u1 u2 E Hn. subst pre.
  apply no_command_app_r in Hc.
  rewrite last_app_r in Hl by exact Hn.
  destruct p as [|[c| | |] [|a p]]; try discriminate.
  simpl in Hg. apply andb_true_iff in Hg. destruct Hg as [Hg1 Hg2].
  apply N.eqb_eq in Hg1. subst c.
  destruct u2 as [|x u2]; [congruence|].
  change ((x :: u2) ++ rest) with (x :: (u2 ++ rest)).
  rewrite match_here_Lit. destruct (x =? BACKSLASH)%N eqn:Ex; [|reflexivity].
  apply N.eqb_eq in Ex. subst x.
  rewrite letter_gate_fail; [reflexivity|exact Hg2|].
  destruct u2 as [|y u2]; [simpl in Hl; congruence|].
  simpl in Hc. apply andb_true_iff in Hc. destruct Hc as [Hc _].
  apply negb_true_iff in Hc. exact Hc.
Qed.

Lemma catch_all_command pre name arg post :
  no_command pre = true -> last pre SPACE <> BACKSLASH ->
  name <> [] -> Forall (fun c => isletter c = true) name ->
  ~ In RBRACE arg -> ~ In NL arg ->
  catch_all_stage (pre ++ command name arg ++ post)
  = pre ++ catch_all_stage post.
Proof.
  intros Hpre Hlast Hn Hl Hb Hnl. unfold catch_all_stage.
  rewrite (re_sub_copy_no_command any_cmd_arg) by (reflexivity || assumption).
  rewrite (re_sub_match _ _ (command name arg) post []);
    [|reflexivity|discriminate|apply match_any_cmd_arg; assumption].
  simpl app.
  apply (re_sub_copy_no_command any_cmd); reflexivity || assumption.
Qed.

End CatchAll.

(** The last three steps of [clean_math_content] before the trim never find
    anything: the step before them leaves no command token. *)
Lemma clean_math_content_steps m :
  clean_math_content m
  = strip (re_sub any_cmd (const "") (re_sub any_cmd_unwrap group1 m)).
Proof.
  unfold clean_math_content.
  pose proof (no_command_any_cmd (re_sub any_cmd_unwrap group1 m)) as H.
  rewrite !(re_sub_no_command _ _ (re_sub any_cmd (const "") _));
    solve [reflexivity | exact H].
Qed.

(** * Texts in which a literal word cannot start *)

Section Clash.

Lemma mismatch_starts_with : forall w s r,
  mismatch w s = true -> starts_with w (s ++ r) = false.
Proof.
  induction w as [|c w IH]; intros s r H; [discriminate|].
  destruct s as [|x s]; [discriminate|].
  simpl in *. destruct (x =? c)%N; [|reflexivity].
  simpl in *. apply IH. exact H.
Qed.

Lemma occurs_app_clash w u v : clash w u = true -> occurs w (u ++ v) = occurs w v.
Proof.
  induction u as [|x u IH]; intro H; [reflexivity|].
  simpl in H. apply andb_true_iff in H. destruct H as [H1 H2].
  change ((x :: u) ++ v) with (x :: u ++ v).
  simpl occurs at 1.
  pose proof (mismatch_starts_with w (x :: u) v H1) as E. simpl in E.
  rewrite E. simpl. apply IH. exact H2.
Qed.

Lemma occurs_free c w u : ~ In c u -> occurs (c :: w) u = false.
Proof.
  intro H. rewrite <- (app_nil_r u), occurs_app_free by exact H. reflexivity.
Qed.

(** Copying over a segment in which the literal prefix cannot start. *)
Lemma re_sub_copy_clash p repl u v :
  no_bol p = true -> clash (lit_prefix p) u = true ->
  re_sub p repl (u ++ v) = u ++ re_sub p repl v.
Proof.
  intros Hb Hc. apply re_sub_copy; [exact Hb|].
  intros u1 u2 E Hn. apply match_here_lit_prefix.
  subst u. clear Hb. induction u1 as [|x u1 IH].
  - destruct u2 as [|y u2]; [congruence|].
    simpl in Hc. apply andb_true_iff in Hc. destruct Hc as [Hc _].
    apply (mismatch_starts_with _ (y :: u2) v Hc).
  - apply IH. simpl in Hc. apply andb_true_iff in Hc. tauto.
Qed.

(** Copying over a segment in which the literal prefix does not occur, when
    the text goes on with the first character of that prefix. *)
Lemma re_sub_copy_no_occurrence p repl c w u rest :
  no_bol p = true -> lit_prefix p = c :: w -> ~ In c w ->
  occurs (c :: w) u = false ->
  re_sub p repl (u ++ c :: rest) = u ++ re_sub p repl (c :: rest).
Proof.
  intros Hb Hp Hc Ho. apply re_sub_copy; [exact Hb|].
  intros u1 u2 E Hn. apply match_here_lit_prefix. rewrite Hp.
  subst u. apply (no_occurrence_inside c w u1 u2 rest Hc Ho Hn).
Qed.

Lemma no_occurrence_before d w u1 u2 rest :
  ~ In d w -> occurs w (u1 ++ u2) = false ->
  starts_with w (u2 ++ d :: rest) = false.
Proof.
  intros Hd Ho. destruct (starts_with w (u2 ++ d :: rest)) eqn:E; [|reflexivity].
  apply (starts_with_inside d w u2 rest Hd) in E.
  rewrite (occurs_app_r _ u1 _ (starts_with_occurs _ _ E)) in Ho. discriminate.
Qed.

(** The same, when the text goes on with a character that is not in the
    prefix at all. *)
Lemma re_sub_copy_no_occurrence_other p repl d u rest :
  no_bol p = true -> ~ In d (lit_prefix p) ->
  occurs (lit_prefix p) u = false ->
  re_sub p repl (u ++ d :: rest) = u ++ re_sub p repl (d :: rest).
Proof.
  intros Hb Hd Ho. apply re_sub_copy; [exact Hb|].
  intros u1 u2 E Hn. apply match_here_lit_prefix.
  subst u. apply (no_occurrence_before d _ u1 u2 rest Hd Ho).
Qed.

Lemma re_sub_nil p repl : lit_prefix p <> [] -> re_sub p repl [] = [].
Proof.
  intro H. apply sub_from_nil. apply match_here_lit_prefix.
  apply starts_with_nil_r. exact H.
Qed.

(** The pattern matches the whole text. *)
Lemma re_sub_whole p repl m gs :
  no_bol p = true -> lit_prefix p <> [] -> m <> [] ->
  match_here p None m = Some (length m, gs) ->
  re_sub p repl m = repl gs.
Proof.
  intros Hb Hp Hm H. rewrite <- (app_nil_r m) at 1.
  rewrite (re_sub_match p repl m [] gs Hb Hm); [|rewrite app_nil_r; exact H].
  rewrite re_sub_nil by exact Hp. apply app_nil_r.
Qed.

(** A pattern that starts with a literal in front of a literal prefix that
    does not occur. *)
Lemma re_sub_no_occurrence_tl a p repl s :
  lit_prefix p <> [] -> occurs (lit_prefix p) s = false ->
  re_sub (Lit a :: p) repl s = s.
Proof.
  intros Hp. unfold re_sub. generalize (@None char).
  induction s as [|c s IH]; intros prev H.
  - reflexivity.
  - simpl in H. apply orb_false_iff in H. destruct H as [_ H].
    rewrite sub_from_cons_copy; [f_equal; apply IH; exact H|].
    rewrite match_here_Lit. destruct (c =? a)%N; [|reflexivity].
    assert (E : forall s' prev', occurs (lit_prefix p) s' = false ->
                match_here p prev' s' = None).
    { intros s' prev' Hs'. apply match_here_lit_prefix.
      destruct s'; simpl in Hs'; apply orb_false_iff in Hs'; tauto. }
    rewrite (E s (Some c) H). reflexivity.
Qed.

End Clash.

(** * Block math environments *)

Section Environments.

Lemma environment_pattern k :
  environment (env_name k)
  = map Lit (env_begin k) ++ lazy_dotall :: map Lit (env_end k).
Proof. destruct k; reflexivity. Qed.

Lemma env_end_shape k : exists w, env_end k = BACKSLASH :: w /\ ~ In BACKSLASH w.
Proof.
  destruct k; eexists; (split; [reflexivity|]);
    apply not_in_of_existsb; reflexivity.
Qed.

Lemma env_begin_shape k :
  exists w, env_begin k = BACKSLASH :: w /\ ~ In BACKSLASH w.
Proof.
  destruct k; eexists; (split; [reflexivity|]);
    apply not_in_of_existsb; reflexivity.
Qed.

Lemma match_environment k prev body rest :
  occurs (env_end k) body = false ->
  match_here (environment (env_name k)) prev (block k body ++ rest)
  = Some (length (block k body), []).
Proof.
  intro Ho. rewrite environment_pattern. unfold block.
  rewrite <- !app_assoc. rewrite match_lits.
  unfold lazy_dotall. rewrite match_here_Rep.
  destruct (env_end_shape k) as [w [Ew Hw]].
  rewrite (rep_lazy_first DotAll false (match_here (map Lit (env_end k)))
             body (env_end k ++ rest) _ (length (env_end k)) []).
  - unfold shift, with_group. rewrite !length_app. reflexivity.
  - apply Forall_forall. reflexivity.
  - intros u1 u2 prev' E Hn. rewrite <- (app_nil_r (map Lit (env_end k))).
    apply match_lits_fail. subst body. rewrite Ew in *.
    apply (no_occurrence_inside BACKSLASH w u1 u2 (w ++ rest) Hw Ho Hn).
  - rewrite <- (app_nil_r (map Lit (env_end k))), match_lits. simpl.
    f_equal. f_equal. lia.
Qed.

Lemma block_not_nil k body : block k body <> [].
Proof. destruct k; discriminate. Qed.

Lemma environment_no_bol k : no_bol (environment (env_name k)) = true.
Proof. destruct k; reflexivity. Qed.

Lemma environment_prefix k : lit_prefix (environment (env_name k)) = env_begin k.
Proof. destruct k; reflexivity. Qed.

Lemma environment_copy j repl pre rest :
  begins_none j pre ->
  re_sub (environment (env_name j)) repl (pre ++ BACKSLASH :: rest)
  = pre ++ re_sub (environment (env_name j)) repl (BACKSLASH :: rest).
Proof.
  intro Hpre. destruct (env_begin_shape j) as [w [Ew Hw]].
  apply (re_sub_copy_no_occurrence _ repl BACKSLASH w);
    [apply environment_no_bol|rewrite environment_prefix; exact Ew|exact Hw
    |rewrite <- Ew; exact Hpre].
Qed.

Lemma block_head k body rest :
  exists r, block k body ++ rest = BACKSLASH :: r.
Proof. destruct k; eexists; reflexivity. Qed.

(** The substitution for [k] replaces the first environment of kind [k]. *)
Lemma environment_replaced k repl pre body post :
  begins_none k pre -> occurs (env_end k) body = false ->
  re_sub (environment (env_name k)) repl (pre ++ block k body ++ post)
  = pre ++ repl [] ++ re_sub (environment (env_name k)) repl post.
Proof.
  intros Hpre Ho.
  destruct (block_head k body post) as [r Er].
  rewrite Er, environment_copy by exact Hpre. rewrite <- Er.
  rewrite (re_sub_match _ repl (block k body) post []);
    [reflexivity|apply environment_no_bol|apply block_not_nil|].
  apply match_environment. exact Ho.
Qed.

(** The substitution for another kind [j] passes over an environment of
    kind [k] in which no environment of kind [j] begins. *)
Lemma environment_passed j k repl pre body post :
  j <> k ->
  begins_none j pre -> begins_none j body ->
  re_sub (environment (env_name j)) repl (pre ++ block k body ++ post)
  = pre ++ block k body ++ re_sub (environment (env_name j)) repl post.
Proof.
  intros Hjk Hpre Ho.
  destruct (block_head k body post) as [r Er].
  rewrite Er, environment_copy by exact Hpre. rewrite <- Er.
  f_equal. unfold block. rewrite <- !app_assoc.
  rewrite re_sub_copy_clash;
    [|apply environment_no_bol
     |rewrite environment_prefix; destruct j, k; congruence || reflexivity].
  f_equal.
  assert (E : re_sub (environment (env_name j)) repl (env_end k ++ post)
              = env_end k ++ re_sub (environment (env_name j)) repl post).
  { apply re_sub_copy_clash;
      [apply environment_no_bol
      |rewrite environment_prefix; destruct j, k; reflexivity]. }
  rewrite <- E.
  destruct (env_end_shape k) as [v [Ev Hv]].
  rewrite Ev. simpl app. apply environment_copy. exact Ho.
Qed.

(** A substitution for environments passes over the placeholder. *)
Lemma environment_after j repl pre rest :
  begins_none j pre ->
  re_sub (environment (env_name j)) repl (pre ++ lit PLACEHOLDER ++ rest)
  = pre ++ lit PLACEHOLDER ++ re_sub (environment (env_name j)) repl rest.
Proof.
  intros Hpre.
  assert (E : re_sub (environment (env_name j)) repl (lit PLACEHOLDER ++ rest)
              = lit PLACEHOLDER ++ re_sub (environment (env_name j)) repl rest).
  { apply re_sub_copy_clash;
      [apply environment_no_bol
      |rewrite environment_prefix; destruct j; reflexivity]. }
  rewrite <- E.
  change (lit PLACEHOLDER ++ rest)
    with (60%N :: tl (lit PLACEHOLDER) ++ rest).
  apply re_sub_copy_no_occurrence_other.
  - apply environment_no_bol.
  - rewrite environment_prefix. apply not_in_of_existsb.
    destruct j; reflexivity.
  - rewrite environment_prefix. exact Hpre.
Qed.

Lemma equation_stage_block k pre body post :
  Forall (fun j => begins_none j pre) [Equation; Align; Split] ->
  occurs (env_end k) body = false ->
  Forall (fun j => begins_none j body) (replaced_before k) ->
  equation_stage (pre ++ block k body ++ post)
  = pre ++ lit PLACEHOLDER ++ equation_stage post.
Proof.
  intros Hpre He Hb. unfold equation_stage.
  inversion Hpre as [|? ? P1 Hpre']; subst.
  inversion Hpre' as [|? ? P2 Hpre'']; subst.
  inversion Hpre'' as [|? ? P3 _]; subst.
  destruct k; simpl in Hb.
  - rewrite (environment_replaced Equation) by assumption.
    rewrite (environment_after Align) by assumption.
    rewrite (environment_after Split) by assumption.
    reflexivity.
  - inversion Hb as [|? ? H1 _]; subst.
    rewrite (environment_passed Equation Align) by (assumption || discriminate).
    rewrite (environment_replaced Align) by assumption.
    rewrite (environment_after Split) by assumption.
    reflexivity.
  - inversion Hb as [|? ? H1 Hb']; subst.
    inversion Hb' as [|? ? H2 _]; subst.
    rewrite (environment_passed Equation Split) by (assumption || discriminate).
    rewrite (environment_passed Align Split) by (assumption || discriminate).
    rewrite (environment_replaced Split) by assumption.
    reflexivity.
Qed.

End Environments.

(** * Whole texts that the early stages leave alone *)

Lemma re_sub_no_occurrence_cons p repl s c w :
  lit_prefix p = c :: w -> occurs (c :: w) s = false -> re_sub p repl s = s.
Proof.
  intros Hp Ho. apply re_sub_no_occurrence; rewrite Hp; [discriminate|exact Ho].
Qed.

Lemma re_sub_no_occurrence_tl_cons a p repl s c w :
  lit_prefix p = c :: w -> occurs (c :: w) s = false ->
  re_sub (Lit a :: p) repl s = s.
Proof.
  intros Hp Ho. apply re_sub_no_occurrence_tl; rewrite Hp; [discriminate|exact Ho].
Qed.

Ltac no_occurrence :=
  repeat first [ rewrite occurs_app_clash by reflexivity
               | rewrite occurs_app_free by assumption ];
  first [ reflexivity | apply occurs_free; assumption ].

Lemma re_sub_no_occurrence_after_first p repl s c w :
  tl (lit_prefix p) = c :: w -> occurs (c :: w) s = false ->
  re_sub p repl s = s.
Proof.
  destruct p as [|[a| | |] p]; simpl; try discriminate.
  apply re_sub_no_occurrence_tl_cons.
Qed.

(** Removes from the goal every substitution that is applied directly to a
    text in which its literal prefix (or that prefix after its first
    character) does not occur. *)
Ltac untouched :=
  repeat match goal with
  | |- context [re_sub ?p ?r ?s] =>
      lazymatch s with
      | context [re_sub] => fail
      | _ =>
          first
            [ erewrite (re_sub_no_occurrence_cons p r s);
                [|reflexivity|no_occurrence]
            | erewrite (re_sub_no_occurrence_after_first p r s);
                [|reflexivity|no_occurrence] ]
      end
  end.

Lemma equation_stage_block_alone k body :
  ~ In BACKSLASH body -> equation_stage (block k body) = lit PLACEHOLDER.
Proof.
  intro Hb.
  replace (block k body) with ([] ++ block k body ++ [])
    by (rewrite app_nil_r; reflexivity).
  rewrite equation_stage_block.
  - vm_compute. reflexivity.
  - repeat constructor.
  - destruct (env_end_shape k) as [w [-> _]]. apply occurs_free. exact Hb.
  - apply Forall_forall. intros j _. unfold begins_none.
    destruct (env_begin_shape j) as [w [-> _]]. apply occurs_free. exact Hb.
Qed.

Lemma block_alone k body :
  ~ In BACKSLASH body -> ~ In PERCENT body ->
  process_latex_file (block k body) = lit PLACEHOLDER.
Proof.
  intros Hb Hp.
  assert (E : citation_stage (label_stage (heading_stage (custom_stage
                (comment_stage (structure_stage (block k body))))))
              = block k body).
  { unfold citation_stage, label_stage, heading_stage, custom_stage,
      comment_stage, structure_stage, block.
    destruct k; untouched; reflexivity. }
  unfold process_latex_file. rewrite E, equation_stage_block_alone by exact Hb.
  vm_compute. reflexivity.
Qed.

(** * Headings *)

(** Two successful matches with the same groups and equal counts. *)
Ltac same_count :=
  lazymatch goal with
  | |- Some (?a, _) = Some (?b, _) =>
      replace a with b
        by (repeat first [rewrite length_app | progress simpl]; lia);
      reflexivity
  end.

Section Headings.

Lemma heading_line_marker l title :
  heading_line l title = lit (heading_marker l) ++ title.
Proof. destruct l; reflexivity. Qed.

Lemma labeled_heading_segments l title label :
  labeled_heading l title label
  = lit (heading_command l ++ "{") ++ title ++ lit "}\label{" ++ label ++ lit "}".
Proof.
  unfold labeled_heading, braced. destruct l; simpl; rewrite <- app_assoc;
    reflexivity.
Qed.

Lemma plain_heading_segments l title :
  plain_heading l title = lit (heading_command l ++ "{") ++ title ++ lit "}".
Proof. unfold plain_heading, braced. destruct l; reflexivity. Qed.

Lemma heading_shape cmd :
  heading cmd = map Lit (lit cmd) ++ [Lit LBRACE; lazy_dot_group; Lit RBRACE].
Proof. reflexivity. Qed.

Lemma heading_label_shape cmd :
  heading_label cmd
  = map Lit (lit cmd)
    ++ Lit LBRACE :: lazy_dot_group :: Lit RBRACE :: spaces0
       :: (map Lit (lit "\label{") ++ [lazy_dot; Lit RBRACE]).
Proof. reflexivity. Qed.

Lemma match_heading cmd prev title rest :
  ~ In RBRACE title -> ~ In NL title ->
  match_here (heading cmd) prev (lit cmd ++ LBRACE :: title ++ RBRACE :: rest)
  = Some (length (lit cmd) + (length title + 2), [title]).
Proof.
  intros Hb Hn. rewrite heading_shape.
  rewrite match_lits, match_here_Lit, N.eqb_refl. unfold lazy_dot_group.
  rewrite (match_lazy_arg Dot true RBRACE [] _ title rest 0 []);
    [|apply one_line_dot; exact Hn|exact Hb|reflexivity].
  unfold shift, with_group, advance. same_count.
Qed.

Lemma match_heading_label cmd prev title label rest :
  ~ In RBRACE title -> ~ In NL title -> ~ In RBRACE label -> ~ In NL label ->
  match_here (heading_label cmd) prev
    (lit cmd ++ LBRACE :: title ++ RBRACE :: lit "\label{" ++ label
       ++ RBRACE :: rest)
  = Some (length (lit cmd) + (length title + (length label + 10)), [title]).
Proof.
  intros Hb Hn Hb' Hn'. rewrite heading_label_shape.
  rewrite match_lits, match_here_Lit, N.eqb_refl. unfold lazy_dot_group.
  rewrite (match_lazy_arg Dot true RBRACE _ _ title
             (lit "\label{" ++ label ++ RBRACE :: rest)
             (7 + (length label + 1)) []).
  - unfold shift, with_group, advance. same_count.
  - apply one_line_dot. exact Hn.
  - exact Hb.
  - unfold spaces0. rewrite match_here_Rep, rep_space_stuck by reflexivity.
    rewrite match_lits. unfold lazy_dot.
    rewrite (match_lazy_arg Dot false RBRACE [] _ label rest 0 []);
      [reflexivity|apply one_line_dot; exact Hn'|exact Hb'|reflexivity].
Qed.

Lemma match_label_on_plain cmd prev title :
  ~ In RBRACE title ->
  match_here (heading_label cmd) prev (lit cmd ++ LBRACE :: title ++ [RBRACE])
  = None.
Proof.
  intros Hb. rewrite heading_label_shape.
  rewrite match_lits, match_here_Lit, N.eqb_refl. unfold lazy_dot_group.
  rewrite match_here_Rep, rep_app_fail; [reflexivity| |].
  - intros u1 u2 prev' E Hn. apply match_here_first_app; [|exact Hn].
    subst title. apply (not_in_app_r RBRACE u1 u2 Hb).
  - intros lo prev'. destruct lo as [|[|lo]]; reflexivity.
Qed.

End Headings.

Section HeadingStage.

Lemma labeled_heading_cons l title label :
  labeled_heading l title label
  = lit (heading_command l) ++ LBRACE :: title ++ RBRACE :: lit "\label{"
      ++ label ++ [RBRACE].
Proof.
  unfold labeled_heading, braced. f_equal. simpl. f_equal.
  rewrite <- app_assoc. reflexivity.
Qed.

Lemma labeled_heading_not_nil l title label : labeled_heading l title label <> [].
Proof. destruct l; discriminate. Qed.

Lemma plain_heading_not_nil l title : plain_heading l title <> [].
Proof. destruct l; discriminate. Qed.

(** The labeled pattern of the level turns a labeled heading into its
    heading line. *)
Lemma labeled_heading_converted l title label :
  plain title -> plain label ->
  re_sub (heading_label (heading_command l)) (with_group1 (heading_marker l))
    (labeled_heading l title label)
  = heading_line l title.
Proof.
  intros (_ & Hb & _ & Hn) (_ & Hb' & _ & Hn').
  rewrite (re_sub_whole _ _ _ [title]).
  - rewrite heading_line_marker. reflexivity.
  - destruct l; reflexivity.
  - destruct l; discriminate.
  - apply labeled_heading_not_nil.
  - rewrite labeled_heading_cons at 1.
    rewrite match_heading_label by assumption.
    rewrite labeled_heading_cons. same_count.
Qed.

(** The plain pattern of the level turns a plain heading into its heading
    line. *)
Lemma plain_heading_converted l title :
  plain title ->
  re_sub (heading (heading_command l)) (with_group1 (heading_marker l))
    (plain_heading l title)
  = heading_line l title.
Proof.
  intros (_ & Hb & _ & Hn).
  rewrite (re_sub_whole _ _ _ [title]).
  - rewrite heading_line_marker. reflexivity.
  - destruct l; reflexivity.
  - destruct l; discriminate.
  - apply plain_heading_not_nil.
  - unfold plain_heading, braced.
    rewrite match_heading by assumption. same_count.
Qed.

Lemma no_bol_lits_app w p : no_bol (map Lit w ++ p) = no_bol p.
Proof. induction w as [|c w IH]; [reflexivity|exact IH]. Qed.

Lemma heading_label_no_bol cmd : no_bol (heading_label cmd) = true.
Proof. rewrite heading_label_shape, no_bol_lits_app. reflexivity. Qed.

Lemma sub_from_re_sub p repl s : sub_from p repl None 0 s = re_sub p repl s.
Proof. reflexivity. Qed.

(** The labeled pattern of the level finds nothing in a plain heading. *)
Lemma labeled_pattern_on_plain_heading l repl title :
  plain title ->
  re_sub (heading_label (heading_command l)) repl (plain_heading l title)
  = plain_heading l title.
Proof.
  intros (Hs & Hb & _ & _).
  assert (Hm : match_here (heading_label (heading_command l)) None
                 (plain_heading l title) = None)
    by (apply match_label_on_plain; exact Hb).
  unfold re_sub.
  destruct l;
    [ change (plain_heading Level1 title)
        with (BACKSLASH :: (lit "section{" ++ title ++ lit "}")) in *
    | change (plain_heading Level2 title)
        with (BACKSLASH :: (lit "subsection{" ++ title ++ lit "}")) in *
    | change (plain_heading Level3 title)
        with (BACKSLASH :: (lit "subsubsection{" ++ title ++ lit "}")) in * ];
    rewrite sub_from_cons_copy by exact Hm; f_equal;
    rewrite (sub_from_prev _ _ (heading_label_no_bol _) _ _ None);
    rewrite sub_from_re_sub; untouched; reflexivity.
Qed.

Lemma process_latex_file_up_to_headings a b :
  up_to_headings a = up_to_headings b ->
  process_latex_file a = process_latex_file b.
Proof.
  unfold process_latex_file, up_to_headings. cbv zeta.
  intro H. rewrite H. reflexivity.
Qed.

Lemma up_to_headings_labeled l title label :
  plain title -> plain label ->
  up_to_headings (labeled_heading l title label) = heading_line l title.
Proof.
  intros Ht Hl.
  pose proof (labeled_heading_converted l title label Ht Hl) as Hc.
  destruct Ht as (Hs & Hb & Hp & Hn). destruct Hl as (Hs' & Hb' & Hp' & Hn').
  unfold up_to_headings, structure_stage, comment_stage, custom_stage,
    heading_stage.
  rewrite labeled_heading_segments in *.
  destruct l; cbn [heading_command heading_marker] in *; untouched;
    rewrite Hc, heading_line_marker; untouched; reflexivity.
Qed.

Lemma up_to_headings_plain l title :
  plain title ->
  up_to_headings (plain_heading l title) = heading_line l title.
Proof.
  intros Ht.
  pose proof (plain_heading_converted l title Ht) as Hc.
  pose proof (fun repl => labeled_pattern_on_plain_heading l repl title Ht) as Hk.
  destruct Ht as (Hs & Hb & Hp & Hn).
  unfold up_to_headings, structure_stage, comment_stage, custom_stage,
    heading_stage.
  rewrite plain_heading_segments in *.
  destruct l; cbn [heading_command heading_marker] in *; untouched;
    rewrite Hk, Hc, heading_line_marker; untouched; reflexivity.
Qed.

Lemma up_to_headings_line l title :
  ~ In BACKSLASH title -> ~ In PERCENT title ->
  up_to_headings (heading_line l title) = heading_line l title.
Proof.
  intros Hs Hp.
  unfold up_to_headings, structure_stage, comment_stage, custom_stage,
    heading_stage.
  rewrite heading_line_marker.
  destruct l; untouched; reflexivity.
Qed.

End HeadingStage.

Section HeadingLines.

Lemma after_nl_ok_one_line s : ~ In NL s -> after_nl_ok s = true.
Proof.
  induction s as [|c s IH]; intro H; [reflexivity|].
  simpl. rewrite IH by (intro Hin; apply H; right; exact Hin).
  assert ((c =? NL)%N = false) as ->
    by (apply N.eqb_neq; intro E; apply H; left; auto).
  reflexivity.
Qed.

Lemma trail_ok_one_line : forall s,
  ~ In NL s -> s <> [] -> isspace (last s NL) = false -> trail_ok s = true.
Proof.
  induction s as [|c s IH]; intros Hn Hs Hl; [congruence|].
  destruct s as [|x s].
  - simpl in *. rewrite Hl. reflexivity.
  - change (trail_ok (c :: x :: s))
      with (negb (isspace c && (x =? NL)%N) && trail_ok (x :: s)).
    assert ((x =? NL)%N = false) as ->
      by (apply N.eqb_neq; intro E; apply Hn; right; left; auto).
    rewrite andb_false_r. simpl negb. simpl andb.
    apply IH; [|discriminate|exact Hl].
    intro Hin. apply Hn. right. exact Hin.
Qed.

Lemma heading_line_tidy l title :
  ~ In NL title -> title <> [] -> isspace (last title NL) = false ->
  tidy_lines (heading_line l title) = true.
Proof.
  intros Hn Ht Hl. rewrite heading_line_marker.
  assert (Hn' : ~ In NL (lit (heading_marker l) ++ title)).
  { intro H. apply in_app_or in H. destruct H as [H|H]; [|exact (Hn H)].
    revert H. apply not_in_of_existsb. destruct l; reflexivity. }
  unfold tidy_lines. rewrite after_nl_ok_one_line by exact Hn'.
  rewrite trail_ok_one_line.
  - destruct l; reflexivity.
  - exact Hn'.
  - destruct l; discriminate.
  - rewrite last_app_r by exact Ht. exact Hl.
Qed.

Lemma heading_line_fixed l title :
  ~ In BACKSLASH title -> ~ In PERCENT title -> ~ In NL title ->
  ~ In DOLLAR title -> title <> [] -> isspace (last title NL) = false ->
  process_latex_file (heading_line l title) = heading_line l title.
Proof.
  intros Hs Hp Hn Hd Ht Hl.
  assert (Hfree : forall c, ~ In c (lit (heading_marker l)) -> ~ In c title ->
                            ~ In c (heading_line l title)).
  { intros c H1 H2 H. rewrite heading_line_marker in H.
    apply in_app_or in H. tauto. }
  apply process_latex_file_fixed.
  - rewrite heading_line_marker.
    assert (E : forall u v, ~ In BACKSLASH u -> no_command v = true ->
                            no_command (u ++ v) = true).
    { induction u as [|c u IH]; intros v Hu Hv; [exact Hv|].
      simpl. rewrite IH; [|intro Hin; apply Hu; right; exact Hin|exact Hv].
      assert ((c =? BACKSLASH)%N = false) as ->
        by (apply N.eqb_neq; intro E; apply Hu; left; auto).
      reflexivity. }
    rewrite <- (app_nil_r title), app_assoc. apply E; [|reflexivity].
    intro H. apply in_app_or in H. destruct H as [H|H]; [|exact (Hs H)].
    revert H. apply not_in_of_existsb. destruct l; reflexivity.
  - apply Hfree; [|exact Hp]. apply not_in_of_existsb. destruct l; reflexivity.
  - apply Hfree; [|exact Hd]. apply not_in_of_existsb. destruct l; reflexivity.
  - apply heading_line_tidy; assumption.
Qed.

End HeadingLines.

(** * What the trim and the whitespace stage achieve *)

Section Trimming.

Lemma lstrip_head s : head_space (lstrip s) = false.
Proof.
  induction s as [|c s IH]; [reflexivity|].
  simpl. destruct (isspace c) eqn:E; [exact IH|]. simpl. exact E.
Qed.

Lemma rstrip_last s : head_space (rev (rstrip s)) = false.
Proof. unfold rstrip. rewrite rev_involutive. apply lstrip_head. Qed.

Lemma rstrip_head s : head_space s = false -> head_space (rstrip s) = false.
Proof.
  intro H. destruct (rstrip_prefix s) as [w E].
  destruct (rstrip s) as [|c r]; [reflexivity|].
  rewrite E in H. exact H.
Qed.

Lemma strip_head s : head_space (strip s) = false.
Proof. unfold strip. apply rstrip_head, lstrip_head. Qed.

Lemma strip_last s : head_space (rev (strip s)) = false.
Proof. unfold strip. apply rstrip_last. Qed.

Lemma strip_trimmed s :
  head_space s = false -> head_space (rev s) = false -> strip s = s.
Proof.
  intros H1 H2. unfold strip, rstrip.
  rewrite (lstrip_fixed s H1), (lstrip_fixed (rev s) H2). apply rev_involutive.
Qed.

Lemma strip_idempotent s : strip (strip s) = strip s.
Proof. apply strip_trimmed; [apply strip_head|apply strip_last]. Qed.

End Trimming.

Section Provenance.

Variable P : char -> Prop.

(** A substitution whose pattern starts with the literal [c] keeps [P] when
    its replacement keeps [P] as soon as [P c] holds: it only replaces where
    the text has a [c]. *)
Lemma re_sub_keeps_if_present c p repl s :
  (P c -> keeps P repl) -> Forall P s -> Forall P (re_sub (Lit c :: p) repl s).
Proof.
  intros Hr Hs. destruct (in_dec N.eq_dec c s) as [Hin|Hout].
  - apply re_sub_keeps; [|exact Hs]. apply Hr.
    rewrite Forall_forall in Hs. apply Hs. exact Hin.
  - rewrite re_sub_free by exact Hout. exact Hs.
Qed.

Lemma math_stage_keeps s : Forall P s -> Forall P (math_stage s).
Proof.
  intro Hs. unfold math_stage, math_pattern.
  apply re_sub_keeps_if_present; [|exact Hs]. apply keeps_math_repl.
Qed.

Lemma blank_lines_keeps s :
  Forall P s -> Forall P (re_sub blank_lines_pattern (const (nl ++ nl)) s).
Proof.
  intro Hs. unfold blank_lines_pattern.
  apply re_sub_keeps_if_present; [|exact Hs].
  intros Hn gs _. repeat constructor; exact Hn.
Qed.

Hypothesis P_templates : Forall P template_chars.

Lemma template_keeps t :
  forallb (fun c => existsb (N.eqb c) template_chars) (lit t) = true ->
  Forall P (lit t).
Proof.
  intro H. rewrite forallb_forall in H. apply Forall_forall. intros c Hc.
  specialize (H c Hc). apply existsb_exists in H. destruct H as [d [Hd E]].
  apply N.eqb_eq in E. subst d.
  rewrite Forall_forall in P_templates. apply P_templates. exact Hd.
Qed.

Lemma whitespace_stage_keeps content :
  Forall P content -> Forall P (whitespace_stage (before_whitespace content)).
Proof.
  intro Hc.
  unfold whitespace_stage, before_whitespace, up_to_headings, notation_stage,
    layout_stage, float_stage, formatting_stage, equation_stage,
    citation_stage, label_stage, heading_stage, custom_stage, comment_stage,
    structure_stage.
  repeat first
    [ apply blank_lines_keeps
    | apply math_stage_keeps
    | apply re_sub_keeps;
      [ first [ apply keeps_group1
              | apply keeps_const; apply template_keeps; reflexivity
              | apply keeps_with_group1; apply template_keeps; reflexivity ] | ] ].
  exact Hc.
Qed.

Lemma process_latex_file_keeps content :
  Forall P content -> Forall P (process_latex_file content).
Proof.
  intro Hc. unfold process_latex_file. apply strip_keeps.
  unfold catch_all_stage, whitespace_stage, notation_stage, layout_stage,
    float_stage, formatting_stage, equation_stage, citation_stage,
    label_stage, heading_stage, custom_stage, comment_stage, structure_stage.
  repeat first
    [ apply blank_lines_keeps
    | apply math_stage_keeps
    | apply re_sub_keeps;
      [ first [ apply keeps_group1
              | apply keeps_const; apply template_keeps; reflexivity
              | apply keeps_with_group1; apply template_keeps; reflexivity ] | ] ].
  exact Hc.
Qed.

End Provenance.

Section WhitespaceResult.

(** A greedy repetition at the end of a pattern takes the whole run. *)
Lemma rep_run_end k : forall s lo prev,
  rep k true false (match_here []) lo prev s
  = if lo <=? class_run k s then Some (class_run k s, []) else None.
Proof.
  induction s as [|c s IH]; intros lo prev; simpl.
  - destruct lo; reflexivity.
  - rewrite IH. destruct (in_cls k c); simpl.
    + destruct lo as [|lo]; simpl; [reflexivity|].
      destruct (lo <=? class_run k s); reflexivity.
    + destruct lo; reflexivity.
Qed.

Lemma space_run_0 s : class_run Space s = 0 <-> head_space s = false.
Proof.
  destruct s as [|c s]; simpl; [tauto|].
  destruct (isspace c); split; intro; congruence.
Qed.

Lemma match_leading_some prev c s :
  at_bol prev = true -> isspace c = true ->
  match_here leading_pattern prev (c :: s)
  = Some (S (class_run Space s), []).
Proof.
  intros Hb Hc. unfold leading_pattern, spaces1.
  rewrite match_here_Bol, Hb, match_here_Rep, rep_run_end.
  simpl. rewrite Hc. reflexivity.
Qed.

Lemma leading_head repl prev s :
  head_space s = false ->
  head_space (sub_from leading_pattern repl prev 0 s) = false.
Proof.
  intro H. destruct s as [|c s].
  - rewrite sub_from_nil; [reflexivity|]. apply match_leading. reflexivity.
  - rewrite sub_from_cons_copy; [exact H|]. apply match_leading. auto.
Qed.

(** After line 103 no line break is followed by whitespace, and the text
    does not start with whitespace. *)
Lemma leading_inv repl :
  (forall gs, repl gs = []) ->
  forall s skip prev,
    skip = 0 \/ skip = class_run Space s ->
    after_nl_ok (sub_from leading_pattern repl prev skip s) = true /\
    (at_bol prev = true \/ skip <> 0 ->
     head_space (sub_from leading_pattern repl prev skip s) = false).
Proof.
  intros Hr. induction s as [|c s IH]; intros skip prev Hs.
  - destruct skip; [rewrite sub_from_nil by (apply match_leading; reflexivity)|];
      simpl; auto.
  - destruct skip as [|k].
    + rewrite sub_from_cons.
      destruct (at_bol prev && isspace c) eqn:E.
      * apply andb_true_iff in E. destruct E as [Eb Ec].
        rewrite (match_leading_some prev c s Eb Ec), Hr. simpl app.
        destruct (IH (class_run Space s) (Some c) (or_intror eq_refl))
          as [H1 H2].
        split; [exact H1|]. intros _.
        destruct (class_run Space s) as [|n] eqn:En.
        -- apply leading_head. apply space_run_0. exact En.
        -- apply H2. right. discriminate.
      * rewrite match_leading.
        2:{ intro Hb. rewrite Hb in E. simpl in E. simpl. exact E. }
        destruct (IH 0 (Some c) (or_introl eq_refl)) as [H1 H2].
        split.
        -- simpl. rewrite H1, andb_true_r.
           destruct (c =? NL)%N eqn:En; [|reflexivity].
           simpl. rewrite H2; [reflexivity|]. left. exact En.
        -- intros [Hb|Hb]; [|congruence]. simpl.
           rewrite Hb in E. exact E.
    + destruct Hs as [Hs|Hs]; [discriminate|].
      simpl in Hs. destruct (isspace c); [|discriminate].
      injection Hs as Hs. rewrite sub_from_cons_skip.
      destruct (IH k (Some c) (or_intror Hs)) as [H1 H2].
      split; [exact H1|]. intros _.
      destruct k as [|n].
      * apply leading_head. apply space_run_0. auto.
      * apply H2. right. discriminate.
Qed.

Lemma rep_greedy_cons k grp cont lo prev c s :
  rep k true grp cont lo prev (c :: s)
  = match
      (if in_cls k c
       then advance grp c (rep k true grp cont (pred lo) (Some c) s)
       else None)
    with
    | Some r => Some r
    | None =>
        match lo with
        | O => open_group grp (cont prev (c :: s))
        | S _ => None
        end
    end.
Proof. reflexivity. Qed.

(** The greedy space repetition in front of the end-of-line anchor. *)
Lemma rep_space_eol_spec : forall s lo prev n gs,
  rep Space true false (match_here [Eol]) lo prev s = Some (n, gs) ->
  at_eol (skipn n s) = true /\ n <= length s /\ lo <= n /\
  (0 < n -> head_space s = true).
Proof.
  induction s as [|c s IH]; intros lo prev n gs.
  - rewrite rep_nil. destruct lo; [|discriminate].
    simpl. intro H. inversion H; subst. simpl. repeat split; auto; lia.
  - assert (Hstop : forall r,
      match lo with
      | O => open_group false (match_here [Eol] prev (c :: s))
      | S _ => None
      end = Some r ->
      at_eol (skipn (fst r) (c :: s)) = true /\ fst r <= length (c :: s) /\
      lo <= fst r /\ (0 < fst r -> head_space (c :: s) = true)).
    { intros r. destruct lo; [|discriminate].
      rewrite match_here_Eol. destruct (at_eol (c :: s)) eqn:E; [|discriminate].
      simpl. intro H. inversion H; subst. simpl.
      repeat split; auto; lia. }
    assert (Hmore : forall r,
      (if in_cls Space c
       then advance false c
              (rep Space true false (match_here [Eol]) (pred lo) (Some c) s)
       else None) = Some r ->
      at_eol (skipn (fst r) (c :: s)) = true /\ fst r <= length (c :: s) /\
      lo <= fst r /\ (0 < fst r -> head_space (c :: s) = true)).
    { intros r. destruct (in_cls Space c) eqn:Ec; [|discriminate].
      destruct (rep Space true false (match_here [Eol]) (pred lo) (Some c) s)
        as [[m hs]|] eqn:E; [|discriminate].
      simpl. intro H. inversion H; subst. simpl.
      destruct (IH _ _ _ _ E) as (H1 & H2 & H3 & _).
      repeat split; auto; lia. }
    rewrite rep_greedy_cons.
    destruct (if in_cls Space c then _ else None) as [r|] eqn:E.
    + intro H. inversion H; subst. exact (Hmore (n, gs) eq_refl).
    + intro H. exact (Hstop (n, gs) H).
Qed.

Lemma rep_space_eol_lower prev prev' s :
  rep Space true false (match_here [Eol]) 1 prev s <> None ->
  rep Space true false (match_here [Eol]) 0 prev' s <> None.
Proof.
  destruct s as [|c s]; [rewrite !rep_nil; congruence|].
  rewrite !rep_greedy_cons. simpl pred.
  destruct (if in_cls Space c then _ else None); [discriminate|congruence].
Qed.

Lemma trailing_matches_cons x s :
  isspace x = true -> at_eol s = true \/ trailing_matches s ->
  trailing_matches (x :: s).
Proof.
  intros Hx H. unfold trailing_matches, trailing_pattern, spaces1 in *.
  rewrite match_here_Rep in *. rewrite rep_greedy_cons.
  change (in_cls Space x) with (isspace x). rewrite Hx. simpl pred.
  assert (E : rep Space true false (match_here [Eol]) 0 (Some x) s <> None).
  { destruct H as [H|H].
    - destruct s as [|y s].
      + rewrite rep_nil. discriminate.
      + rewrite rep_greedy_cons.
        destruct (if in_cls Space y then _ else None); [discriminate|].
        rewrite match_here_Eol, H. discriminate.
    - apply (rep_space_eol_lower None). exact H. }
  destruct (rep Space true false (match_here [Eol]) 0 (Some x) s) as [[n gs]|];
    [discriminate|congruence].
Qed.

Lemma after_nl_ok_skipn n : forall s,
  after_nl_ok s = true -> after_nl_ok (skipn n s) = true.
Proof.
  induction n as [|n IH]; intros s H; [exact H|].
  destruct s as [|c s]; [reflexivity|].
  simpl. apply IH. apply (after_nl_ok_tail c s H).
Qed.

Lemma sub_from_skip_le p repl k s prev :
  k <= length s ->
  sub_from p repl prev k s
  = sub_from p repl (prev_after prev (firstn k s)) 0 (skipn k s).
Proof.
  intro Hk. rewrite <- (firstn_skipn k s) at 1.
  rewrite <- (firstn_length_le s Hk) at 1. apply sub_from_skip.
Qed.

(** After line 104: no whitespace is left in front of a line break or at
    the end, and what line 103 achieved is kept. *)
Lemma trailing_inv repl :
  (forall gs, repl gs = []) ->
  forall n s prev, length s <= n ->
    trail_ok (sub_from trailing_pattern repl prev 0 s) = true /\
    (head_space (sub_from trailing_pattern repl prev 0 s) = true ->
     head_space s = true) /\
    (after_nl_ok s = true ->
     after_nl_ok (sub_from trailing_pattern repl prev 0 s) = true) /\
    (at_eol (sub_from trailing_pattern repl prev 0 s) = true ->
     at_eol s = true \/ trailing_matches s).
Proof.
  intros Hr. induction n as [|n IH]; intros s prev Hlen.
  - destruct s; [|simpl in Hlen; lia].
    rewrite sub_from_nil by reflexivity. simpl. auto.
  - destruct s as [|c s].
    { rewrite sub_from_nil by reflexivity. simpl. auto. }
    simpl in Hlen. rewrite sub_from_cons.
    destruct (match_here trailing_pattern prev (c :: s)) as [[m gs]|] eqn:E.
    + assert (Hm : trailing_matches (c :: s)).
      { unfold trailing_matches.
        rewrite (match_here_prev trailing_pattern eq_refl None prev), E.
        discriminate. }
      unfold trailing_pattern, spaces1 in E. rewrite match_here_Rep in E.
      apply rep_space_eol_spec in E. destruct E as (E1 & E2 & E3 & E4).
      destruct m as [|k]; [lia|]. rewrite Hr. simpl app.
      simpl in E1, E2.
      assert (Hk : k <= length s) by lia.
      rewrite (sub_from_skip_le trailing_pattern repl k s (Some c) Hk).
      destruct (IH (skipn k s) (prev_after (Some c) (firstn k s)))
        as (I1 & I2 & I3 & I4).
      { rewrite length_skipn. lia. }
      split; [exact I1|]. split; [intros _; apply E4; lia|].
      split; [|intros _; right; exact Hm].
      intro Ha. apply I3. apply after_nl_ok_skipn.
      apply (after_nl_ok_tail c s Ha).
    + destruct (IH s (Some c)) as (I1 & I2 & I3 & I4); [lia|].
      split; [|split; [|split]].
      * simpl. rewrite I1, andb_true_r.
        destruct (isspace c) eqn:Ec; [|reflexivity]. simpl.
        destruct (at_eol (sub_from trailing_pattern repl (Some c) 0 s)) eqn:Eo;
          [|reflexivity].
        exfalso. specialize (I4 eq_refl).
        pose proof (trailing_matches_cons c s Ec I4) as Hm.
        apply Hm.
        rewrite (match_here_prev trailing_pattern eq_refl None prev). exact E.
      * simpl. auto.
      * intro Ha. simpl.
        rewrite I3 by (apply (after_nl_ok_tail c s Ha)).
        rewrite andb_true_r. destruct (c =? NL)%N eqn:En; [|reflexivity].
        simpl. simpl in Ha. rewrite En in Ha. simpl in Ha.
        apply andb_true_iff in Ha. destruct Ha as [Ha _].
        apply negb_true_iff in Ha.
        destruct (head_space (sub_from trailing_pattern repl (Some c) 0 s))
          eqn:Eh; [|reflexivity].
        rewrite (I2 eq_refl) in Ha. discriminate.
      * simpl. auto.
Qed.

Lemma whitespace_stage_tidy s : tidy_lines (whitespace_stage s) = true.
Proof.
  unfold whitespace_stage, re_sub.
  set (b := sub_from blank_lines_pattern (const (nl ++ nl)) None 0 s).
  destruct (leading_inv (const "") (fun _ => eq_refl) b 0 None
              (or_introl eq_refl)) as [L1 L2].
  specialize (L2 (or_introl eq_refl)).
  set (t := sub_from leading_pattern (const "") None 0 b) in *.
  destruct (trailing_inv (const "") (fun _ => eq_refl) (length t) t None
              (le_n _)) as (T1 & T2 & T3 & _).
  unfold tidy_lines. rewrite T1, (T3 L1), !andb_true_r.
  destruct (head_space (sub_from trailing_pattern (const "") None 0 t)) eqn:E;
    [|reflexivity].
  rewrite (T2 eq_refl) in L2. discriminate.
Qed.

End WhitespaceResult.

(** * Texts without markup *)

Section Plain.

Lemma process_latex_file_stages content :
  process_latex_file content
  = strip (catch_all_stage (whitespace_stage (before_whitespace content))).
Proof. reflexivity. Qed.

Lemma process_latex_file_before_whitespace a b :
  before_whitespace a = before_whitespace b ->
  process_latex_file a = process_latex_file b.
Proof. intro H. rewrite !process_latex_file_stages, H. reflexivity. Qed.

Lemma catch_all_stage_free s : ~ In BACKSLASH s -> catch_all_stage s = s.
Proof.
  intro H. unfold catch_all_stage, any_cmd_arg, any_cmd.
  rewrite (re_sub_free BACKSLASH _ _ s H). apply re_sub_free. exact H.
Qed.

Lemma no_backslash_result content :
  ~ In BACKSLASH content ->
  process_latex_file content = whitespace_stage (before_whitespace content).
Proof.
  intro H. rewrite process_latex_file_stages.
  assert (Hw : ~ In BACKSLASH (whitespace_stage (before_whitespace content))).
  { apply not_in_of_Forall.
    apply (whitespace_stage_keeps (fun c => c <> BACKSLASH)).
    - unfold template_chars. lit_chars.
    - apply Forall_forall. intros c Hc E. subst c. exact (H Hc). }
  rewrite catch_all_stage_free by exact Hw.
  apply strip_fixed. apply whitespace_stage_tidy.
Qed.

Lemma before_whitespace_plain s : markup_free s -> before_whitespace s = s.
Proof.
  intros (Hs & Hp & Hd).
  unfold before_whitespace, up_to_headings, notation_stage, layout_stage,
    float_stage, formatting_stage, math_stage, equation_stage,
    citation_stage, label_stage, heading_stage, custom_stage, comment_stage,
    structure_stage.
  untouched. reflexivity.
Qed.

End Plain.

(** * Constructs in a text without other markup *)

Section Constructs.

Lemma lit_app a b : lit (a ++ b) = lit a ++ lit b.
Proof.
  unfold lit. rewrite <- map_app. f_equal.
  induction a as [|c a IH]; [reflexivity|]. simpl. f_equal. exact IH.
Qed.

Lemma markup_free_app u v : markup_free u -> markup_free v -> markup_free (u ++ v).
Proof.
  intros (A1 & A2 & A3) (B1 & B2 & B3).
  repeat split; intro H; apply in_app_or in H; tauto.
Qed.

(** The substitution copies a text without backslash, replaces a match that
    follows it, and goes on after the match. *)
Lemma re_sub_first_match p repl pre m post gs :
  hd_error p = Some (Lit BACKSLASH) -> no_bol p = true ->
  ~ In BACKSLASH pre -> m <> [] ->
  match_here p None (m ++ post) = Some (length m, gs) ->
  re_sub p repl (pre ++ m ++ post) = pre ++ repl gs ++ re_sub p repl post.
Proof.
  intros Hp Hb Hpre Hm H. destruct p as [|a p']; [discriminate|].
  injection Hp as ->.
  rewrite re_sub_copy_free by assumption. f_equal.
  apply (re_sub_match _ repl m post gs Hb Hm H).
Qed.

Lemma hd_lits cmd p :
  hd_error (lit cmd) = Some BACKSLASH ->
  hd_error (map Lit (lit cmd) ++ p) = Some (Lit BACKSLASH).
Proof. destruct (lit cmd); [discriminate|]. simpl. congruence. Qed.

Lemma hd_not_nil (w v : text) : hd_error w = Some BACKSLASH -> w ++ v <> [].
Proof. destruct w; discriminate. Qed.

Lemma match_unwrap cmd prev arg rest :
  ~ In RBRACE arg ->
  match_here (unwrap cmd) prev (lit cmd ++ LBRACE :: arg ++ RBRACE :: rest)
  = Some (length (lit cmd) + (length arg + 2), [arg]).
Proof.
  intros Hb. unfold unwrap, lits.
  rewrite match_lits, match_here_Lit, N.eqb_refl. unfold arg_group.
  rewrite match_here_Rep.
  rewrite (rep_greedy_all (NotCh RBRACE) true (match_here [Lit RBRACE]) arg
             (RBRACE :: rest) 0 _ 1 []).
  - unfold shift, with_group, advance. same_count.
  - apply not_in_class_forall. exact Hb.
  - reflexivity.
  - simpl. lia.
  - rewrite match_here_Lit, N.eqb_refl. reflexivity.
Qed.

Lemma match_cmd_arg cmd prev arg rest :
  ~ In RBRACE arg -> ~ In NL arg ->
  match_here (cmd_arg cmd) prev (lit cmd ++ LBRACE :: arg ++ RBRACE :: rest)
  = Some (length (lit cmd) + (length arg + 2), []).
Proof.
  intros Hb Hn. unfold cmd_arg, lits.
  rewrite match_lits, match_here_Lit, N.eqb_refl. unfold lazy_dot.
  rewrite (match_lazy_arg Dot false RBRACE [] _ arg rest 0 []);
    [|apply one_line_dot; exact Hn|exact Hb|reflexivity].
  unfold shift, with_group, advance. same_count.
Qed.

Lemma cmd_opt_arg_shape cmd :
  cmd_opt_arg cmd
  = map Lit (lit cmd)
    ++ [Lit LBRACKET; lazy_dot; Lit RBRACKET; Lit LBRACE; lazy_dot; Lit RBRACE].
Proof. reflexivity. Qed.

Lemma match_cmd_opt_arg cmd prev opt arg rest :
  ~ In RBRACKET opt -> ~ In NL opt -> ~ In RBRACE arg -> ~ In NL arg ->
  match_here (cmd_opt_arg cmd) prev
    (lit cmd ++ LBRACKET :: opt ++ RBRACKET :: LBRACE :: arg ++ RBRACE :: rest)
  = Some (length (lit cmd) + (length opt + (length arg + 4)), []).
Proof.
  intros Ho Hno Hb Hn. rewrite cmd_opt_arg_shape.
  rewrite match_lits, match_here_Lit, N.eqb_refl. unfold lazy_dot.
  rewrite (match_lazy_arg Dot false RBRACKET _ _ opt
             (LBRACE :: arg ++ RBRACE :: rest) (S (length arg + 1)) []).
  - unfold shift, with_group, advance. same_count.
  - apply one_line_dot. exact Hno.
  - exact Ho.
  - rewrite match_here_Lit, N.eqb_refl.
    rewrite (match_lazy_arg Dot false RBRACE [] _ arg rest 0 []);
      [reflexivity|apply one_line_dot; exact Hn|exact Hb|reflexivity].
Qed.

Lemma tensor_pattern_shape :
  tensor_pattern
  = map Lit (lit "\tensor")
    ++ [Lit LBRACKET; lazy_dot; Lit RBRACKET; Lit LBRACE; lazy_dot; Lit RBRACE;
        Lit LBRACE; lazy_dot; Lit RBRACE].
Proof. reflexivity. Qed.

Lemma match_tensor prev a b c rest :
  ~ In RBRACKET a -> ~ In NL a -> ~ In RBRACE b -> ~ In NL b ->
  ~ In RBRACE c -> ~ In NL c ->
  match_here tensor_pattern prev
    (lit "\tensor" ++ LBRACKET :: a ++ RBRACKET :: LBRACE :: b ++ RBRACE
       :: LBRACE :: c ++ RBRACE :: rest)
  = Some (length (lit "\tensor")
          + (length a + (length b + (length c + 6))), []).
Proof.
  intros Ha Hna Hb Hnb Hc Hnc. rewrite tensor_pattern_shape.
  rewrite match_lits, match_here_Lit, N.eqb_refl. unfold lazy_dot.
  rewrite (match_lazy_arg Dot false RBRACKET _ _ a
             (LBRACE :: b ++ RBRACE :: LBRACE :: c ++ RBRACE :: rest)
             (S (length b + S (S (length c + 1)))) []).
  - unfold shift, with_group, advance. same_count.
  - apply one_line_dot. exact Hna.
  - exact Ha.
  - rewrite match_here_Lit, N.eqb_refl.
    rewrite (match_lazy_arg Dot false RBRACE _ _ b
               (LBRACE :: c ++ RBRACE :: rest) (S (length c + 1)) []).
    + reflexivity.
    + apply one_line_dot. exact Hnb.
    + exact Hb.
    + rewrite match_here_Lit, N.eqb_refl.
      rewrite (match_lazy_arg Dot false RBRACE [] _ c rest 0 []);
        [reflexivity|apply one_line_dot; exact Hnc|exact Hc|reflexivity].
Qed.

Lemma no_bol_lits w : no_bol (map Lit w) = true.
Proof. induction w as [|c w IH]; [reflexivity|exact IH]. Qed.

Lemma no_bol_after_lits w a p :
  no_bol (a :: p) = true -> no_bol (map Lit w ++ a :: p) = true.
Proof. rewrite no_bol_lits_app. auto. Qed.

Lemma environment_shape e :
  environment e
  = map Lit (lit ("\begin{" ++ e ++ "}"))
    ++ lazy_dotall :: map Lit (lit ("\end{" ++ e ++ "}")).
Proof.
  unfold environment, lits. rewrite !lit_app, !map_app, <- !app_assoc.
  reflexivity.
Qed.

Lemma match_environment_text e prev body rest :
  ~ In BACKSLASH body ->
  match_here (environment e) prev (environment_text e body ++ rest)
  = Some (length (environment_text e body), []).
Proof.
  intro Hb. rewrite environment_shape. unfold environment_text.
  rewrite <- !app_assoc. rewrite match_lits.
  unfold lazy_dotall. rewrite match_here_Rep.
  rewrite (rep_lazy_first DotAll false
             (match_here (map Lit (lit ("\end{" ++ e ++ "}"))))
             body (lit ("\end{" ++ e ++ "}") ++ rest) _
             (length (lit ("\end{" ++ e ++ "}"))) []).
  - unfold shift, with_group. rewrite !length_app. reflexivity.
  - apply Forall_forall. reflexivity.
  - intros u1 u2 prev' E Hn. rewrite lit_app. simpl map.
    apply match_here_first_app; [|exact Hn].
    subst body. apply (not_in_app_r BACKSLASH u1 u2 Hb).
  - rewrite <- (app_nil_r (map Lit (lit ("\end{" ++ e ++ "}")))), match_lits.
    simpl. f_equal. f_equal. lia.
Qed.


Lemma command_segments cmd arg post :
  lit cmd ++ braced arg ++ post = lit (cmd ++ "{") ++ arg ++ lit "}" ++ post.
Proof.
  rewrite lit_app. unfold braced.
  repeat first [rewrite <- app_assoc | progress simpl]. reflexivity.
Qed.

Lemma option_segments cmd opt arg post :
  lit cmd ++ bracketed opt ++ braced arg ++ post
  = lit (cmd ++ "[") ++ opt ++ lit "]{" ++ arg ++ lit "}" ++ post.
Proof.
  rewrite lit_app. unfold bracketed, braced.
  repeat first [rewrite <- app_assoc | progress simpl]. reflexivity.
Qed.

Lemma tensor_segments a b c post :
  lit "\tensor" ++ bracketed a ++ braced b ++ braced c ++ post
  = lit "\tensor[" ++ a ++ lit "]{" ++ b ++ lit "}{" ++ c ++ lit "}" ++ post.
Proof.
  unfold bracketed, braced.
  repeat first [rewrite <- app_assoc | progress simpl]. reflexivity.
Qed.

Lemma environment_segments e body post :
  environment_text e body ++ post
  = lit ("\begin{" ++ e ++ "}") ++ body ++ lit ("\end{" ++ e ++ "}") ++ post.
Proof. unfold environment_text. rewrite <- !app_assoc. reflexivity. Qed.

Lemma unwrap_construct cmd pre arg post :
  hd_error (lit cmd) = Some BACKSLASH -> ~ In BACKSLASH pre ->
  ~ In RBRACE arg ->
  re_sub (unwrap cmd) group1 (pre ++ lit (cmd ++ "{") ++ arg ++ lit "}" ++ post)
  = pre ++ arg ++ re_sub (unwrap cmd) group1 post.
Proof.
  intros Hc Hpre Hb. rewrite <- command_segments.
  replace (lit cmd ++ braced arg ++ post)
    with ((lit cmd ++ braced arg) ++ post) by (rewrite <- app_assoc; reflexivity).
  rewrite (re_sub_first_match _ _ pre _ post [arg]).
  - reflexivity.
  - apply hd_lits. exact Hc.
  - unfold unwrap, lits. rewrite no_bol_lits_app. reflexivity.
  - exact Hpre.
  - apply hd_not_nil. exact Hc.
  - unfold braced. repeat first [rewrite <- app_assoc | progress simpl app].
    rewrite match_unwrap by exact Hb. same_count.
Qed.

Lemma cmd_arg_construct cmd t pre arg post :
  hd_error (lit cmd) = Some BACKSLASH -> ~ In BACKSLASH pre ->
  ~ In RBRACE arg -> ~ In NL arg ->
  re_sub (cmd_arg cmd) (const t)
    (pre ++ lit (cmd ++ "{") ++ arg ++ lit "}" ++ post)
  = pre ++ lit t ++ re_sub (cmd_arg cmd) (const t) post.
Proof.
  intros Hc Hpre Hb Hn. rewrite <- command_segments.
  replace (lit cmd ++ braced arg ++ post)
    with ((lit cmd ++ braced arg) ++ post) by (rewrite <- app_assoc; reflexivity).
  rewrite (re_sub_first_match _ _ pre _ post []).
  - reflexivity.
  - apply hd_lits. exact Hc.
  - unfold cmd_arg, lits. rewrite no_bol_lits_app. reflexivity.
  - exact Hpre.
  - apply hd_not_nil. exact Hc.
  - unfold braced. repeat first [rewrite <- app_assoc | progress simpl app].
    rewrite match_cmd_arg by assumption. same_count.
Qed.

Lemma literal_construct w t pre post :
  hd_error (lit w) = Some BACKSLASH -> ~ In BACKSLASH pre ->
  re_sub (lits w) (const t) (pre ++ lit w ++ post)
  = pre ++ lit t ++ re_sub (lits w) (const t) post.
Proof.
  intros Hc Hpre.
  rewrite (re_sub_first_match _ _ pre _ post []).
  - reflexivity.
  - unfold lits. destruct (lit w); [discriminate|]. simpl in *. congruence.
  - apply no_bol_lits.
  - exact Hpre.
  - destruct (lit w); discriminate.
  - unfold lits. rewrite <- (app_nil_r (map Lit (lit w))), match_lits.
    simpl. f_equal. f_equal. lia.
Qed.

Lemma cmd_opt_arg_construct cmd t pre opt arg post :
  hd_error (lit cmd) = Some BACKSLASH -> ~ In BACKSLASH pre ->
  ~ In RBRACKET opt -> ~ In NL opt -> ~ In RBRACE arg -> ~ In NL arg ->
  re_sub (cmd_opt_arg cmd) (const t)
    (pre ++ lit (cmd ++ "[") ++ opt ++ lit "]{" ++ arg ++ lit "}" ++ post)
  = pre ++ lit t ++ re_sub (cmd_opt_arg cmd) (const t) post.
Proof.
  intros Hc Hpre Ho Hno Hb Hn. rewrite <- option_segments.
  replace (lit cmd ++ bracketed opt ++ braced arg ++ post)
    with ((lit cmd ++ bracketed opt ++ braced arg) ++ post)
    by (rewrite <- !app_assoc; reflexivity).
  rewrite (re_sub_first_match _ _ pre _ post []).
  - reflexivity.
  - apply hd_lits. exact Hc.
  - rewrite cmd_opt_arg_shape, no_bol_lits_app. reflexivity.
  - exact Hpre.
  - apply hd_not_nil. exact Hc.
  - unfold bracketed, braced.
    repeat first [rewrite <- app_assoc | progress simpl app].
    rewrite match_cmd_opt_arg by assumption. same_count.
Qed.

Lemma tensor_construct t pre a b c post :
  ~ In BACKSLASH pre ->
  ~ In RBRACKET a -> ~ In NL a -> ~ In RBRACE b -> ~ In NL b ->
  ~ In RBRACE c -> ~ In NL c ->
  re_sub tensor_pattern (const t)
    (pre ++ lit "\tensor[" ++ a ++ lit "]{" ++ b ++ lit "}{" ++ c ++ lit "}"
       ++ post)
  = pre ++ lit t ++ re_sub tensor_pattern (const t) post.
Proof.
  intros Hpre Ha Hna Hb Hnb Hc Hnc. rewrite <- tensor_segments.
  replace (lit "\tensor" ++ bracketed a ++ braced b ++ braced c ++ post)
    with ((lit "\tensor" ++ bracketed a ++ braced b ++ braced c) ++ post)
    by (rewrite <- !app_assoc; reflexivity).
  rewrite (re_sub_first_match _ _ pre _ post []).
  - reflexivity.
  - reflexivity.
  - reflexivity.
  - exact Hpre.
  - discriminate.
  - pose proof (match_tensor None a b c post Ha Hna Hb Hnb Hc Hnc) as H.
    replace ((lit "\tensor" ++ bracketed a ++ braced b ++ braced c) ++ post)
      with (lit "\tensor" ++ LBRACKET :: a ++ RBRACKET :: LBRACE :: b
              ++ RBRACE :: LBRACE :: c ++ RBRACE :: post)
      by (unfold bracketed, braced;
          repeat first [rewrite <- app_assoc | progress simpl]; reflexivity).
    rewrite H. unfold bracketed, braced. same_count.
Qed.

Lemma environment_construct e t pre body post :
  ~ In BACKSLASH pre -> ~ In BACKSLASH body ->
  re_sub (environment e) (const t)
    (pre ++ lit ("\begin{" ++ e ++ "}") ++ body ++ lit ("\end{" ++ e ++ "}")
       ++ post)
  = pre ++ lit t ++ re_sub (environment e) (const t) post.
Proof.
  intros Hpre Hb. rewrite <- environment_segments.
  rewrite (re_sub_first_match _ _ pre _ post []).
  - reflexivity.
  - rewrite environment_shape. reflexivity.
  - rewrite environment_shape, no_bol_lits_app. apply (no_bol_lits (lit _)).
  - exact Hpre.
  - discriminate.
  - apply match_environment_text. exact Hb.
Qed.

End Constructs.

(** Unfolds the stages before the whitespace stage into their
    substitutions. *)
Ltac stages :=
  unfold before_whitespace, up_to_headings, notation_stage, layout_stage,
    float_stage, formatting_stage, math_stage, equation_stage,
    citation_stage, label_stage, heading_stage, custom_stage, comment_stage,
    structure_stage.

Section Families.

Lemma styling_before_whitespace cmd pre arg post :
  In cmd styling_commands ->
  markup_free pre -> markup_free arg -> ~ In RBRACE arg -> markup_free post ->
  before_whitespace (pre ++ lit cmd ++ braced arg ++ post) = pre ++ arg ++ post.
Proof.
  intros Hin (Hs1 & Hp1 & Hd1) (Hs2 & Hp2 & Hd2) Hb (Hs3 & Hp3 & Hd3).
  rewrite command_segments. stages. simpl in Hin.
  repeat (destruct Hin as [<-|Hin];
    [ untouched; rewrite unwrap_construct by (reflexivity || assumption);
      untouched; reflexivity | ]).
  contradiction.
Qed.


Lemma removed_before_whitespace cmd pre arg post :
  In cmd removed_commands ->
  markup_free pre -> markup_free arg -> ~ In RBRACE arg -> ~ In NL arg ->
  markup_free post ->
  before_whitespace (pre ++ lit cmd ++ braced arg ++ post) = pre ++ post.
Proof.
  intros Hin (Hs1 & Hp1 & Hd1) (Hs2 & Hp2 & Hd2) Hb Hn (Hs3 & Hp3 & Hd3).
  rewrite command_segments. stages. simpl in Hin.
  repeat (destruct Hin as [<-|Hin];
    [ untouched; rewrite cmd_arg_construct by (reflexivity || assumption);
      untouched; reflexivity | ]).
  contradiction.
Qed.

Lemma bare_before_whitespace cmd pre post :
  In cmd bare_commands -> markup_free pre -> markup_free post ->
  before_whitespace (pre ++ lit cmd ++ post) = pre ++ post.
Proof.
  intros Hin (Hs1 & Hp1 & Hd1) (Hs3 & Hp3 & Hd3).
  stages. simpl in Hin.
  repeat (destruct Hin as [<-|Hin];
    [ untouched; rewrite literal_construct by (reflexivity || assumption);
      untouched; reflexivity | ]).
  contradiction.
Qed.

Lemma option_before_whitespace cmd pre opt arg post :
  In cmd option_commands ->
  markup_free pre ->
  markup_free opt -> ~ In RBRACKET opt -> ~ In NL opt ->
  markup_free arg -> ~ In RBRACE arg -> ~ In NL arg ->
  markup_free post ->
  before_whitespace (pre ++ lit cmd ++ bracketed opt ++ braced arg ++ post)
  = pre ++ post.
Proof.
  intros Hin (Hs1 & Hp1 & Hd1) (Hs2 & Hp2 & Hd2) Ho Hno
    (Hs4 & Hp4 & Hd4) Hb Hn (Hs3 & Hp3 & Hd3).
  rewrite option_segments. stages. simpl in Hin.
  repeat (destruct Hin as [<-|Hin];
    [ untouched; rewrite cmd_opt_arg_construct by (reflexivity || assumption);
      untouched; reflexivity | ]).
  contradiction.
Qed.

Lemma tensor_before_whitespace pre a b c post :
  markup_free pre ->
  markup_free a -> ~ In RBRACKET a -> ~ In NL a ->
  markup_free b -> ~ In RBRACE b -> ~ In NL b ->
  markup_free c -> ~ In RBRACE c -> ~ In NL c ->
  markup_free post ->
  before_whitespace
    (pre ++ lit "\tensor" ++ bracketed a ++ braced b ++ braced c ++ post)
  = pre ++ post.
Proof.
  intros (Hs1 & Hp1 & Hd1) (Hs2 & Hp2 & Hd2) Ha Hna
    (Hs4 & Hp4 & Hd4) Hb Hnb (Hs5 & Hp5 & Hd5) Hc Hnc (Hs3 & Hp3 & Hd3).
  rewrite tensor_segments. stages.
  untouched. rewrite tensor_construct by assumption.
  untouched. reflexivity.
Qed.

Lemma float_before_whitespace e pre body post :
  In e float_environments ->
  markup_free pre -> markup_free body -> markup_free post ->
  before_whitespace (pre ++ environment_text e body ++ post) = pre ++ post.
Proof.
  intros Hin (Hs1 & Hp1 & Hd1) (Hs2 & Hp2 & Hd2) (Hs3 & Hp3 & Hd3).
  rewrite environment_segments. stages. simpl in Hin.
  repeat (destruct Hin as [<-|Hin];
    [ untouched; rewrite environment_construct by assumption;
      untouched; reflexivity | ]).
  contradiction.
Qed.

Lemma block_environment_text k body :
  block k body = environment_text (env_name k) body.
Proof. destruct k; reflexivity. Qed.

Lemma block_before_whitespace k pre body post :
  markup_free pre -> markup_free body -> markup_free post ->
  before_whitespace (pre ++ block k body ++ post)
  = pre ++ lit PLACEHOLDER ++ post.
Proof.
  intros (Hs1 & Hp1 & Hd1) (Hs2 & Hp2 & Hd2) (Hs3 & Hp3 & Hd3).
  rewrite block_environment_text, environment_segments. stages.
  destruct k; cbn [env_name];
    untouched; rewrite environment_construct by assumption;
    untouched; reflexivity.
Qed.


End Families.

Section HeadingsInContext.

Lemma spaces_then_backslash_fail p : forall s lo prev,
  ~ In BACKSLASH s ->
  rep Space true false (match_here (Lit BACKSLASH :: p)) lo prev s = None.
Proof.
  induction s as [|c s IH]; intros lo prev H.
  - rewrite rep_nil. destruct lo; reflexivity.
  - rewrite rep_greedy_cons.
    rewrite IH by (intro Hin; apply H; right; exact Hin).
    rewrite match_here_first by (intro E; apply H; left; auto).
    destruct (in_cls Space c), lo; reflexivity.
Qed.

(** The labeled pattern fails on a heading that no backslash follows. *)
Lemma heading_label_fail cmd prev rest :
  ~ In BACKSLASH rest ->
  match_here (heading_label cmd) prev (lit cmd ++ LBRACE :: rest) = None.
Proof.
  intro H. rewrite heading_label_shape.
  rewrite match_lits, match_here_Lit, N.eqb_refl. unfold lazy_dot_group.
  assert (Hc : forall prev' t, ~ In BACKSLASH t ->
            match_here
              (Lit RBRACE :: spaces0
               :: map Lit (lit "\label{") ++ [lazy_dot; Lit RBRACE]) prev' t
            = None).
  { intros prev' t Ht. destruct t as [|x t]; [reflexivity|].
    rewrite match_here_Lit. destruct (x =? RBRACE)%N; [|reflexivity].
    unfold spaces0. rewrite match_here_Rep.
    change (map Lit (lit "\label{") ++ [lazy_dot; Lit RBRACE])
      with (Lit BACKSLASH
            :: map Lit (lit "label{") ++ [lazy_dot; Lit RBRACE]).
    rewrite spaces_then_backslash_fail; [reflexivity|].
    intro Hin. apply Ht. right. exact Hin. }
  rewrite match_here_Rep. rewrite <- (app_nil_r rest).
  rewrite rep_app_fail; [reflexivity| |].
  - intros u1 u2 prev' E Hn. rewrite app_nil_r. apply Hc.
    subst rest. apply (not_in_app_r BACKSLASH u1 u2 H).
  - intros lo prev'. rewrite rep_nil. destruct lo; [|reflexivity].
    rewrite Hc by (intros []). reflexivity.
Qed.

(** A substitution whose pattern starts with a backslash finds nothing in a
    text whose only backslash is at a place where the pattern fails. *)
Lemma re_sub_single_fail p repl pre m :
  hd_error p = Some (Lit BACKSLASH) -> no_bol p = true ->
  ~ In BACKSLASH pre -> ~ In BACKSLASH m ->
  match_here p None (BACKSLASH :: m) = None ->
  re_sub p repl (pre ++ BACKSLASH :: m) = pre ++ BACKSLASH :: m.
Proof.
  intros Hp Hb Hpre Hm H. destruct p as [|a p']; [discriminate|].
  injection Hp as ->.
  rewrite re_sub_copy_free by assumption. f_equal.
  unfold re_sub. rewrite sub_from_cons_copy by exact H. f_equal.
  rewrite (sub_from_prev _ _ Hb _ _ None), sub_from_re_sub.
  apply re_sub_free. exact Hm.
Qed.

Lemma heading_label_passes cmd repl pre title post :
  hd_error (lit cmd) = Some BACKSLASH -> ~ In BACKSLASH (tl (lit cmd)) ->
  ~ In BACKSLASH pre -> ~ In BACKSLASH title -> ~ In BACKSLASH post ->
  re_sub (heading_label cmd) repl
    (pre ++ lit (cmd ++ "{") ++ title ++ lit "}" ++ post)
  = pre ++ lit (cmd ++ "{") ++ title ++ lit "}" ++ post.
Proof.
  intros Hc Ht Hpre Htitle Hpost.
  assert (Hr : ~ In BACKSLASH (title ++ lit "}" ++ post)).
  { intro H. apply in_app_or in H. destruct H as [H|H]; [exact (Htitle H)|].
    destruct H as [H|H]; [discriminate|exact (Hpost H)]. }
  pose proof (heading_label_fail cmd None _ Hr) as Hf.
  rewrite lit_app, <- app_assoc.
  change (lit "{" ++ title ++ lit "}" ++ post)
    with (LBRACE :: title ++ lit "}" ++ post).
  destruct (lit cmd) as [|c w] eqn:E; [discriminate|].
  injection Hc as ->. simpl in Ht.
  change ((BACKSLASH :: w) ++ LBRACE :: title ++ lit "}" ++ post)
    with (BACKSLASH :: w ++ LBRACE :: title ++ lit "}" ++ post) in *.
  apply re_sub_single_fail.
  - rewrite heading_label_shape, E. reflexivity.
  - apply heading_label_no_bol.
  - exact Hpre.
  - intro H. apply in_app_or in H. destruct H as [H|H]; [exact (Ht H)|].
    destruct H as [H|H]; [discriminate|exact (Hr H)].
  - exact Hf.
Qed.

Lemma heading_construct cmd t pre title post :
  hd_error (lit cmd) = Some BACKSLASH -> ~ In BACKSLASH pre ->
  ~ In RBRACE title -> ~ In NL title ->
  re_sub (heading cmd) (with_group1 t)
    (pre ++ lit (cmd ++ "{") ++ title ++ lit "}" ++ post)
  = pre ++ lit t ++ title ++ re_sub (heading cmd) (with_group1 t) post.
Proof.
  intros Hc Hpre Hb Hn. rewrite <- command_segments.
  replace (lit cmd ++ braced title ++ post)
    with ((lit cmd ++ braced title) ++ post)
    by (rewrite <- app_assoc; reflexivity).
  rewrite (re_sub_first_match _ _ pre _ post [title]).
  - unfold with_group1, group1. simpl nth. rewrite <- app_assoc. reflexivity.
  - apply hd_lits. exact Hc.
  - rewrite heading_shape, no_bol_lits_app. reflexivity.
  - exact Hpre.
  - apply hd_not_nil. exact Hc.
  - unfold braced. repeat first [rewrite <- app_assoc | progress simpl app].
    rewrite match_heading by assumption. same_count.
Qed.

Lemma heading_before_whitespace l pre title post :
  markup_free pre -> markup_free title -> ~ In RBRACE title ->
  ~ In NL title -> markup_free post ->
  before_whitespace (pre ++ plain_heading l title ++ post)
  = pre ++ heading_line l title ++ post.
Proof.
  intros (Hs1 & Hp1 & Hd1) (Hs2 & Hp2 & Hd2) Hb Hn (Hs3 & Hp3 & Hd3).
  unfold plain_heading. rewrite <- app_assoc, command_segments.
  rewrite heading_line_marker, <- app_assoc. stages.
  destruct l; cbn [heading_command heading_marker];
    untouched;
    rewrite heading_label_passes
      by first [reflexivity | assumption
               | apply not_in_of_existsb; reflexivity];
    rewrite heading_construct by (reflexivity || assumption);
    untouched; reflexivity.
Qed.


Lemma whitespace_markup_free ws :
  Forall (fun c => isspace c = true) ws -> markup_free ws.
Proof.
  intro H. rewrite Forall_forall in H.
  repeat split; intro Hin; apply H in Hin; discriminate.
Qed.

Lemma match_spaced_heading_label cmd prev title ws label rest :
  ~ In RBRACE title -> ~ In NL title ->
  Forall (fun c => isspace c = true) ws ->
  ~ In RBRACE label -> ~ In NL label ->
  match_here (heading_label cmd) prev
    (lit cmd ++ LBRACE :: title ++ RBRACE :: ws ++ lit "\label{" ++ label
       ++ RBRACE :: rest)
  = Some (length (lit cmd)
          + (length title + (length ws + (length label + 10))), [title]).
Proof.
  intros Hb Hn Hw Hb' Hn'. rewrite heading_label_shape.
  rewrite match_lits, match_here_Lit, N.eqb_refl. unfold lazy_dot_group.
  rewrite (match_lazy_arg Dot true RBRACE _ _ title
             (ws ++ lit "\label{" ++ label ++ RBRACE :: rest)
             (length ws + (7 + (length label + 1))) []).
  - unfold shift, with_group, advance. same_count.
  - apply one_line_dot. exact Hn.
  - exact Hb.
  - unfold spaces0. rewrite match_here_Rep.
    rewrite (rep_greedy_all Space false _ ws
               (lit "\label{" ++ label ++ RBRACE :: rest) 0 _
               (7 + (length label + 1)) []).
    + reflexivity.
    + exact Hw.
    + reflexivity.
    + lia.
    + rewrite match_lits. unfold lazy_dot.
      rewrite (match_lazy_arg Dot false RBRACE [] _ label rest 0 []);
        [reflexivity|apply one_line_dot; exact Hn'|exact Hb'|reflexivity].
Qed.

Lemma spaced_heading_segments cmd title ws label post :
  lit cmd ++ braced title ++ ws ++ lit "\label" ++ braced label ++ post
  = lit (cmd ++ "{") ++ title ++ lit "}" ++ ws ++ lit "\label{" ++ label
      ++ lit "}" ++ post.
Proof.
  rewrite lit_app. unfold braced.
  repeat first [rewrite <- app_assoc | progress simpl]. reflexivity.
Qed.

Lemma heading_label_construct cmd t pre title ws label post :
  hd_error (lit cmd) = Some BACKSLASH -> ~ In BACKSLASH pre ->
  ~ In RBRACE title -> ~ In NL title ->
  Forall (fun c => isspace c = true) ws ->
  ~ In RBRACE label -> ~ In NL label ->
  re_sub (heading_label cmd) (with_group1 t)
    (pre ++ lit (cmd ++ "{") ++ title ++ lit "}" ++ ws ++ lit "\label{"
       ++ label ++ lit "}" ++ post)
  = pre ++ lit t ++ title ++ re_sub (heading_label cmd) (with_group1 t) post.
Proof.
  intros Hc Hpre Hb Hn Hw Hb' Hn'. rewrite <- spaced_heading_segments.
  replace (lit cmd ++ braced title ++ ws ++ lit "\label" ++ braced label ++ post)
    with ((lit cmd ++ braced title ++ ws ++ lit "\label" ++ braced label) ++ post)
    by (rewrite <- !app_assoc; reflexivity).
  rewrite (re_sub_first_match _ _ pre _ post [title]).
  - unfold with_group1, group1. simpl nth. rewrite <- app_assoc. reflexivity.
  - apply hd_lits. exact Hc.
  - apply heading_label_no_bol.
  - exact Hpre.
  - apply hd_not_nil. exact Hc.
  - pose proof (match_spaced_heading_label cmd None title ws label post
                  Hb Hn Hw Hb' Hn') as H.
    replace ((lit cmd ++ braced title ++ ws ++ lit "\label" ++ braced label)
             ++ post)
      with (lit cmd ++ LBRACE :: title ++ RBRACE :: ws ++ lit "\label{"
              ++ label ++ RBRACE :: post)
      by (unfold braced;
          repeat first [rewrite <- app_assoc | progress simpl]; reflexivity).
    rewrite H. unfold braced.
    repeat first [rewrite length_app | progress simpl length].
    f_equal. f_equal. lia.
Qed.

Lemma labeled_before_whitespace l pre title ws label post :
  markup_free pre -> markup_free title -> ~ In RBRACE title ->
  ~ In NL title -> Forall (fun c => isspace c = true) ws ->
  markup_free label -> ~ In RBRACE label -> ~ In NL label ->
  markup_free post ->
  before_whitespace (pre ++ spaced_labeled_heading l title ws label ++ post)
  = pre ++ heading_line l title ++ post.
Proof.
  intros (Hs1 & Hp1 & Hd1) (Hs2 & Hp2 & Hd2) Hb Hn Hw
    (Hs4 & Hp4 & Hd4) Hb' Hn' (Hs3 & Hp3 & Hd3).
  destruct (whitespace_markup_free ws Hw) as (Hs5 & Hp5 & Hd5).
  unfold spaced_labeled_heading.
  rewrite <- !app_assoc, spaced_heading_segments.
  rewrite heading_line_marker, <- app_assoc. stages.
  destruct l; cbn [heading_command heading_marker];
    untouched;
    rewrite heading_label_construct by (reflexivity || assumption);
    untouched; reflexivity.
Qed.

End HeadingsInContext.

Section Frame.

Lemma framed_before_whitespace pre opt cls preamble body post :
  markup_free pre ->
  markup_free opt -> ~ In RBRACKET opt -> ~ In NL opt ->
  markup_free cls -> ~ In RBRACE cls -> ~ In NL cls ->
  markup_free preamble -> markup_free body -> markup_free post ->
  before_whitespace (pre ++ framed_document opt cls preamble body ++ post)
  = pre ++ preamble ++ body ++ post.
Proof.
  intros (Hs1 & Hp1 & Hd1) (Hs2 & Hp2 & Hd2) Ho Hno
    (Hs4 & Hp4 & Hd4) Hb Hn (Hs5 & Hp5 & Hd5) (Hs6 & Hp6 & Hd6)
    (Hs3 & Hp3 & Hd3).
  assert (E : structure_stage
                (pre ++ framed_document opt cls preamble body ++ post)
              = pre ++ preamble ++ body ++ post).
  { unfold framed_document. rewrite <- !app_assoc, option_segments.
    unfold structure_stage.
    rewrite cmd_opt_arg_construct by (reflexivity || assumption).
    untouched. change (lit "") with (@nil char). rewrite app_nil_l.
    rewrite (app_assoc pre preamble).
    rewrite literal_construct;
      [|reflexivity|intro H; apply in_app_or in H; tauto].
    untouched. change (lit "") with (@nil char). rewrite app_nil_l.
    rewrite (app_assoc (pre ++ preamble) body).
    rewrite literal_construct;
      [|reflexivity|intro H; apply in_app_or in H;
                    destruct H as [H|H]; [apply in_app_or in H|]; tauto].
    untouched. change (lit "") with (@nil char). rewrite app_nil_l.
    rewrite <- !app_assoc. reflexivity. }
  unfold before_whitespace, up_to_headings. rewrite E.
  unfold notation_stage, layout_stage, float_stage, formatting_stage,
    math_stage, equation_stage, citation_stage, label_stage, heading_stage,
    custom_stage, comment_stage.
  untouched. reflexivity.
Qed.

End Frame.

(** * The math cleaner *)

Section MathCleaner.

Lemma clean_math_content_no_command m :
  no_command (clean_math_content m) = true.
Proof.
  rewrite clean_math_content_steps. apply no_command_strip, no_command_any_cmd.
Qed.

Lemma clean_math_content_fixed u :
  no_command u = true -> clean_math_content u = strip u.
Proof.
  intro H. rewrite clean_math_content_steps.
  rewrite (re_sub_no_command any_cmd_unwrap group1 u) by (reflexivity || exact H).
  rewrite (re_sub_no_command any_cmd (const "") u) by (reflexivity || exact H).
  reflexivity.
Qed.

Lemma clean_math_content_trimmed m :
  head_space (clean_math_content m) = false
  /\ head_space (rev (clean_math_content m)) = false.
Proof. unfold clean_math_content. split; [apply strip_head|apply strip_last]. Qed.

Lemma clean_math_content_idempotent m :
  clean_math_content (clean_math_content m) = clean_math_content m.
Proof.
  rewrite clean_math_content_fixed by apply clean_math_content_no_command.
  destruct (clean_math_content_trimmed m) as [H1 H2].
  apply strip_trimmed; assumption.
Qed.

End MathCleaner.

(** * Substitutions that stay on one line *)

Section Lines.

Variable v : text.

Lemma rep_line k greedy grp cont :
  in_cls k NL = false ->
  (forall prev u, cont prev (u ++ NL :: v) = cont prev u) ->
  forall u lo prev,
    rep k greedy grp cont lo prev (u ++ NL :: v)
    = rep k greedy grp cont lo prev u.
Proof.
  intros Hk Hc. induction u as [|c u IH]; intros lo prev.
  - rewrite rep_nil. simpl app. simpl rep. rewrite Hk.
    pose proof (Hc prev []) as E. simpl app in E. rewrite E.
    destruct greedy; [reflexivity|].
    destruct lo; [|reflexivity].
    destruct (open_group grp (cont prev [])); reflexivity.
  - change ((c :: u) ++ NL :: v) with (c :: (u ++ NL :: v)).
    simpl rep. rewrite IH.
    pose proof (Hc prev (c :: u)) as E.
    change ((c :: u) ++ NL :: v) with (c :: (u ++ NL :: v)) in E.
    rewrite E. reflexivity.
Qed.

Lemma match_here_line p :
  line_local p = true ->
  forall prev u, match_here p prev (u ++ NL :: v) = match_here p prev u.
Proof.
  induction p as [|a p IH]; intros Hp prev u; [reflexivity|].
  simpl in Hp. apply andb_true_iff in Hp. destruct Hp as [Ha Hp].
  specialize (IH Hp).
  destruct a as [c|k greedy lo grp| |].
  - simpl in Ha. apply negb_true_iff in Ha.
    destruct u as [|x u].
    + simpl app. rewrite match_here_Lit. rewrite N.eqb_sym, Ha. reflexivity.
    + change ((x :: u) ++ NL :: v) with (x :: (u ++ NL :: v)).
      rewrite !match_here_Lit, IH. reflexivity.
  - rewrite !match_here_Rep. apply rep_line; [|exact IH].
    destruct k; try discriminate; reflexivity.
  - rewrite !match_here_Bol, IH. reflexivity.
  - rewrite !match_here_Eol, IH.
    destruct u; reflexivity.
Qed.

(** A substitution with a pattern that stays on one line treats the text up
    to a line break as if it ended there, keeps the line break, and goes on
    after it. *)
Lemma sub_from_line p repl :
  line_local p = true ->
  forall u skip prev, skip <= length u ->
    sub_from p repl prev skip (u ++ NL :: v)
    = sub_from p repl prev skip u ++ NL :: sub_from p repl (Some NL) 0 v.
Proof.
  intros Hp. induction u as [|c u IH]; intros skip prev Hs.
  - simpl in Hs. assert (skip = 0) by lia. subst skip.
    simpl app. rewrite sub_from_cons.
    pose proof (match_here_line p Hp prev []) as E. simpl app in E.
    rewrite E. simpl sub_from.
    destruct (match_here p prev []) as [[n gs]|] eqn:F; [|reflexivity].
    apply match_here_length in F. simpl in F.
    assert (n = 0) by lia. subst n. reflexivity.
  - change ((c :: u) ++ NL :: v) with (c :: (u ++ NL :: v)).
    destruct skip as [|k].
    + rewrite !sub_from_cons.
      pose proof (match_here_line p Hp prev (c :: u)) as E.
      change ((c :: u) ++ NL :: v) with (c :: (u ++ NL :: v)) in E.
      rewrite E.
      destruct (match_here p prev (c :: u)) as [[n gs]|] eqn:F.
      * apply match_here_length in F. simpl in F.
        rewrite <- app_assoc. f_equal.
        destruct n as [|k].
        -- simpl. f_equal. apply IH. lia.
        -- apply IH. lia.
      * simpl. f_equal. apply IH. lia.
    + rewrite !sub_from_cons_skip. apply IH. simpl in Hs. lia.
Qed.

End Lines.

Section LineByLine.

Lemma rep_at_bol k greedy grp cont prev prev' :
  (forall s, cont prev s = cont prev' s) ->
  forall s lo, rep k greedy grp cont lo prev s = rep k greedy grp cont lo prev' s.
Proof.
  intros Hc s lo. destruct s as [|c s].
  - rewrite !rep_nil, Hc. reflexivity.
  - simpl rep. rewrite Hc. reflexivity.
Qed.

(** Only the start-of-line anchor looks at the character in front, and it
    only asks whether that character is a line break or missing. *)
Lemma match_here_at_bol p : forall prev prev' s,
  at_bol prev = at_bol prev' -> match_here p prev s = match_here p prev' s.
Proof.
  induction p as [|a p IH]; intros prev prev' s H; [reflexivity|].
  destruct a as [c|k greedy lo grp| |].
  - reflexivity.
  - rewrite !match_here_Rep. apply rep_at_bol. intro t. apply IH. exact H.
  - rewrite !match_here_Bol, H, (IH prev prev' s H). reflexivity.
  - rewrite !match_here_Eol, (IH prev prev' s H). reflexivity.
Qed.

Lemma sub_from_at_bol p repl prev prev' s :
  at_bol prev = at_bol prev' ->
  sub_from p repl prev 0 s = sub_from p repl prev' 0 s.
Proof.
  intro H. destruct s as [|c s].
  - simpl. rewrite (match_here_at_bol p prev prev' [] H). reflexivity.
  - rewrite !sub_from_cons, (match_here_at_bol p prev prev' _ H). reflexivity.
Qed.

Lemma re_sub_join_lines p repl :
  line_local p = true ->
  forall ls, ls <> [] ->
    re_sub p repl (join_lines ls) = join_lines (map (re_sub p repl) ls).
Proof.
  intros Hp. induction ls as [|l ls IH]; intro Hn; [congruence|].
  destruct ls as [|l' ls]; [reflexivity|].
  change (join_lines (l :: l' :: ls)) with (l ++ NL :: join_lines (l' :: ls)).
  change (join_lines (map (re_sub p repl) (l :: l' :: ls)))
    with (re_sub p repl l
          ++ NL :: join_lines (map (re_sub p repl) (l' :: ls))).
  unfold re_sub at 1. rewrite (sub_from_line _ p repl Hp l 0 None) by lia.
  rewrite (sub_from_at_bol p repl (Some NL) None) by reflexivity.
  rewrite !sub_from_re_sub, IH by discriminate. reflexivity.
Qed.

Lemma re_sub_by_lines p repl s :
  line_local p = true ->
  re_sub p repl s = join_lines (map (re_sub p repl) (split_lines s)).
Proof.
  intro Hp. rewrite <- (join_split s) at 1.
  apply re_sub_join_lines; [exact Hp|apply split_lines_not_nil].
Qed.

Lemma line_patterns_local : forallb line_local line_patterns = true.
Proof. reflexivity. Qed.

End LineByLine.

Section CommentsInText.

Lemma re_sub_line_middle p repl pre mid rest :
  line_local p = true -> hd_error p = Some (Lit BACKSLASH) ->
  no_bol p = true ->
  ~ In BACKSLASH pre -> ~ In BACKSLASH rest -> at_eol rest = true ->
  re_sub p repl (pre ++ mid ++ rest) = pre ++ re_sub p repl mid ++ rest.
Proof.
  intros Hl Hp Hb Hpre Hrest He. destruct p as [|a p']; [discriminate|].
  injection Hp as ->.
  rewrite re_sub_copy_free by assumption. f_equal.
  destruct rest as [|x rest]; [rewrite !app_nil_r; reflexivity|].
  simpl in He. apply N.eqb_eq in He. subst x.
  unfold re_sub. rewrite (sub_from_line rest _ repl Hl mid 0 None) by lia.
  f_equal. f_equal.
  rewrite (sub_from_at_bol _ repl (Some NL) None) by reflexivity.
  rewrite sub_from_re_sub. apply re_sub_free.
  intro H. apply Hrest. right. exact H.
Qed.

(** A substitution of lines 36-38 leaves a comment a comment: it changes
    nothing in front of the percent sign and adds no line break. *)
Lemma structure_step_comment p pre comment rest :
  line_local p = true -> hd_error p = Some (Lit BACKSLASH) ->
  no_bol p = true ->
  ~ In BACKSLASH pre -> ~ In NL comment ->
  ~ In BACKSLASH rest -> at_eol rest = true ->
  exists c', ~ In NL c' /\
    re_sub p (const "") (pre ++ (PERCENT :: comment) ++ rest)
    = pre ++ (PERCENT :: c') ++ rest.
Proof.
  intros Hl Hp Hb Hpre Hc Hrest He.
  exists (re_sub p (const "") comment). split.
  - apply not_in_of_Forall. apply re_sub_keeps.
    + intros gs _. constructor.
    + apply Forall_forall. intros c Hin E. subst c. exact (Hc Hin).
  - rewrite re_sub_line_middle by assumption. f_equal. f_equal.
    destruct p as [|a p']; [discriminate|]. injection Hp as ->.
    apply (re_sub_copy_free BACKSLASH p' (const "") [PERCENT] comment Hb).
    intros [H|[]]. discriminate.
Qed.

Lemma structure_stage_comment pre comment rest :
  ~ In BACKSLASH pre -> ~ In NL comment ->
  ~ In BACKSLASH rest -> at_eol rest = true ->
  exists c', ~ In NL c' /\
    structure_stage (pre ++ (PERCENT :: comment) ++ rest)
    = pre ++ (PERCENT :: c') ++ rest.
Proof.
  intros Hpre Hc Hrest He. unfold structure_stage.
  destruct (structure_step_comment (cmd_opt_arg "\documentclass")
              pre comment rest) as (c1 & H1 & E1);
    try reflexivity; try assumption.
  rewrite E1.
  destruct (structure_step_comment (lits "\begin{document}")
              pre c1 rest) as (c2 & H2 & E2);
    try reflexivity; try assumption.
  rewrite E2.
  apply structure_step_comment; try reflexivity; assumption.
Qed.

Lemma comment_stage_comment pre comment rest :
  ~ In PERCENT pre -> ~ In NL comment ->
  ~ In PERCENT rest -> at_eol rest = true ->
  comment_stage (pre ++ (PERCENT :: comment) ++ rest) = pre ++ rest.
Proof.
  intros Hpre Hc Hrest He. unfold comment_stage, comment_pattern.
  rewrite re_sub_copy_free; [|reflexivity|exact Hpre]. f_equal.
  rewrite (re_sub_match _ _ (PERCENT :: comment) rest []).
  - apply re_sub_free. exact Hrest.
  - reflexivity.
  - discriminate.
  - pose proof (match_comment None PERCENT comment rest Hc He) as H.
    rewrite N.eqb_refl in H. exact H.
Qed.

Lemma comment_before_whitespace pre comment rest :
  markup_free pre -> ~ In NL comment -> markup_free rest ->
  at_eol rest = true ->
  before_whitespace (pre ++ (PERCENT :: comment) ++ rest) = pre ++ rest.
Proof.
  intros (Hs1 & Hp1 & Hd1) Hc (Hs3 & Hp3 & Hd3) He.
  destruct (structure_stage_comment pre comment rest Hs1 Hc Hs3 He)
    as (c' & Hc' & E).
  unfold before_whitespace, up_to_headings.
  rewrite E, comment_stage_comment by assumption.
  unfold notation_stage, layout_stage, float_stage, formatting_stage,
    math_stage, equation_stage, citation_stage, label_stage, heading_stage,
    custom_stage.
  untouched. reflexivity.
Qed.

End CommentsInText.

Section MathInText.

Lemma no_backslash_no_command s : ~ In BACKSLASH s -> no_command s = true.
Proof.
  induction s as [|c s IH]; intro H; [reflexivity|].
  simpl. rewrite IH by (intro Hin; apply H; right; exact Hin).
  assert ((c =? BACKSLASH)%N = false) as ->
    by (apply N.eqb_neq; intro E; apply H; left; auto).
  reflexivity.
Qed.

Lemma strip_free (d : char) s : ~ In d s -> ~ In d (strip s).
Proof.
  intro H. apply not_in_of_Forall. apply strip_keeps.
  apply Forall_forall. intros c Hc E. subst c. exact (H Hc).
Qed.

Lemma math_before_whitespace pre m post :
  markup_free pre -> markup_free m -> markup_free post ->
  before_whitespace (pre ++ DOLLAR :: m ++ DOLLAR :: post)
  = pre ++ DOLLAR :: strip m ++ DOLLAR :: post.
Proof.
  intros (Hs1 & Hp1 & Hd1) (Hs2 & Hp2 & Hd2) (Hs3 & Hp3 & Hd3).
  pose proof (strip_free BACKSLASH m Hs2) as Hs4.
  pose proof (strip_free PERCENT m Hp2) as Hp4.
  change (pre ++ DOLLAR :: m ++ DOLLAR :: post)
    with (pre ++ lit "$" ++ m ++ lit "$" ++ post).
  change (pre ++ DOLLAR :: strip m ++ DOLLAR :: post)
    with (pre ++ lit "$" ++ strip m ++ lit "$" ++ post).
  unfold before_whitespace, up_to_headings, citation_stage, label_stage,
    heading_stage, custom_stage, comment_stage, structure_stage,
    equation_stage.
  untouched.
  change (pre ++ lit "$" ++ m ++ lit "$" ++ post)
    with (pre ++ DOLLAR :: m ++ DOLLAR :: post).
  rewrite math_stage_span by assumption.
  rewrite (math_stage_free post) by assumption.
  rewrite clean_math_content_fixed by (apply no_backslash_no_command; exact Hs2).
  change (pre ++ DOLLAR :: strip m ++ DOLLAR :: post)
    with (pre ++ lit "$" ++ strip m ++ lit "$" ++ post).
  unfold notation_stage, layout_stage, float_stage, formatting_stage.
  untouched. reflexivity.
Qed.

Lemma match_any_cmd_unwrap prev name arg rest :
  name <> [] -> Forall (fun c => isletter c = true) name ->
  ~ In RBRACE arg ->
  match_here any_cmd_unwrap prev (command name arg ++ rest)
  = Some (length (command name arg), [arg]).
Proof.
  intros Hn Hl Hb. rewrite command_app. unfold any_cmd_unwrap, command.
  rewrite match_here_Lit, N.eqb_refl.
  unfold letters1. rewrite match_here_Rep.
  rewrite (rep_greedy_all Letter false _ name (LBRACE :: arg ++ RBRACE :: rest)
             1 (Some BACKSLASH) (S (length arg + 1)) [arg]).
  - simpl. rewrite !length_app. simpl. rewrite !length_app. simpl.
    repeat f_equal; lia.
  - exact Hl.
  - reflexivity.
  - destruct name; [congruence|simpl; lia].
  - rewrite match_here_Lit, N.eqb_refl. unfold arg_group.
    rewrite match_here_Rep.
    rewrite (rep_greedy_all (NotCh RBRACE) true (match_here [Lit RBRACE]) arg
               (RBRACE :: rest) 0 _ 1 []).
    + reflexivity.
    + apply not_in_class_forall. exact Hb.
    + reflexivity.
    + simpl. lia.
    + rewrite match_here_Lit, N.eqb_refl. reflexivity.
Qed.

Lemma clean_math_content_unwraps pre name arg post :
  ~ In BACKSLASH pre ->
  name <> [] -> Forall (fun c => isletter c = true) name ->
  ~ In BACKSLASH arg -> ~ In RBRACE arg ->
  clean_math_content (pre ++ command name arg ++ post)
  = clean_math_content (pre ++ arg ++ post).
Proof.
  intros Hpre Hn Hl Ha Hb. unfold clean_math_content.
  assert (E1 : re_sub any_cmd_unwrap group1 (pre ++ command name arg ++ post)
               = pre ++ arg ++ re_sub any_cmd_unwrap group1 post).
  { rewrite (re_sub_first_match _ _ pre _ post [arg]).
    - reflexivity.
    - reflexivity.
    - reflexivity.
    - exact Hpre.
    - discriminate.
    - apply match_any_cmd_unwrap; assumption. }
  assert (E2 : re_sub any_cmd_unwrap group1 (pre ++ arg ++ post)
               = pre ++ arg ++ re_sub any_cmd_unwrap group1 post).
  { unfold any_cmd_unwrap.
    rewrite re_sub_copy_free; [|reflexivity|exact Hpre]. f_equal.
    apply re_sub_copy_free; [reflexivity|exact Ha]. }
  rewrite E1, E2. reflexivity.
Qed.

End MathInText.

(** * Bare commands in the math cleaner *)

Section BareCommandsInMath.

Lemma rep_stuck k greedy grp cont lo prev s :
  match s with c :: _ => in_cls k c | [] => false end = false ->
  rep k greedy grp cont lo prev s
  = match lo with
    | O => open_group grp (cont prev s)
    | S _ => None
    end.
Proof.
  intro H. destruct s as [|c s]; [apply rep_nil|].
  simpl rep. rewrite H. destruct greedy; [reflexivity|].
  destruct lo; [|reflexivity].
  destruct (open_group grp (cont prev (c :: s))); reflexivity.
Qed.

Lemma letter_not_brace c : isletter c = true -> c <> LBRACE.
Proof. intros H E. subst c. discriminate. Qed.

Lemma letter_not_backslash c : isletter c = true -> c <> BACKSLASH.
Proof. intros H E. subst c. discriminate. Qed.

Lemma letters_no_backslash name :
  Forall (fun c => isletter c = true) name -> ~ In BACKSLASH name.
Proof.
  intros H Hin. rewrite Forall_forall in H. apply H in Hin. discriminate.
Qed.

Lemma letter_run_app name v :
  Forall (fun c => isletter c = true) name -> head_letter v = false ->
  letter_run (name ++ v) = length name.
Proof.
  intros Hn Hv. induction Hn as [|c name Hc Hn IH]; simpl.
  - apply letter_run_0. exact Hv.
  - rewrite Hc, IH. reflexivity.
Qed.

(** The pattern of line 129 fails on a command name that no opening brace
    follows. *)
Lemma match_any_cmd_unwrap_bare prev name v :
  Forall (fun c => isletter c = true) name ->
  head_letter v = false -> hd_error v <> Some LBRACE ->
  match_here any_cmd_unwrap prev (BACKSLASH :: name ++ v) = None.
Proof.
  intros Hn Hl Hb. unfold any_cmd_unwrap.
  rewrite match_here_Lit, N.eqb_refl. unfold letters1.
  rewrite match_here_Rep, rep_app_fail; [reflexivity| |].
  - intros u1 u2 prev' E Hne. apply match_here_first_app; [|exact Hne].
    intro Hin. assert (Hin' : In LBRACE name)
      by (rewrite E; apply in_or_app; right; exact Hin).
    rewrite Forall_forall in Hn. apply Hn in Hin'. discriminate.
  - intros lo prev'. rewrite rep_stuck.
    + destruct lo; [|reflexivity].
      destruct v as [|x v]; [reflexivity|].
      rewrite match_here_first; [reflexivity|].
      intro E. apply Hb. simpl. congruence.
    + destruct v as [|x v]; [reflexivity|exact Hl].
Qed.

Lemma head_unwrapped v :
  hd_error v <> Some BACKSLASH ->
  head_letter (re_sub any_cmd_unwrap group1 v) = head_letter v.
Proof.
  intro H. destruct v as [|x v]; [reflexivity|].
  unfold re_sub, any_cmd_unwrap. rewrite sub_from_cons_copy; [reflexivity|].
  apply match_here_first. intro E. apply H. simpl. congruence.
Qed.

(** Lines 129 and 130 on a bare command between a text without backslash
    and a text that does not go on with a letter, an opening brace or a
    backslash. *)
Lemma clean_math_content_deletes pre name v :
  ~ In BACKSLASH pre ->
  name <> [] -> Forall (fun c => isletter c = true) name ->
  head_letter v = false -> hd_error v <> Some LBRACE ->
  hd_error v <> Some BACKSLASH ->
  clean_math_content (pre ++ BACKSLASH :: name ++ v)
  = clean_math_content (pre ++ v).
Proof.
  intros Hpre Hne Hn Hl Hb Hs.
  pose proof (letters_no_backslash name Hn) as Hnb.
  rewrite !clean_math_content_steps. f_equal.
  assert (E1 : re_sub any_cmd_unwrap group1 (pre ++ BACKSLASH :: name ++ v)
               = pre ++ (BACKSLASH :: name)
                   ++ re_sub any_cmd_unwrap group1 v).
  { unfold any_cmd_unwrap at 1.
    rewrite re_sub_copy_free; [|reflexivity|exact Hpre]. f_equal.
    unfold re_sub at 1.
    rewrite sub_from_cons_copy
      by (apply (match_any_cmd_unwrap_bare None name v); assumption).
    simpl app. f_equal.
    rewrite (sub_from_prev _ _ (eq_refl : no_bol any_cmd_unwrap = true)
               _ _ None), sub_from_re_sub.
    apply re_sub_copy_free; [reflexivity|exact Hnb]. }
  assert (E2 : re_sub any_cmd_unwrap group1 (pre ++ v)
               = pre ++ re_sub any_cmd_unwrap group1 v).
  { apply re_sub_copy_free; [reflexivity|exact Hpre]. }
  rewrite E1, E2.
  rewrite (re_sub_first_match any_cmd (const "") pre (BACKSLASH :: name)
             (re_sub any_cmd_unwrap group1 v) []).
  - simpl app. symmetry. apply re_sub_copy_free; [reflexivity|exact Hpre].
  - reflexivity.
  - reflexivity.
  - exact Hpre.
  - discriminate.
  - simpl app. rewrite match_any_cmd, N.eqb_refl.
    assert (Hh : head_letter (re_sub any_cmd_unwrap group1 v) = false)
      by (rewrite head_unwrapped; assumption).
    rewrite (letter_run_app name _ Hn Hh).
    destruct name as [|c name]; [congruence|].
    inversion Hn; subst. simpl. rewrite H1. reflexivity.
Qed.

End BareCommandsInMath.

(** * The claims of the specification *)

(** C1 (as amended): when the block math stage runs, the first block math
    environment of the text (no such environment begins before it), taken
    from its begin to the first following end of its kind, is replaced by
    exactly one placeholder, whatever its body holds and however many lines
    it spans, provided no environment of a kind handled earlier in the stage
    begins inside it; the stage then goes on with the text after it.  A text
    that is one such environment, with no backslash and no percent sign in
    its body, converts to exactly the placeholder, and so does the scenario
    of the specification. *)
Theorem block_math_becomes_one_placeholder :
  forall k pre body post,
    Forall (fun j => begins_none j pre) [Equation; Align; Split] ->
    occurs (env_end k) body = false ->
    Forall (fun j => begins_none j body) (replaced_before k) ->
    equation_stage (pre ++ block k body ++ post)
    = pre ++ lit PLACEHOLDER ++ equation_stage post
    /\ (~ In BACKSLASH body -> ~ In PERCENT body ->
        process_latex_file (block k body) = lit PLACEHOLDER)
    /\ process_latex_file
         (lit ("\begin{equation}" ++ nl ++ "x = y + z" ++ nl ++ "\end{equation}"))
       = lit "<EQN HERE>".
Proof.
  intros k pre body post Hpre He Hb. split; [|split].
  - apply equation_stage_block; assumption.
  - apply block_alone.
  - vm_compute. reflexivity.
Qed.

Lemma block_math_becomes_one_placeholder_witness :
  equation_stage
    (lit "See \textbf{this}: "
     ++ block Align (lit ("a &= \frac{1}{2} \\" ++ nl ++ "b &= c"))
     ++ lit " and so on.")
  = lit "See \textbf{this}: " ++ lit PLACEHOLDER
      ++ equation_stage (lit " and so on.")
  /\ process_latex_file (block Split (lit ("a &= b" ++ nl ++ "c &= d")))
     = lit PLACEHOLDER.
Proof.
  split.
  - apply (block_math_becomes_one_placeholder Align
             (lit "See \textbf{this}: ")
             (lit ("a &= \frac{1}{2} \\" ++ nl ++ "b &= c"))
             (lit " and so on.")).
    + repeat (apply Forall_cons; [vm_compute; reflexivity|]). apply Forall_nil.
    + vm_compute. reflexivity.
    + repeat (apply Forall_cons; [vm_compute; reflexivity|]). apply Forall_nil.
  - refine (proj1 (proj2 (block_math_becomes_one_placeholder Split []
                            (lit ("a &= b" ++ nl ++ "c &= d")) [] _ _ _)) _ _).
    + repeat (apply Forall_cons; [vm_compute; reflexivity|]). apply Forall_nil.
    + vm_compute. reflexivity.
    + repeat (apply Forall_cons; [vm_compute; reflexivity|]). apply Forall_nil.
    + apply not_in_of_existsb. vm_compute. reflexivity.
    + apply not_in_of_existsb. vm_compute. reflexivity.
Defined.

(** C1, the claim as stated fails for the whole conversion: a one-line
    equation that holds an escaped percent sign loses its end to the comment
    stage and is not replaced, and an equation inside a figure is deleted
    with the figure. *)
Lemma block_math_without_placeholder :
  process_latex_file (lit "\begin{equation}a = 5\%\end{equation}") = lit "a = 5\"
  /\ process_latex_file
       (lit "\begin{figure}\begin{equation}x\end{equation}\end{figure}") = [].
Proof. split; vm_compute; reflexivity. Qed.

(** C2 (as amended): for every title and label without backslash, closing
    brace, percent sign and line break, and for each of the three sectioning
    commands, the labeled heading and the heading alone convert to the same
    text, which is also what the heading line of depth 1, 2 or 3 (that many
    hash signs, a space, the title) converts to; the label leaves no trace.
    When the title also has no dollar sign, is not empty and does not end
    with whitespace, that text is exactly the heading line. *)
Theorem labeled_heading_same_as_plain :
  forall l title label,
    plain title -> plain label ->
    process_latex_file (labeled_heading l title label)
    = process_latex_file (plain_heading l title)
    /\ process_latex_file (plain_heading l title)
       = process_latex_file (heading_line l title)
    /\ (~ In DOLLAR title -> title <> [] -> isspace (last title NL) = false ->
        process_latex_file (plain_heading l title) = heading_line l title).
Proof.
  intros l title label Ht Hl.
  assert (E1 : process_latex_file (labeled_heading l title label)
               = process_latex_file (heading_line l title)).
  { apply process_latex_file_up_to_headings.
    rewrite up_to_headings_labeled by assumption.
    destruct Ht as (Hs & _ & Hp & _).
    rewrite up_to_headings_line by assumption. reflexivity. }
  assert (E0 : process_latex_file (plain_heading l title)
               = process_latex_file (heading_line l title)).
  { apply process_latex_file_up_to_headings.
    rewrite up_to_headings_plain by assumption.
    destruct Ht as (Hs & _ & Hp & _).
    rewrite up_to_headings_line by assumption. reflexivity. }
  split; [congruence|]. split; [exact E0|].
  intros Hd Hn Hw. rewrite E0.
  destruct Ht as (Hs & _ & Hp & Hnl).
  apply heading_line_fixed; assumption.
Qed.

Lemma labeled_heading_same_as_plain_witness :
  process_latex_file
    (labeled_heading Level2 (lit "Related work") (lit "sec:related"))
  = process_latex_file (plain_heading Level2 (lit "Related work"))
  /\ process_latex_file (plain_heading Level2 (lit "Related work"))
     = lit "## Related work".
Proof.
  assert (Ht : plain (lit "Related work"))
    by (repeat split; apply not_in_of_existsb; vm_compute; reflexivity).
  assert (Hl : plain (lit "sec:related"))
    by (repeat split; apply not_in_of_existsb; vm_compute; reflexivity).
  destruct (labeled_heading_same_as_plain Level2 (lit "Related work")
              (lit "sec:related") Ht Hl) as (E1 & _ & E3).
  split; [exact E1|].
  apply E3.
  - apply not_in_of_existsb. vm_compute. reflexivity.
  - vm_compute. discriminate.
  - vm_compute. reflexivity.
Defined.

(** C2, the claim as stated fails: with a closing brace inside the title the
    labeled pattern takes the title up to the brace before the label, the
    plain pattern only up to the first closing brace. *)
Lemma labeled_heading_differs_from_plain :
  process_latex_file (labeled_heading Level1 (lit "Results for $x_{1}$") (lit "sec:res"))
  = lit "# Results for $x_{1}$"
  /\ process_latex_file (plain_heading Level1 (lit "Results for $x_{1}$"))
     = lit "# Results for $x_{1$}"
  /\ process_latex_file (labeled_heading Level1 (lit "Results for $x_{1}$") (lit "sec:res"))
     <> process_latex_file (plain_heading Level1 (lit "Results for $x_{1}$")).
Proof.
  repeat split; try (vm_compute; reflexivity).
  vm_compute. discriminate.
Qed.

(** C3 (as amended): the inline math stage (line 74) rewrites every span
    that is present when it runs: the text before the first dollar sign is
    kept, the span keeps both dollar signs around its cleaned interior, and
    the stage goes on after the closing dollar sign.  The cleaning,
    [clean_math_content], does the following, in this order.
    (a) Line 129 replaces a command with a brace argument by its argument:
    the first one of a text, and so one after the other, whatever its name,
    for an argument without backslash and closing brace.
    (b) Line 130 deletes a bare command, when no letter, opening brace or
    backslash directly follows it; after (a) and (b) no backslash directly
    followed by a letter is left.
    (c), (d) Lines 133-135 then find nothing to do: the result is the trim
    of what lines 129 and 130 leave.
    (e) Line 137 trims: the result does not begin or end with whitespace,
    and a text without command token is only trimmed.
    The scenario of the specification holds for the whole conversion. *)
Theorem inline_math_stage_cleans_span :
  forall pre m post,
    ~ In DOLLAR pre -> ~ In DOLLAR m ->
    math_stage (pre ++ DOLLAR :: m ++ DOLLAR :: post)
    = pre ++ DOLLAR :: clean_math_content m ++ DOLLAR :: math_stage post
    /\ (forall u name arg v,
          ~ In BACKSLASH u -> name <> [] ->
          Forall (fun c => isletter c = true) name ->
          ~ In BACKSLASH arg -> ~ In RBRACE arg ->
          clean_math_content (u ++ command name arg ++ v)
          = clean_math_content (u ++ arg ++ v))
    /\ (forall u name v,
          ~ In BACKSLASH u -> name <> [] ->
          Forall (fun c => isletter c = true) name ->
          head_letter v = false -> hd_error v <> Some LBRACE ->
          hd_error v <> Some BACKSLASH ->
          clean_math_content (u ++ BACKSLASH :: name ++ v)
          = clean_math_content (u ++ v))
    /\ no_command (clean_math_content m) = true
    /\ clean_math_content m
       = strip (re_sub any_cmd (const "") (re_sub any_cmd_unwrap group1 m))
    /\ head_space (clean_math_content m) = false
    /\ head_space (rev (clean_math_content m)) = false
    /\ (no_command m = true -> clean_math_content m = strip m)
    /\ process_latex_file (lit "The value $\mathbf{v}$ is large\cite{foo}.")
       = lit "The value $v$ is large.".
Proof.
  intros pre m post Hpre Hm.
  destruct (clean_math_content_trimmed m) as [Hh Hl].
  refine (conj _ (conj _ (conj _ (conj _ (conj _ (conj Hh (conj Hl
            (conj _ _)))))))).
  - apply math_stage_span; assumption.
  - apply clean_math_content_unwraps.
  - apply clean_math_content_deletes.
  - apply clean_math_content_no_command.
  - apply clean_math_content_steps.
  - apply clean_math_content_fixed.
  - vm_compute. reflexivity.
Qed.

Lemma inline_math_stage_cleans_span_witness :
  math_stage
    (lit "The value " ++ DOLLAR :: lit " \alpha + \mathbf{v} "
     ++ DOLLAR :: lit " is large.")
  = lit "The value $+ v$ is large."
  /\ clean_math_content (lit " \alpha + \mathbf{v} ") = lit "+ v"
  /\ clean_math_content (lit " \alpha + " ++ command (lit "mathbf") (lit "v") ++ lit " ")
     = clean_math_content (lit " \alpha + " ++ lit "v" ++ lit " ")
  /\ process_latex_file (lit "The value $\mathbf{v}$ is large\cite{foo}.")
     = lit "The value $v$ is large.".
Proof.
  assert (Hpre : ~ In DOLLAR (lit "The value "))
    by (apply not_in_of_existsb; vm_compute; reflexivity).
  assert (Hm : ~ In DOLLAR (lit " \alpha + \mathbf{v} "))
    by (apply not_in_of_existsb; vm_compute; reflexivity).
  destruct (inline_math_stage_cleans_span (lit "The value ")
              (lit " \alpha + \mathbf{v} ") (lit " is large.") Hpre Hm)
    as (E1 & _ & _ & _ & E5 & _ & _ & _ & E9).
  split; [rewrite E1; vm_compute; reflexivity|].
  split; [rewrite E5; vm_compute; reflexivity|].
  split; [|exact E9].
  vm_compute. reflexivity.
Defined.

(** C3, the claim as stated fails for the whole conversion: a span inside
    the argument of a command without a rule of its own is deleted with that
    command; a span that holds an escaped percent sign loses its closing
    dollar sign to the comment stage; and a citation inside a span is removed
    before the span is cleaned, so its key is not kept. *)
Lemma inline_math_span_not_preserved :
  process_latex_file (lit "\emph{$x$}") = []
  /\ process_latex_file (lit "$5\%$") = lit "$5\"
  /\ process_latex_file (lit "$x\cite{a}$") = lit "$x$"
  /\ clean_math_content (lit "x\cite{a}") = lit "xa".
Proof. repeat split; vm_compute; reflexivity. Qed.

(** C4: a citation right after a tilde.  Line 62 deletes the citation before
    line 63 looks for the tilde form, so the tilde stays. *)
Theorem tilde_before_citation_survives :
  process_latex_file (lit "See~\cite{foo}.") = lit "See~."
  /\ citation_stage (lit "See~\cite{foo}.") = lit "See~."
  /\ re_sub (cmd_arg "~\cite") (const "") (lit "See~\cite{foo}.") = lit "See.".
Proof. repeat split; vm_compute; reflexivity. Qed.

(** C5 (as amended): the conversion is a total function, so no input makes
    it fail; and the catch-all stage deletes the first command of a text
    together with its brace argument, leaving the text before it (which
    holds no command token and does not end with a backslash) and going on
    with the text after it, whenever the argument holds no closing brace and
    no line break.  The scenario of the specification is an instance through
    the whole conversion. *)
Theorem catch_all_removes_command_with_argument :
  forall pre name arg post,
    no_command pre = true -> last pre SPACE <> BACKSLASH ->
    name <> [] -> Forall (fun c => isletter c = true) name ->
    ~ In RBRACE arg -> ~ In NL arg ->
    catch_all_stage (pre ++ command name arg ++ post)
    = pre ++ catch_all_stage post
    /\ process_latex_file (lit "a \unknownCmd{arg} b") = lit "a  b".
Proof.
  intros pre name arg post Hpre Hlast Hn Hl Hb Hnl. split.
  - apply catch_all_command; assumption.
  - vm_compute. reflexivity.
Qed.

Lemma catch_all_removes_command_with_argument_witness :
  catch_all_stage (lit "a " ++ command (lit "unknownCmd") (lit "arg") ++ lit " b")
  = lit "a " ++ catch_all_stage (lit " b")
  /\ process_latex_file (lit "a \unknownCmd{arg} b") = lit "a  b".
Proof.
  apply catch_all_removes_command_with_argument.
  - vm_compute. reflexivity.
  - vm_compute. discriminate.
  - vm_compute. discriminate.
  - vm_compute. repeat (apply Forall_cons; [reflexivity|]). apply Forall_nil.
  - apply not_in_of_existsb. vm_compute. reflexivity.
  - apply not_in_of_existsb. vm_compute. reflexivity.
Defined.

(** C5, the claim as stated fails: an argument with nested braces is only
    removed up to its first closing brace, and an argument that spans two
    lines is not removed at all. *)
Lemma catch_all_leaves_part_of_argument :
  process_latex_file (lit "a \unknownCmd{x{y}z} b") = lit "a z} b"
  /\ process_latex_file (lit ("a \unknownCmd{x" ++ nl ++ "y} b"))
     = lit ("a {x" ++ nl ++ "y} b").
Proof. split; vm_compute; reflexivity. Qed.

(** C6 (as amended): on every line, the comment stage removes exactly the
    content from the first percent sign of that line, escaped or not, to the
    end of that line; line breaks and lines without a percent sign are kept. *)
Theorem comment_stage_cuts_each_line :
  forall content,
    comment_stage content
    = join_lines (map cut_comment (split_lines content)).
Proof. exact comment_stage_by_lines. Qed.

(** C6, the claim as stated fails: a percent sign preceded by a backslash
    still removes the rest of its line. *)
Lemma escaped_percent_is_cut :
  comment_stage (lit "50\% off") = lit "50\"
  /\ process_latex_file (lit "50\% off") = lit "50\".
Proof. split; vm_compute; reflexivity. Qed.

(** C7: the first scenario of the specification. *)
Theorem scenario_labeled_section_and_bold :
  process_latex_file
    (lit ("\section{Intro}\label{sec:intro}" ++ nl ++ "Hello \textbf{world}."))
  = lit ("# Intro" ++ nl ++ "Hello world.").
Proof. vm_compute. reflexivity. Qed.

(** C8: three blank lines between two paragraphs.  Line 102 leaves one blank
    line, and line 103 then deletes it, since a line break is whitespace and
    the start-of-line anchor also holds at the start of a blank line. *)
Theorem blank_lines_are_all_removed :
  process_latex_file (lit ("A" ++ nl ++ nl ++ nl ++ nl ++ "B"))
  = lit ("A" ++ nl ++ "B")
  /\ re_sub blank_lines_pattern (const (nl ++ nl))
       (lit ("A" ++ nl ++ nl ++ nl ++ nl ++ "B"))
     = lit ("A" ++ nl ++ nl ++ "B")
  /\ re_sub leading_pattern (const "") (lit ("A" ++ nl ++ nl ++ "B"))
     = lit ("A" ++ nl ++ "B").
Proof. repeat split; vm_compute; reflexivity. Qed.

(** C9 (as amended): the conversion is idempotent on every output that holds
    no dollar sign, no blank line and no line that begins or ends with
    whitespace.  (A command token or a percent sign is never left in an
    output, so the claim's own condition always holds.) *)
Theorem second_pass_changes_nothing :
  forall content,
    ~ In DOLLAR (process_latex_file content) ->
    tidy_lines (process_latex_file content) = true ->
    process_latex_file (process_latex_file content)
    = process_latex_file content.
Proof.
  intros content Hd Ht. apply process_latex_file_fixed.
  - apply process_latex_file_no_command.
  - apply not_in_of_Forall. apply process_latex_file_no_percent.
  - exact Hd.
  - exact Ht.
Qed.

Lemma second_pass_changes_nothing_witness :
  process_latex_file
    (process_latex_file
       (lit ("\section{Intro}\label{sec:intro}" ++ nl ++ "Hello \textbf{world}.")))
  = process_latex_file
      (lit ("\section{Intro}\label{sec:intro}" ++ nl ++ "Hello \textbf{world}.")).
Proof.
  apply second_pass_changes_nothing.
  - apply not_in_of_existsb. vm_compute. reflexivity.
  - vm_compute. reflexivity.
Defined.

(** C9, the claim as stated fails: this output holds no backslash at all,
    and a second pass still changes it. *)
Lemma second_pass_changes_output :
  process_latex_file (lit ("a" ++ nl ++ "\x b")) = lit ("a" ++ nl ++ " b")
  /\ no_command (process_latex_file (lit ("a" ++ nl ++ "\x b"))) = true
  /\ ~ In BACKSLASH (process_latex_file (lit ("a" ++ nl ++ "\x b")))
  /\ process_latex_file (process_latex_file (lit ("a" ++ nl ++ "\x b")))
     <> process_latex_file (lit ("a" ++ nl ++ "\x b")).
Proof.
  repeat split; try (vm_compute; reflexivity).
  - apply not_in_of_existsb. vm_compute. reflexivity.
  - vm_compute. discriminate.
Qed.

(** C10: the text returned by the conversion never contains a backslash
    immediately followed by an ASCII letter: the last substitution deletes
    every such token, what follows a deleted token is not a letter, and the
    final trim only removes characters at both ends. *)
Theorem output_has_no_command_token :
  forall content pre c post,
    process_latex_file content = pre ++ BACKSLASH :: c :: post ->
    isletter c = false.
Proof.
  intros content pre c post E.
  apply (no_command_spec (process_latex_file content) pre c post); [|exact E].
  unfold process_latex_file, catch_all_stage.
  apply no_command_strip, no_command_any_cmd.
Qed.

Lemma output_has_no_command_token_witness : isletter BACKSLASH = false.
Proof.
  apply (output_has_no_command_token (lit "a\\ b") (lit "a") BACKSLASH (lit " b")).
  vm_compute. reflexivity.
Defined.

(** Proves that a concrete text is free of markup. *)
Ltac concrete_markup_free :=
  repeat split; apply not_in_of_existsb; reflexivity.

(** * Further properties of the two functions

    These are read off the code of [process_latex_file] and
    [clean_math_content]; they are not part of the specification's list. *)

(** X1: the whitespace clean-up of lines 102-104 always leaves a text with
    tidy lines: it does not start with whitespace, no line break is followed
    by whitespace (so no line is blank and no line starts with whitespace),
    and no whitespace stands in front of a line break or at the end.  Applied
    to its own result it changes nothing. *)
Theorem whitespace_stage_leaves_tidy_lines :
  forall s,
    tidy_lines (whitespace_stage s) = true
    /\ whitespace_stage (whitespace_stage s) = whitespace_stage s.
Proof.
  intro s. split.
  - apply whitespace_stage_tidy.
  - apply whitespace_stage_fixed, whitespace_stage_tidy.
Qed.

(** X2: the text written by the conversion never begins and never ends with
    a whitespace character (line 111). *)
Theorem output_is_trimmed :
  forall content,
    head_space (process_latex_file content) = false
    /\ head_space (rev (process_latex_file content)) = false.
Proof.
  intro content. unfold process_latex_file.
  split; [apply strip_head|apply strip_last].
Qed.

(** X3: the text written by the conversion never holds a percent sign: line
    41 deletes every one of them with the rest of its line, and no later
    step adds one. *)
Theorem output_has_no_percent_sign :
  forall content, ~ In PERCENT (process_latex_file content).
Proof.
  intro content. apply not_in_of_Forall.
  apply process_latex_file_no_percent.
Qed.

(** X4: every character of the text written by the conversion is a
    character of the text read, or one of the characters of the heading
    markers and of the placeholder, [# <EQN HERE>]. *)
Theorem output_characters_come_from_input :
  forall content,
    Forall (fun c => In c content \/ In c template_chars)
      (process_latex_file content).
Proof.
  intro content. apply process_latex_file_keeps.
  - apply Forall_forall. intros c Hc. right. exact Hc.
  - apply Forall_forall. intros c Hc. left. exact Hc.
Qed.

(** X5: a text that holds no command token (no backslash directly followed
    by a letter), no percent sign and no dollar sign, and whose lines are
    tidy, is written out exactly as it was read. *)
Theorem tidy_text_without_markup_is_unchanged :
  forall u,
    no_command u = true -> ~ In PERCENT u -> ~ In DOLLAR u ->
    tidy_lines u = true ->
    process_latex_file u = u.
Proof. exact process_latex_file_fixed. Qed.

Lemma tidy_text_without_markup_is_unchanged_witness :
  process_latex_file (lit ("# Title" ++ nl ++ "Some text, 50\\ or a_{1}."))
  = lit ("# Title" ++ nl ++ "Some text, 50\\ or a_{1}.").
Proof.
  apply tidy_text_without_markup_is_unchanged.
  - vm_compute. reflexivity.
  - apply not_in_of_existsb. vm_compute. reflexivity.
  - apply not_in_of_existsb. vm_compute. reflexivity.
  - vm_compute. reflexivity.
Defined.

(** X6: in [clean_math_content] the substitutions of lines 133-135 never
    change anything: line 130 has already deleted every backslash that is
    followed by a letter, so the result is the trim of what lines 129 and
    130 leave. *)
Theorem clean_math_last_substitutions_are_idle :
  forall m,
    clean_math_content m
    = strip (re_sub any_cmd (const "") (re_sub any_cmd_unwrap group1 m)).
Proof. exact clean_math_content_steps. Qed.

(** X7: the result of [clean_math_content] holds no command token, does not
    begin or end with whitespace, and cleaning it again changes nothing. *)
Theorem clean_math_content_is_clean :
  forall m,
    no_command (clean_math_content m) = true
    /\ head_space (clean_math_content m) = false
    /\ head_space (rev (clean_math_content m)) = false
    /\ clean_math_content (clean_math_content m) = clean_math_content m.
Proof.
  intro m. split; [apply clean_math_content_no_command|].
  destruct (clean_math_content_trimmed m) as [H1 H2].
  split; [exact H1|]. split; [exact H2|].
  apply clean_math_content_idempotent.
Qed.

(** X8: for a text without any backslash, the catch-all of lines 107-108 and
    the trim of line 111 find nothing to do: the text written is what the
    whitespace clean-up of lines 102-104 leaves, and its lines are tidy. *)
Theorem text_without_backslash_gives_tidy_output :
  forall content,
    ~ In BACKSLASH content ->
    process_latex_file content = whitespace_stage (before_whitespace content)
    /\ tidy_lines (process_latex_file content) = true.
Proof.
  intros content H. rewrite (no_backslash_result content H).
  split; [reflexivity|apply whitespace_stage_tidy].
Qed.

Lemma text_without_backslash_gives_tidy_output_witness :
  process_latex_file (lit ("  a $x$  " ++ nl ++ nl ++ " b % c"))
  = whitespace_stage (before_whitespace (lit ("  a $x$  " ++ nl ++ nl ++ " b % c")))
  /\ tidy_lines (process_latex_file (lit ("  a $x$  " ++ nl ++ nl ++ " b % c")))
     = true.
Proof.
  apply text_without_backslash_gives_tidy_output.
  apply not_in_of_existsb. vm_compute. reflexivity.
Defined.

(** X9: a text without backslash, percent sign and dollar sign only has its
    whitespace cleaned up: the conversion is the three substitutions of
    lines 102-104 and nothing else. *)
Theorem text_without_markup_only_has_whitespace_cleaned :
  forall s, markup_free s -> process_latex_file s = whitespace_stage s.
Proof.
  intros s H. destruct H as (Hs & Hp & Hd).
  rewrite (no_backslash_result s Hs).
  rewrite before_whitespace_plain by (repeat split; assumption).
  reflexivity.
Qed.

Lemma text_without_markup_only_has_whitespace_cleaned_witness :
  process_latex_file (lit (" one  " ++ nl ++ nl ++ nl ++ "  two {x} "))
  = whitespace_stage (lit (" one  " ++ nl ++ nl ++ nl ++ "  two {x} ")).
Proof.
  apply text_without_markup_only_has_whitespace_cleaned.
  concrete_markup_free.
Defined.

(** X10: a styling command of lines 77-79, 98 and 99 ([\textit], [\textbf],
    [\text], [\mathbf], [\vec]) between two texts without markup is replaced
    by its argument, which may span several lines but holds no closing brace
    and no markup: the conversion gives the same text as without the
    command. *)
Theorem styling_command_is_unwrapped :
  forall cmd pre arg post,
    In cmd styling_commands ->
    markup_free pre -> markup_free arg -> ~ In RBRACE arg ->
    markup_free post ->
    process_latex_file (pre ++ lit cmd ++ braced arg ++ post)
    = process_latex_file (pre ++ arg ++ post).
Proof.
  intros cmd pre arg post Hin Hpre Harg Hb Hpost.
  apply process_latex_file_before_whitespace.
  rewrite styling_before_whitespace by assumption.
  symmetry. apply before_whitespace_plain.
  repeat apply markup_free_app; assumption.
Qed.

Lemma styling_command_is_unwrapped_witness :
  process_latex_file
    (lit "Hello " ++ lit "\textbf" ++ braced (lit ("big" ++ nl ++ "world"))
     ++ lit ".")
  = process_latex_file (lit "Hello " ++ lit ("big" ++ nl ++ "world") ++ lit ".").
Proof.
  apply styling_command_is_unwrapped.
  - right. left. reflexivity.
  - concrete_markup_free.
  - concrete_markup_free.
  - apply not_in_of_existsb. reflexivity.
  - concrete_markup_free.
Defined.

(** X11: a command of lines 44, 59, 62, 64, 65 and 91 ([\myCover], [\label],
    [\cite], [\Cref], [\cref], [\caption]) between two texts without markup
    is deleted together with its argument, when the argument is on one line
    and holds no closing brace and no markup: the conversion gives the same
    text as without the command. *)
Theorem command_with_argument_is_deleted :
  forall cmd pre arg post,
    In cmd removed_commands ->
    markup_free pre -> markup_free arg -> ~ In RBRACE arg -> ~ In NL arg ->
    markup_free post ->
    process_latex_file (pre ++ lit cmd ++ braced arg ++ post)
    = process_latex_file (pre ++ post).
Proof.
  intros cmd pre arg post Hin Hpre Harg Hb Hn Hpost.
  apply process_latex_file_before_whitespace.
  rewrite removed_before_whitespace by assumption.
  symmetry. apply before_whitespace_plain.
  apply markup_free_app; assumption.
Qed.

Lemma command_with_argument_is_deleted_witness :
  process_latex_file
    (lit "As shown" ++ lit "\cite" ++ braced (lit "knuth:1984") ++ lit ", it holds.")
  = process_latex_file (lit "As shown" ++ lit ", it holds.").
Proof.
  apply command_with_argument_is_deleted.
  - right. right. left. reflexivity.
  - concrete_markup_free.
  - concrete_markup_free.
  - apply not_in_of_existsb. reflexivity.
  - apply not_in_of_existsb. reflexivity.
  - concrete_markup_free.
Defined.

(** X12: a literal word of lines 37, 38, 45, 46, 89 and 92-94
    ([\begin{document}], [\end{document}], [\myChapterCover{}], [\newpage],
    [\centering], [\toprule], [\midrule], [\bottomrule]) between two texts
    without markup is deleted, whatever follows it: the conversion gives the
    same text as without the word. *)
Theorem bare_command_is_deleted :
  forall cmd pre post,
    In cmd bare_commands -> markup_free pre -> markup_free post ->
    process_latex_file (pre ++ lit cmd ++ post)
    = process_latex_file (pre ++ post).
Proof.
  intros cmd pre post Hin Hpre Hpost.
  apply process_latex_file_before_whitespace.
  rewrite bare_before_whitespace by assumption.
  symmetry. apply before_whitespace_plain.
  apply markup_free_app; assumption.
Qed.

Lemma bare_command_is_deleted_witness :
  process_latex_file (lit ("First page." ++ nl) ++ lit "\newpage" ++ lit "Second page.")
  = process_latex_file (lit ("First page." ++ nl) ++ lit "Second page.").
Proof.
  apply bare_command_is_deleted.
  - right. right. right. left. reflexivity.
  - concrete_markup_free.
  - concrete_markup_free.
Defined.

(** X13: a command of lines 36 and 90 ([\documentclass], [\includegraphics])
    with a bracket option and a brace argument, between two texts without
    markup, is deleted with both, when the option holds no closing bracket,
    the argument no closing brace, and both are on one line and hold no
    markup. *)
Theorem command_with_option_is_deleted :
  forall cmd pre opt arg post,
    In cmd option_commands ->
    markup_free pre ->
    markup_free opt -> ~ In RBRACKET opt -> ~ In NL opt ->
    markup_free arg -> ~ In RBRACE arg -> ~ In NL arg ->
    markup_free post ->
    process_latex_file (pre ++ lit cmd ++ bracketed opt ++ braced arg ++ post)
    = process_latex_file (pre ++ post).
Proof.
  intros cmd pre opt arg post Hin Hpre Hopt Ho Hno Harg Hb Hn Hpost.
  apply process_latex_file_before_whitespace.
  rewrite option_before_whitespace by assumption.
  symmetry. apply before_whitespace_plain.
  apply markup_free_app; assumption.
Qed.

Lemma command_with_option_is_deleted_witness :
  process_latex_file
    (lit "See: " ++ lit "\includegraphics" ++ bracketed (lit "width=5cm")
     ++ braced (lit "plots/fig1.png") ++ lit " (left).")
  = process_latex_file (lit "See: " ++ lit " (left).").
Proof.
  apply command_with_option_is_deleted.
  - right. left. reflexivity.
  - concrete_markup_free.
  - concrete_markup_free.
  - apply not_in_of_existsb. reflexivity.
  - apply not_in_of_existsb. reflexivity.
  - concrete_markup_free.
  - apply not_in_of_existsb. reflexivity.
  - apply not_in_of_existsb. reflexivity.
  - concrete_markup_free.
Defined.

(** X14: a tensor of line 97, with its bracket option and its two brace
    arguments, between two texts without markup, is deleted with all three,
    when each of them is on one line, holds no markup and does not hold its
    own closing character. *)
Theorem tensor_is_deleted :
  forall pre a b c post,
    markup_free pre ->
    markup_free a -> ~ In RBRACKET a -> ~ In NL a ->
    markup_free b -> ~ In RBRACE b -> ~ In NL b ->
    markup_free c -> ~ In RBRACE c -> ~ In NL c ->
    markup_free post ->
    process_latex_file
      (pre ++ lit "\tensor" ++ bracketed a ++ braced b ++ braced c ++ post)
    = process_latex_file (pre ++ post).
Proof.
  intros pre a b c post Hpre Ha Ha1 Ha2 Hb Hb1 Hb2 Hc Hc1 Hc2 Hpost.
  apply process_latex_file_before_whitespace.
  rewrite tensor_before_whitespace by assumption.
  symmetry. apply before_whitespace_plain.
  apply markup_free_app; assumption.
Qed.

Lemma tensor_is_deleted_witness :
  process_latex_file
    (lit "The curvature " ++ lit "\tensor" ++ bracketed (lit "^a")
     ++ braced (lit "R") ++ braced (lit "_bcd") ++ lit " vanishes.")
  = process_latex_file (lit "The curvature " ++ lit " vanishes.").
Proof.
  apply tensor_is_deleted;
    first [ concrete_markup_free | apply not_in_of_existsb; reflexivity ].
Defined.

(** X15: a figure, table or tabulary environment (lines 82, 85, 86) between
    two texts without markup is deleted together with its body, over as many
    lines as the body has, when the body holds no markup. *)
Theorem float_environment_is_deleted :
  forall e pre body post,
    In e float_environments ->
    markup_free pre -> markup_free body -> markup_free post ->
    process_latex_file (pre ++ environment_text e body ++ post)
    = process_latex_file (pre ++ post).
Proof.
  intros e pre body post Hin Hpre Hbody Hpost.
  apply process_latex_file_before_whitespace.
  rewrite float_before_whitespace by assumption.
  symmetry. apply before_whitespace_plain.
  apply markup_free_app; assumption.
Qed.

Lemma float_environment_is_deleted_witness :
  process_latex_file
    (lit ("Before." ++ nl)
     ++ environment_text "table" (lit (nl ++ "a & b" ++ nl ++ "c & d" ++ nl))
     ++ lit (nl ++ "After."))
  = process_latex_file (lit ("Before." ++ nl) ++ lit (nl ++ "After.")).
Proof.
  apply float_environment_is_deleted.
  - right. left. reflexivity.
  - concrete_markup_free.
  - concrete_markup_free.
  - concrete_markup_free.
Defined.

(** X16: an equation, align or split environment (lines 68-70) between two
    texts without markup, with a body without markup, converts like the
    placeholder [<EQN HERE>] at its place. *)
Theorem math_block_in_text_becomes_placeholder :
  forall k pre body post,
    markup_free pre -> markup_free body -> markup_free post ->
    process_latex_file (pre ++ block k body ++ post)
    = process_latex_file (pre ++ lit PLACEHOLDER ++ post).
Proof.
  intros k pre body post Hpre Hbody Hpost.
  apply process_latex_file_before_whitespace.
  rewrite block_before_whitespace by assumption.
  symmetry. apply before_whitespace_plain.
  repeat apply markup_free_app; try assumption.
  concrete_markup_free.
Qed.

Lemma math_block_in_text_becomes_placeholder_witness :
  process_latex_file
    (lit ("We get" ++ nl)
     ++ block Align (lit (nl ++ "a &= b + c" ++ nl ++ "d &= e" ++ nl))
     ++ lit (nl ++ "as claimed."))
  = process_latex_file
      (lit ("We get" ++ nl) ++ lit PLACEHOLDER ++ lit (nl ++ "as claimed.")).
Proof.
  apply math_block_in_text_becomes_placeholder; concrete_markup_free.
Defined.

(** X17: a sectioning command of lines 50, 53 and 56 between two texts
    without markup converts like the heading line of its depth (that many
    hash signs, a space, the title) at its place, when the title is on one
    line and holds no closing brace and no markup.  The hash signs are put
    where the command was, also in the middle of a line. *)
Theorem heading_in_text_becomes_heading_line :
  forall l pre title post,
    markup_free pre -> markup_free title -> ~ In RBRACE title ->
    ~ In NL title -> markup_free post ->
    process_latex_file (pre ++ plain_heading l title ++ post)
    = process_latex_file (pre ++ heading_line l title ++ post).
Proof.
  intros l pre title post Hpre Ht Hb Hn Hpost.
  apply process_latex_file_before_whitespace.
  rewrite heading_before_whitespace by assumption.
  symmetry. apply before_whitespace_plain.
  apply markup_free_app; [assumption|].
  apply markup_free_app; [|assumption].
  rewrite heading_line_marker. apply markup_free_app; [|exact Ht].
  destruct l; concrete_markup_free.
Qed.

Lemma heading_in_text_becomes_heading_line_witness :
  process_latex_file
    (lit ("Intro text." ++ nl) ++ plain_heading Level2 (lit "Related work")
     ++ lit (nl ++ "Body."))
  = process_latex_file
      (lit ("Intro text." ++ nl) ++ heading_line Level2 (lit "Related work")
       ++ lit (nl ++ "Body.")).
Proof.
  apply heading_in_text_becomes_heading_line;
    first [ concrete_markup_free | apply not_in_of_existsb; reflexivity ].
Defined.

(** X18: a sectioning command followed by a label (lines 49, 52, 55), with
    any run of whitespace between them, line breaks included, converts like
    the heading line alone: the whitespace and the label leave no trace.
    Title and label are on one line and hold no closing brace and no markup;
    the texts around hold no markup. *)
Theorem labeled_heading_converts_like_heading_line :
  forall l pre title ws label post,
    markup_free pre -> markup_free title -> ~ In RBRACE title ->
    ~ In NL title -> Forall (fun c => isspace c = true) ws ->
    markup_free label -> ~ In RBRACE label -> ~ In NL label ->
    markup_free post ->
    process_latex_file (pre ++ spaced_labeled_heading l title ws label ++ post)
    = process_latex_file (pre ++ heading_line l title ++ post).
Proof.
  intros l pre title ws label post Hpre Ht Hb Hn Hw Hl Hb' Hn' Hpost.
  apply process_latex_file_before_whitespace.
  rewrite labeled_before_whitespace by assumption.
  symmetry. apply before_whitespace_plain.
  apply markup_free_app; [assumption|].
  apply markup_free_app; [|assumption].
  rewrite heading_line_marker. apply markup_free_app; [|exact Ht].
  destruct l; concrete_markup_free.
Qed.

Lemma labeled_heading_converts_like_heading_line_witness :
  process_latex_file
    (lit ("Intro text." ++ nl)
     ++ spaced_labeled_heading Level1 (lit "Results") (lit (nl ++ "  "))
          (lit "sec:results")
     ++ lit (nl ++ "Body."))
  = process_latex_file
      (lit ("Intro text." ++ nl) ++ heading_line Level1 (lit "Results")
       ++ lit (nl ++ "Body.")).
Proof.
  apply labeled_heading_converts_like_heading_line;
    first [ concrete_markup_free
          | apply not_in_of_existsb; reflexivity
          | repeat (apply Forall_cons; [reflexivity|]); apply Forall_nil ].
Defined.

(** X19: the document frame of lines 36-38 is deleted: a document class
    line, a preamble, and a body between [\begin{document}] and
    [\end{document}] convert like the preamble followed by the body, when
    option and class are on one line without their closing character and
    nothing holds markup of its own. *)
Theorem document_frame_is_deleted :
  forall pre opt cls preamble body post,
    markup_free pre ->
    markup_free opt -> ~ In RBRACKET opt -> ~ In NL opt ->
    markup_free cls -> ~ In RBRACE cls -> ~ In NL cls ->
    markup_free preamble -> markup_free body -> markup_free post ->
    process_latex_file (pre ++ framed_document opt cls preamble body ++ post)
    = process_latex_file (pre ++ preamble ++ body ++ post).
Proof.
  intros pre opt cls preamble body post
    Hpre Hopt Ho Hno Hcls Hb Hn Hpa Hbody Hpost.
  apply process_latex_file_before_whitespace.
  rewrite framed_before_whitespace by assumption.
  symmetry. apply before_whitespace_plain.
  repeat apply markup_free_app; assumption.
Qed.

Lemma document_frame_is_deleted_witness :
  process_latex_file
    ([] ++ framed_document (lit "12pt") (lit "article") (lit nl)
             (lit (nl ++ "Hello." ++ nl))
     ++ lit nl)
  = process_latex_file ([] ++ lit nl ++ lit (nl ++ "Hello." ++ nl) ++ lit nl).
Proof.
  apply document_frame_is_deleted;
    first [ concrete_markup_free | apply not_in_of_existsb; reflexivity ].
Defined.

(** X20: the substitutions whose pattern has no class that can take a line
    break (lines 36-38, 41, 44-46, 50, 53, 56, 59, 62-65, 89-94, 97, 107 and
    108, and lines 130, 133 and 134 of the math cleaner) act on every line
    separately: substituting in the text is substituting in each of its
    lines, whatever the replacement. *)
Theorem line_patterns_act_line_by_line :
  forall p repl s,
    In p line_patterns ->
    re_sub p repl s = join_lines (map (re_sub p repl) (split_lines s)).
Proof.
  intros p repl s Hin. apply re_sub_by_lines.
  pose proof line_patterns_local as H. rewrite forallb_forall in H.
  apply H. exact Hin.
Qed.

Lemma line_patterns_act_line_by_line_witness :
  re_sub (cmd_arg "\cite") (const "")
    (lit ("a\cite{x}" ++ nl ++ "b\cite{y" ++ nl ++ "}c"))
  = join_lines
      (map (re_sub (cmd_arg "\cite") (const ""))
         (split_lines (lit ("a\cite{x}" ++ nl ++ "b\cite{y" ++ nl ++ "}c")))).
Proof.
  apply line_patterns_act_line_by_line.
  do 11 right. left. reflexivity.
Defined.

(** X21: a comment between two texts without markup is dropped, whatever it
    holds: from the percent sign to the end of its line (the line break
    stays) or to the end of the text.  Lines 36-38 run before line 41 and may
    change the comment, but they leave it a comment on the same line. *)
Theorem comment_in_text_is_dropped :
  forall pre comment rest,
    markup_free pre -> ~ In NL comment ->
    markup_free rest -> at_eol rest = true ->
    process_latex_file (pre ++ PERCENT :: comment ++ rest)
    = process_latex_file (pre ++ rest).
Proof.
  intros pre comment rest Hpre Hc Hrest He.
  apply process_latex_file_before_whitespace.
  rewrite (before_whitespace_plain (pre ++ rest))
    by (apply markup_free_app; assumption).
  apply (comment_before_whitespace pre comment rest); assumption.
Qed.

Lemma comment_in_text_is_dropped_witness :
  process_latex_file
    (lit "Kept text. " ++ PERCENT :: lit "see \cite{x}, $5\%$ \end{document}"
     ++ lit (nl ++ "Next line."))
  = process_latex_file (lit "Kept text. " ++ lit (nl ++ "Next line.")).
Proof.
  apply comment_in_text_is_dropped.
  - concrete_markup_free.
  - apply not_in_of_existsb. reflexivity.
  - concrete_markup_free.
  - reflexivity.
Defined.

(** X22: a citation that directly follows a tilde, between two texts
    without markup: line 62 deletes the citation before line 63 can take the
    tilde with it, so the conversion gives the same text as with the tilde
    alone. *)
Theorem citation_after_tilde_leaves_tilde :
  forall pre key post,
    markup_free pre -> markup_free key -> ~ In RBRACE key -> ~ In NL key ->
    markup_free post ->
    process_latex_file (pre ++ TILDE :: lit "\cite" ++ braced key ++ post)
    = process_latex_file (pre ++ TILDE :: post).
Proof.
  intros pre key post Hpre Hk Hb Hn Hpost.
  assert (Ht : markup_free (pre ++ [TILDE])).
  { apply markup_free_app; [exact Hpre|]. concrete_markup_free. }
  apply process_latex_file_before_whitespace.
  replace (pre ++ TILDE :: lit "\cite" ++ braced key ++ post)
    with ((pre ++ [TILDE]) ++ lit "\cite" ++ braced key ++ post)
    by (rewrite <- app_assoc; reflexivity).
  replace (pre ++ TILDE :: post) with ((pre ++ [TILDE]) ++ post)
    by (rewrite <- app_assoc; reflexivity).
  rewrite (removed_before_whitespace "\cite");
    [|right; right; left; reflexivity|assumption..].
  symmetry. apply before_whitespace_plain.
  apply markup_free_app; assumption.
Qed.

Lemma citation_after_tilde_leaves_tilde_witness :
  process_latex_file
    (lit "as shown in" ++ TILDE :: lit "\cite" ++ braced (lit "knuth:1984")
     ++ lit ".")
  = process_latex_file (lit "as shown in" ++ TILDE :: lit ".").
Proof.
  apply citation_after_tilde_leaves_tilde;
    first [ concrete_markup_free | apply not_in_of_existsb; reflexivity ].
Defined.

(** X23: an inline math span without backslash and percent sign, between
    two texts without markup, is kept with both dollar signs; the whitespace
    at both ends of its interior is trimmed (line 137), and the whitespace
    clean-up of lines 102-104 then runs over the whole text. *)
Theorem inline_math_in_text_is_trimmed :
  forall pre m post,
    markup_free pre -> markup_free m -> markup_free post ->
    process_latex_file (pre ++ DOLLAR :: m ++ DOLLAR :: post)
    = whitespace_stage (pre ++ DOLLAR :: strip m ++ DOLLAR :: post).
Proof.
  intros pre m post Hpre Hm Hpost.
  rewrite no_backslash_result.
  - rewrite math_before_whitespace by assumption. reflexivity.
  - destruct Hpre as (Hs1 & _). destruct Hm as (Hs2 & _).
    destruct Hpost as (Hs3 & _).
    intro H. apply in_app_or in H. destruct H as [H|H]; [exact (Hs1 H)|].
    destruct H as [H|H]; [discriminate|].
    apply in_app_or in H. destruct H as [H|H]; [exact (Hs2 H)|].
    destruct H as [H|H]; [discriminate|exact (Hs3 H)].
Qed.

Lemma inline_math_in_text_is_trimmed_witness :
  process_latex_file (lit "For " ++ DOLLAR :: lit " x_{1} + y " ++ DOLLAR :: lit " we get")
  = whitespace_stage
      (lit "For " ++ DOLLAR :: strip (lit " x_{1} + y ") ++ DOLLAR :: lit " we get").
Proof.
  apply inline_math_in_text_is_trimmed; concrete_markup_free.
Defined.

(** X24: on a text without command token (no backslash directly followed by
    a letter), [clean_math_content] only trims: nothing inside is changed. *)
Theorem clean_math_content_without_command_only_trims :
  forall u, no_command u = true -> clean_math_content u = strip u.
Proof. exact clean_math_content_fixed. Qed.

Lemma clean_math_content_without_command_only_trims_witness :
  clean_math_content (lit " a_{1} + b^2 \\ ") = strip (lit " a_{1} + b^2 \\ ").
Proof.
  apply clean_math_content_without_command_only_trims.
  vm_compute. reflexivity.
Defined.

(** X25: [clean_math_content] replaces a command with a brace argument by
    its argument, whatever the name of the command (line 129): after a text
    without backslash, and for an argument without backslash and closing
    brace, cleaning gives the same as cleaning the text with the bare
    argument, whatever follows. *)
Theorem clean_math_content_unwraps_command :
  forall pre name arg post,
    ~ In BACKSLASH pre ->
    name <> [] -> Forall (fun c => isletter c = true) name ->
    ~ In BACKSLASH arg -> ~ In RBRACE arg ->
    clean_math_content (pre ++ command name arg ++ post)
    = clean_math_content (pre ++ arg ++ post).
Proof. exact clean_math_content_unwraps. Qed.

Lemma clean_math_content_unwraps_command_witness :
  clean_math_content
    (lit "2" ++ command (lit "mathbf") (lit "v") ++ lit " + \vec{w}")
  = clean_math_content (lit "2" ++ lit "v" ++ lit " + \vec{w}").
Proof.
  apply clean_math_content_unwraps_command.
  - apply not_in_of_existsb. reflexivity.
  - discriminate.
  - repeat (apply Forall_cons; [reflexivity|]). apply Forall_nil.
  - apply not_in_of_existsb. reflexivity.
  - apply not_in_of_existsb. reflexivity.
Defined.

(** X26: [clean_math_content] deletes a bare command, whatever its name
    (line 130): after a text without backslash, and when no letter, opening
    brace or backslash directly follows the command, cleaning gives the same
    as cleaning the text without the command, whatever comes later. *)
Theorem clean_math_content_deletes_bare_command :
  forall pre name v,
    ~ In BACKSLASH pre ->
    name <> [] -> Forall (fun c => isletter c = true) name ->
    head_letter v = false -> hd_error v <> Some LBRACE ->
    hd_error v <> Some BACKSLASH ->
    clean_math_content (pre ++ BACKSLASH :: name ++ v)
    = clean_math_content (pre ++ v).
Proof. exact clean_math_content_deletes. Qed.

Lemma clean_math_content_deletes_bare_command_witness :
  clean_math_content (lit "2" ++ BACKSLASH :: lit "alpha" ++ lit " + \hat{x}")
  = clean_math_content (lit "2" ++ lit " + \hat{x}").
Proof.
  apply clean_math_content_deletes_bare_command.
  - apply not_in_of_existsb. reflexivity.
  - discriminate.
  - repeat (apply Forall_cons; [reflexivity|]). apply Forall_nil.
  - reflexivity.
  - discriminate.
  - discriminate.
Defined.
